(** * EllipsoidGeometry: tessellation of an ellipsoid from a subdivided cube

    A shallow embedding of [Source/Core/EllipsoidGeometry.js] and the
    properties its specification states about it.

    Conventions of the embedding.
    - JavaScript numbers that hold coordinates are idealised as real numbers
      ([R]); rounding is not modelled, except in [Binary64], where the
      position pass is evaluated on IEEE doubles.
    - JavaScript numbers that count or index (the partition count, loop
      counters, array indices) are integers ([Z]) or naturals ([nat]).
    - A JavaScript array that may have holes is a list of optional values:
      [None] is a hole, read back as [undefined].
    - Every object pushed on [positions] is a fresh object, so the array is
      modelled by the list of the objects' current values; code that mutates
      an element in place returns the updated list. *)

From Stdlib Require Import Floats List ZArith Lia Reals Lra Psatz Bool String.
Import ListNotations.

(** ** Exceptions *)

Inductive exn : Type :=
| DeveloperError (message : string)
| UndefinedOperand.

Inductive result (A : Type) : Type :=
| Ok (a : A)
| Throw (e : exn).

Arguments Ok {A} a.
Arguments Throw {A} e.

Definition bind {A B : Type} (m : result A) (k : A -> result B) : result B :=
  match m with
  | Ok a => k a
  | Throw e => Throw e
  end.

Notation "x <- m ;; k" := (bind m (fun x => k))
  (at level 61, m at next level, right associativity).
Notation "' p <- m ;; k" := (bind m (fun x => let 'p := x in k))
  (at level 61, p pattern, m at next level, right associativity).

(** A vector primitive applied to [undefined] raises. *)
Definition defined {A : Type} (v : option A) : result A :=
  match v with
  | Some a => Ok a
  | None => Throw UndefinedOperand
  end.

(** ** Counted loops *)

(** [zrange lo hi] is [lo; lo+1; ...; hi-1], the values a counter takes in
    [for (i = lo; i < hi; ++i)]. *)
Definition zrange (lo hi : Z) : list Z :=
  map (fun k => (lo + Z.of_nat k)%Z) (seq 0 (Z.to_nat (hi - lo))).

(** [for (i = lo; i < hi; ++i) { s = body i s }] *)
Definition for_range {S : Type} (lo hi : Z) (body : Z -> S -> S) (s : S) : S :=
  fold_left (fun s i => body i s) (zrange lo hi) s.

(** ** JavaScript arrays with holes *)

Module JsArray.

Definition t (A : Type) : Type := list (option A).

(** [a[i]]: a hole, an index past the end and a negative key all read as
    [undefined]. *)
Definition get {A : Type} (a : t A) (i : Z) : option A :=
  if (i <? 0)%Z then None
  else match nth_error a (Z.to_nat i) with
       | Some v => v
       | None => None
       end.

(** [a[n] = v] for a natural [n]: overwrites in range, and past the end
    extends the array with holes up to [n]. *)
Fixpoint set_nat {A : Type} (a : t A) (n : nat) (v : option A) : t A :=
  match n, a with
  | O, [] => [v]
  | O, _ :: a' => v :: a'
  | S n', [] => None :: set_nat [] n' v
  | S n', x :: a' => x :: set_nat a' n' v
  end.

(** [a[i] = v]: a negative key is not an array index; it leaves the
    elements and the length as they are (the source never reads one). *)
Definition set {A : Type} (a : t A) (i : Z) (v : option A) : t A :=
  if (i <? 0)%Z then a else set_nat a (Z.to_nat i) v.

(** [a.push(v)] *)
Definition push {A : Type} (a : t A) (v : option A) : t A := a ++ [v].

(** [a.length] *)
Definition length {A : Type} (a : t A) : Z := Z.of_nat (List.length a).

(** [a.slice(0)] *)
Definition slice0 {A : Type} (a : t A) : t A := a.

(** [a.reverse()] (on a copy) *)
Definition reverse {A : Type} (a : t A) : t A := rev a.

End JsArray.

(** ** Cartesian3 *)

Open Scope R_scope.

Module Cartesian3.

(** Modelled from the spec: [Cartesian3.js] is not among the sources. A
    vector is its three components. *)
Record t : Type := mk { x : R; y : R; z : R }.

(** Modelled from the spec: the vector primitives the specification assumes
    ([Cartesian3.js] is not among the sources). Component-wise difference. *)
Definition subtract (l r : t) : t := mk (x l - x r) (y l - y r) (z l - z r).

(** Modelled from the spec: component-wise sum. *)
Definition add (l r : t) : t := mk (x l + x r) (y l + y r) (z l + z r).

(** Modelled from the spec: the vector scaled by a number. *)
Definition multiplyByScalar (c : t) (s : R) : t := mk (x c * s) (y c * s) (z c * s).

(** Modelled from the spec: component-wise product. *)
Definition multiplyComponents (l r : t) : t := mk (x l * x r) (y l * y r) (z l * z r).

(** Modelled from the spec: the Euclidean length. *)
Definition magnitude (c : t) : R := sqrt (x c * x c + y c * y c + z c * z c).

(** Modelled from the spec: the vector divided by its length. On the zero
    vector JavaScript yields NaN components where this yields zeros; no
    position of the mesh is the zero vector. Over the reals the result has
    length exactly 1; on doubles it has it up to rounding
    ([Binary64.Cartesian3.normalize]). *)
Definition normalize (c : t) : t :=
  let m := magnitude c in mk (x c / m) (y c / m) (z c / m).

(** Modelled from the spec: the cross product. *)
Definition cross (l r : t) : t :=
  mk (y l * z r - z l * y r) (z l * x r - x l * z r) (x l * y r - y l * x r).

(** Modelled from the spec: the constant vectors [ZERO] and [UNIT_Z], the
    fixed up axis. *)
Definition ZERO : t := mk 0 0 0.
Definition UNIT_Z : t := mk 0 0 1.

End Cartesian3.

(** ** addEdgePositions *)

(** The loop threads the index list under construction and the shared
    position list; [scratchDirection] holds [direction] and is not written
    again before the function returns. *)
Definition addEdgePositions (i0 i1 : nat) (numberOfPartitions : Z)
    (positions : list Cartesian3.t) : result (JsArray.t nat * list Cartesian3.t) :=
  let indices : JsArray.t nat := [] in
  let indices := JsArray.set indices 0 (Some i0) in
  let indices := JsArray.set indices (2 + (numberOfPartitions - 1) - 1) (Some i1) in
  let origin := nth_error positions i0 in
  left <- defined (nth_error positions i1) ;;
  origin <- defined origin ;;
  let direction := Cartesian3.subtract left origin in
  Ok (for_range 1 numberOfPartitions
        (fun i '(indices, positions) =>
           let delta := IZR i / IZR numberOfPartitions in
           let position := Cartesian3.multiplyByScalar direction delta in
           let position := Cartesian3.add origin position in
           (JsArray.set indices i (Some (List.length positions)),
            positions ++ [position]))
        (indices, positions)).

(** ** addFaceTriangles *)

(** The arrays that [bottomIndices] and [topIndices] can alias. *)
Inductive rowRef : Type :=
| RefBottomLeftToRight
| RefTopLeftToRight
| RefBottomIndicesBuffer
| RefTopIndicesBuffer.

Module Face.

(** Variables of [addFaceTriangles] that change across the rows. *)
Record state : Type := mk {
  bottomIndicesBuffer : JsArray.t nat;
  topIndicesBuffer : JsArray.t nat;
  bottomIndices : rowRef;
  topIndices : rowRef;
  positions : list Cartesian3.t;
  indices : JsArray.t nat
}.

Definition deref (bottomLeftToRight topLeftToRight : JsArray.t nat)
    (s : state) (r : rowRef) : JsArray.t nat :=
  match r with
  | RefBottomLeftToRight => bottomLeftToRight
  | RefTopLeftToRight => topLeftToRight
  | RefBottomIndicesBuffer => bottomIndicesBuffer s
  | RefTopIndicesBuffer => topIndicesBuffer s
  end.

End Face.

(** [positions[v]] where [v] was read from an index array. *)
Definition position_at (positions : list Cartesian3.t) (v : option nat)
    : option Cartesian3.t :=
  match v with
  | Some n => nth_error positions n
  | None => None
  end.

Definition addFaceTriangles
    (leftBottomToTop bottomLeftToRight rightBottomToTop topLeftToRight : JsArray.t nat)
    (numberOfPartitions : Z) (positions : list Cartesian3.t) (indices : JsArray.t nat)
    : result (list Cartesian3.t * JsArray.t nat) :=
  let origin := position_at positions (JsArray.get bottomLeftToRight 0) in
  left <- defined (position_at positions
            (JsArray.get bottomLeftToRight (JsArray.length bottomLeftToRight - 1))) ;;
  origin <- defined origin ;;
  let x := Cartesian3.subtract left origin in
  left <- defined (position_at positions (JsArray.get topLeftToRight 0)) ;;
  let y := Cartesian3.subtract left origin in
  let deref := Face.deref bottomLeftToRight topLeftToRight in
  let s :=
    for_range 1 (numberOfPartitions + 1)
      (fun j s =>
         let s :=
           if negb (j =? numberOfPartitions)%Z then
             let s :=
               if negb (j =? 1)%Z then
                 Face.mk (JsArray.slice0 (Face.topIndicesBuffer s))
                         (Face.topIndicesBuffer s)
                         RefBottomIndicesBuffer
                         (Face.topIndices s) (Face.positions s) (Face.indices s)
               else s in
             let top := JsArray.set (Face.topIndicesBuffer s) 0
                          (JsArray.get leftBottomToTop j) in
             let top := JsArray.set top numberOfPartitions
                          (JsArray.get rightBottomToTop j) in
             let deltaY := IZR j / IZR numberOfPartitions in
             let offsetY := Cartesian3.multiplyByScalar y deltaY in
             let '(top, positions) :=
               for_range 1 numberOfPartitions
                 (fun i '(top, positions) =>
                    let deltaX := IZR i / IZR numberOfPartitions in
                    let offsetX := Cartesian3.multiplyByScalar x deltaX in
                    let position := Cartesian3.add origin offsetX in
                    let position := Cartesian3.add position offsetY in
                    (JsArray.set top i (Some (List.length positions)),
                     positions ++ [position]))
                 (top, Face.positions s) in
             Face.mk (Face.bottomIndicesBuffer s) top (Face.bottomIndices s)
                     (Face.topIndices s) positions (Face.indices s)
           else
             let s :=
               if negb (j =? 1)%Z then
                 Face.mk (Face.bottomIndicesBuffer s) (Face.topIndicesBuffer s)
                         RefTopIndicesBuffer
                         (Face.topIndices s) (Face.positions s) (Face.indices s)
               else s in
             Face.mk (Face.bottomIndicesBuffer s) (Face.topIndicesBuffer s)
                     (Face.bottomIndices s)
                     RefTopLeftToRight (Face.positions s) (Face.indices s) in
         let bottomIndices := deref s (Face.bottomIndices s) in
         let topIndices := deref s (Face.topIndices s) in
         let indices :=
           for_range 0 numberOfPartitions
             (fun k indices =>
                let indices := JsArray.push indices (JsArray.get bottomIndices k) in
                let indices := JsArray.push indices (JsArray.get bottomIndices (k + 1)) in
                let indices := JsArray.push indices (JsArray.get topIndices (k + 1)) in
                let indices := JsArray.push indices (JsArray.get bottomIndices k) in
                let indices := JsArray.push indices (JsArray.get topIndices (k + 1)) in
                JsArray.push indices (JsArray.get topIndices k))
             (Face.indices s) in
         Face.mk (Face.bottomIndicesBuffer s) (Face.topIndicesBuffer s)
                 (Face.bottomIndices s) (Face.topIndices s) (Face.positions s) indices)
      (Face.mk [] [] RefBottomLeftToRight RefTopIndicesBuffer positions indices) in
  Ok (Face.positions s, Face.indices s).

(** ** Collaborators of the constructor *)

Module Ellipsoid.

(** Modelled from the spec: [Ellipsoid.js] is not among the sources. An
    ellipsoid is its three radii. *)
Record t : Type := mk { radii : Cartesian3.t }.

(** Modelled from the spec: the radii. *)
Definition getRadii (e : t) : Cartesian3.t := radii e.

(** Modelled from the spec: the reciprocals of the radii. *)
Definition getOneOverRadii (e : t) : Cartesian3.t :=
  let r := radii e in
  Cartesian3.mk (/ Cartesian3.x r) (/ Cartesian3.y r) (/ Cartesian3.z r).

(** Modelled from the spec: the reciprocals of the squared radii. *)
Definition oneOverRadiiSquared (e : t) : Cartesian3.t :=
  let r := radii e in
  Cartesian3.mk (/ (Cartesian3.x r * Cartesian3.x r))
                (/ (Cartesian3.y r * Cartesian3.y r))
                (/ (Cartesian3.z r * Cartesian3.z r)).

(** Modelled from the spec: the geodetic surface normal, the normalized
    gradient of the implicit equation of the ellipsoid at the point, that
    is the point scaled by the inverse squared radii and normalized. *)
Definition geodeticSurfaceNormal (e : t) (cartesian : Cartesian3.t) : Cartesian3.t :=
  Cartesian3.normalize (Cartesian3.multiplyComponents cartesian (oneOverRadiiSquared e)).

(** Modelled from the spec: the sphere of radius one. *)
Definition UNIT_SPHERE : t := mk (Cartesian3.mk 1 1 1).

End Ellipsoid.

Module VertexFormat.

(** Modelled from the spec: [VertexFormat.js] is not among the sources. One
    flag per attribute. *)
Record t : Type := mk {
  position : bool;
  normal : bool;
  st : bool;
  binormal : bool;
  tangent : bool
}.

(** Modelled from the spec: the default format requests position, normal
    and texture coordinates. *)
Definition DEFAULT : t := mk true true true false false.

(** Modelled from the spec: the position-only format. *)
Definition POSITION_ONLY : t := mk true false false false false.

End VertexFormat.

(** The values of [ComponentDatatype] and [PrimitiveType] the constructor
    uses. *)
Inductive ComponentDatatype : Type := FLOAT.
Inductive PrimitiveType : Type := TRIANGLES.

Module GeometryAttribute.
(** The properties the constructor passes to [new GeometryAttribute]. *)
Record t : Type := mk {
  componentDatatype : ComponentDatatype;
  componentsPerAttribute : Z;
  values : list R
}.
End GeometryAttribute.

Module GeometryIndices.
(** The properties the constructor passes to [new GeometryIndices]. *)
Record t : Type := mk {
  primitiveType : PrimitiveType;
  values : JsArray.t nat
}.
End GeometryIndices.

Module BoundingSphere.

(** Modelled from the spec: [BoundingSphere.js] is not among the sources. A
    sphere is its centre and its radius. *)
Record t : Type := mk { center : Cartesian3.t; radius : R }.

(** Modelled from the spec: the sphere bounding an ellipsoid is centred at
    the origin and its radius is the largest radius of the ellipsoid. *)
Definition fromEllipsoid (e : Ellipsoid.t) : t :=
  let r := Ellipsoid.radii e in
  mk Cartesian3.ZERO
     (Rmax (Cartesian3.x r) (Rmax (Cartesian3.y r) (Cartesian3.z r))).

End BoundingSphere.

Module Matrix4.

(** Modelled from the spec: [Matrix4.js] is not among the sources. A 4x4
    transform is its sixteen numbers; the constructor only stores it. *)
Definition t : Type := list R.

(** Modelled from the spec: the identity transform. *)
Definition IDENTITY : t := [1; 0; 0; 0; 0; 1; 0; 0; 0; 0; 1; 0; 0; 0; 0; 1].

(** Modelled from the spec: a copy holds the same numbers. *)
Definition clone (m : t) : t := m.

End Matrix4.

(** Modelled from the spec: [defaultValue.js] is not among the sources; an
    absent value is replaced by the default. *)
Definition defaultValue {A : Type} (a : option A) (b : A) : A :=
  match a with
  | Some v => v
  | None => b
  end.

Module Options.

(** The [options] object; an absent property is [None]. [pickData] is
    stored and never inspected, so any type does for it. *)
Record t : Type := mk {
  ellipsoid : option Ellipsoid.t;
  numberOfPartitions : option Z;
  vertexFormat : option VertexFormat.t;
  modelMatrix : option Matrix4.t;
  pickData : option nat
}.

Definition EMPTY_OBJECT : t := mk None None None None None.

End Options.

Module Attributes.
Record t : Type := mk {
  position : option GeometryAttribute.t;
  st : option GeometryAttribute.t;
  normal : option GeometryAttribute.t;
  tangent : option GeometryAttribute.t;
  binormal : option GeometryAttribute.t
}.
End Attributes.

Module Geometry.
(** The fields the constructor sets on [this]. *)
Record t : Type := mk {
  attributes : Attributes.t;
  indexLists : list GeometryIndices.t;
  boundingSphere : BoundingSphere.t;
  modelMatrix : Matrix4.t;
  pickData : option nat
}.
End Geometry.

(** ** The constructor *)

(** Lines 68-127: the eight corners, the twelve edges and the six faces.
    Returns the cube-space [positions] and the triangle [indices]. *)
Definition cubeMesh (numberOfPartitions : Z)
    : result (list Cartesian3.t * JsArray.t nat) :=
  let positions : list Cartesian3.t := [] in
  let indices : JsArray.t nat := [] in
  let positions := positions ++ [Cartesian3.mk (-1) 0 (-1)] in
  let positions := positions ++ [Cartesian3.mk 0 (-1) (-1)] in
  let positions := positions ++ [Cartesian3.mk 1 0 (-1)] in
  let positions := positions ++ [Cartesian3.mk 0 1 (-1)] in
  let positions := positions ++ [Cartesian3.mk (-1) 0 1] in
  let positions := positions ++ [Cartesian3.mk 0 (-1) 1] in
  let positions := positions ++ [Cartesian3.mk 1 0 1] in
  let positions := positions ++ [Cartesian3.mk 0 1 1] in
  '(edge0to1, positions) <- addEdgePositions 0 1 numberOfPartitions positions ;;
  '(edge1to2, positions) <- addEdgePositions 1 2 numberOfPartitions positions ;;
  '(edge2to3, positions) <- addEdgePositions 2 3 numberOfPartitions positions ;;
  '(edge3to0, positions) <- addEdgePositions 3 0 numberOfPartitions positions ;;
  '(edge4to5, positions) <- addEdgePositions 4 5 numberOfPartitions positions ;;
  '(edge5to6, positions) <- addEdgePositions 5 6 numberOfPartitions positions ;;
  '(edge6to7, positions) <- addEdgePositions 6 7 numberOfPartitions positions ;;
  '(edge7to4, positions) <- addEdgePositions 7 4 numberOfPartitions positions ;;
  '(edge0to4, positions) <- addEdgePositions 0 4 numberOfPartitions positions ;;
  '(edge1to5, positions) <- addEdgePositions 1 5 numberOfPartitions positions ;;
  '(edge2to6, positions) <- addEdgePositions 2 6 numberOfPartitions positions ;;
  '(edge3to7, positions) <- addEdgePositions 3 7 numberOfPartitions positions ;;
  '(positions, indices) <-
    addFaceTriangles edge0to4 edge0to1 edge1to5 edge4to5
      numberOfPartitions positions indices ;;
  '(positions, indices) <-
    addFaceTriangles edge1to5 edge1to2 edge2to6 edge5to6
      numberOfPartitions positions indices ;;
  '(positions, indices) <-
    addFaceTriangles edge2to6 edge2to3 edge3to7 edge6to7
      numberOfPartitions positions indices ;;
  '(positions, indices) <-
    addFaceTriangles edge3to7 edge3to0 edge0to4 edge7to4
      numberOfPartitions positions indices ;;
  '(positions, indices) <-
    addFaceTriangles (JsArray.reverse (JsArray.slice0 edge7to4)) edge4to5 edge5to6
      (JsArray.reverse (JsArray.slice0 edge6to7))
      numberOfPartitions positions indices ;;
  '(positions, indices) <-
    addFaceTriangles edge1to2 (JsArray.reverse (JsArray.slice0 edge0to1))
      (JsArray.reverse (JsArray.slice0 edge3to0)) edge2to3
      numberOfPartitions positions indices ;;
  Ok (positions, indices).

Definition flatten3 (c : Cartesian3.t) : list R :=
  [Cartesian3.x c; Cartesian3.y c; Cartesian3.z c].

(** Lines 140-148. Each [item] is normalized and scaled in place, so the
    loop leaves [positions] holding the ellipsoid-space points. Returns the
    updated [positions] and [flattenedPositions]. *)
Definition expandPositions (ellipsoid : Ellipsoid.t) (positions : list Cartesian3.t)
    : list Cartesian3.t * list R :=
  let radii := Ellipsoid.getRadii ellipsoid in
  let positions :=
    map (fun item =>
           let item := Cartesian3.normalize item in
           Cartesian3.multiplyComponents item radii)
        positions in
  (positions, flat_map flatten3 positions).

(** [Math.atan2] on reals. *)
Definition atan2 (y x : R) : R :=
  if Rlt_dec 0 x then atan (y / x)
  else if Rlt_dec x 0 then
         if Rle_dec 0 y then atan (y / x) + PI else atan (y / x) - PI
       else if Rlt_dec 0 y then PI / 2
            else if Rlt_dec y 0 then - (PI / 2) else 0.

(** Modelled from the spec: the constants of [Math.js], which is not among
    the sources. *)
Definition ONE_OVER_PI : R := 1 / PI.
Definition ONE_OVER_TWO_PI : R := 1 / (2 * PI).

(** Lines 161-167: [texCoords]. *)
Definition computeTexCoords (ellipsoid : Ellipsoid.t) (positions : list Cartesian3.t)
    : list R :=
  let oneOverRadii := Ellipsoid.getOneOverRadii ellipsoid in
  flat_map (fun p =>
              let sphericalNormal := Cartesian3.multiplyComponents p oneOverRadii in
              let sphericalNormal := Cartesian3.normalize sphericalNormal in
              [atan2 (Cartesian3.y sphericalNormal) (Cartesian3.x sphericalNormal)
                 * ONE_OVER_TWO_PI + 0.5;
               asin (Cartesian3.z sphericalNormal) * ONE_OVER_PI + 0.5])
           positions.

(** Lines 181-197, one iteration: the [normal], [tangent] and [binormal]
    written for [positions[i]]. *)
Definition vertexFrame (ellipsoid : Ellipsoid.t) (p : Cartesian3.t)
    : Cartesian3.t * Cartesian3.t * Cartesian3.t :=
  let normal := Ellipsoid.geodeticSurfaceNormal ellipsoid p in
  let tangent := Cartesian3.cross Cartesian3.UNIT_Z normal in
  let binormal := Cartesian3.cross normal tangent in
  (normal, tangent, binormal).

(** Lines 177-197: [normals], [tangents] and [binormals]. *)
Definition computeFrames (ellipsoid : Ellipsoid.t) (positions : list Cartesian3.t)
    : list R * list R * list R :=
  let frames := map (vertexFrame ellipsoid) positions in
  (flat_map (fun f => flatten3 (fst (fst f))) frames,
   flat_map (fun f => flatten3 (snd (fst f))) frames,
   flat_map (fun f => flatten3 (snd f)) frames).

Definition EllipsoidGeometry (options : option Options.t) : result Geometry.t :=
  let options := defaultValue options Options.EMPTY_OBJECT in
  let ellipsoid := defaultValue (Options.ellipsoid options) Ellipsoid.UNIT_SPHERE in
  let numberOfPartitions := defaultValue (Options.numberOfPartitions options) 32%Z in
  let vertexFormat := defaultValue (Options.vertexFormat options) VertexFormat.DEFAULT in
  if (numberOfPartitions <=? 0)%Z then
    Throw (DeveloperError "options.numberOfPartitions must be greater than zero.")
  else
    '(positions, indices) <- cubeMesh numberOfPartitions ;;
    let '(positions, position) :=
      if VertexFormat.position vertexFormat then
        let '(positions, flattenedPositions) := expandPositions ellipsoid positions in
        (positions, Some (GeometryAttribute.mk FLOAT 3 flattenedPositions))
      else (positions, None) in
    let st :=
      if VertexFormat.st vertexFormat then
        Some (GeometryAttribute.mk FLOAT 2 (computeTexCoords ellipsoid positions))
      else None in
    let '(normal, tangent, binormal) :=
      if VertexFormat.normal vertexFormat || VertexFormat.tangent vertexFormat
         || VertexFormat.binormal vertexFormat then
        let '(normals, tangents, binormals) := computeFrames ellipsoid positions in
        (if VertexFormat.normal vertexFormat
         then Some (GeometryAttribute.mk FLOAT 3 normals) else None,
         if VertexFormat.tangent vertexFormat
         then Some (GeometryAttribute.mk FLOAT 3 tangents) else None,
         if VertexFormat.binormal vertexFormat
         then Some (GeometryAttribute.mk FLOAT 3 binormals) else None)
      else (None, None, None) in
    Ok (Geometry.mk
          (Attributes.mk position st normal tangent binormal)
          [GeometryIndices.mk TRIANGLES indices]
          (BoundingSphere.fromEllipsoid ellipsoid)
          (defaultValue (Options.modelMatrix options) (Matrix4.clone Matrix4.IDENTITY))
          (Options.pickData options)).

(** * Closed forms

    What the loops compute, written without state. *)

(** ** The interior-point loop shared by edges and rows

    Both [addEdgePositions] and the rows of [addFaceTriangles] run
    [for (i = 1; i < P; ++i) { buf[i] = positions.length; positions.push(f i) }]
    on a buffer whose ends are already written. *)

Definition fill_body (f : Z -> Cartesian3.t) (i : Z)
    (s : JsArray.t nat * list Cartesian3.t) : JsArray.t nat * list Cartesian3.t :=
  let '(buf, positions) := s in
  (JsArray.set buf i (Some (List.length positions)), positions ++ [f i]).

Definition fresh_indices (base n : nat) : JsArray.t nat :=
  map (fun k => Some (base + k)%nat) (seq 0 n).


(** ** Edges *)

(** The point at step [i] of [P] on the segment from [a] to [b]. *)
Definition edge_point (a b : Cartesian3.t) (P i : Z) : Cartesian3.t :=
  Cartesian3.add a
    (Cartesian3.multiplyByScalar (Cartesian3.subtract b a) (IZR i / IZR P)).

Definition edge_points (a b : Cartesian3.t) (P : Z) : list Cartesian3.t :=
  map (edge_point a b P) (zrange 1 P).

(** The index list of an edge whose interior points start at [base]. *)
Definition edge_list (i0 i1 base : nat) (P : Z) : JsArray.t nat :=
  Some i0 :: fresh_indices base (Z.to_nat (P - 1)) ++ [Some i1].

(** ** Faces *)

(** The grid point of column [i] and row [j] in the frame [origin], [x], [y]. *)
Definition grid_point (origin x y : Cartesian3.t) (P i j : Z) : Cartesian3.t :=
  Cartesian3.add
    (Cartesian3.add origin (Cartesian3.multiplyByScalar x (IZR i / IZR P)))
    (Cartesian3.multiplyByScalar y (IZR j / IZR P)).

Definition row_points (origin x y : Cartesian3.t) (P j : Z) : list Cartesian3.t :=
  map (fun i => grid_point origin x y P i j) (zrange 1 P).

Definition face_points (origin x y : Cartesian3.t) (P : Z) : list Cartesian3.t :=
  flat_map (row_points origin x y P) (zrange 1 P).

(** Row [j] of the index grid of a face, [0 < j < P], when the interior
    points of the face start at [base]. *)
Definition interior_row (L R : JsArray.t nat) (P : Z) (base : nat) (j : Z)
    : JsArray.t nat :=
  JsArray.get L j
  :: fresh_indices (base + Z.to_nat ((j - 1) * (P - 1))) (Z.to_nat (P - 1))
  ++ [JsArray.get R j].

(** Row [j] of the index grid, [0 <= j <= P]: the bottom edge, the interior
    rows, the top edge. *)
Definition grid_row (L B R T : JsArray.t nat) (P : Z) (base : nat) (j : Z)
    : JsArray.t nat :=
  if (j =? 0)%Z then B
  else if (j =? P)%Z then T
  else interior_row L R P base j.

(** The two triangles of the cell at column [k] between two rows. *)
Definition quad (bottomRow topRow : JsArray.t nat) (k : Z) : JsArray.t nat :=
  [JsArray.get bottomRow k; JsArray.get bottomRow (k + 1); JsArray.get topRow (k + 1);
   JsArray.get bottomRow k; JsArray.get topRow (k + 1); JsArray.get topRow k].

Definition row_triangles (bottomRow topRow : JsArray.t nat) (P : Z) : JsArray.t nat :=
  flat_map (quad bottomRow topRow) (zrange 0 P).

Definition face_triangles (L B R T : JsArray.t nat) (P : Z) (base : nat)
    : JsArray.t nat :=
  flat_map (fun j => row_triangles (grid_row L B R T P base (j - 1))
                                   (grid_row L B R T P base j) P)
           (zrange 1 (P + 1)).

(** ** The loops of addFaceTriangles, named

    [emit_body] is the body of the loop over [k], [face_row_step] the body
    of the loop over [j]; [addFaceTriangles_unfold] below checks that they
    are the loops of [addFaceTriangles]. *)

Definition emit_body (bottomIndices topIndices : JsArray.t nat) (k : Z)
    (indices : JsArray.t nat) : JsArray.t nat :=
  let indices := JsArray.push indices (JsArray.get bottomIndices k) in
  let indices := JsArray.push indices (JsArray.get bottomIndices (k + 1)) in
  let indices := JsArray.push indices (JsArray.get topIndices (k + 1)) in
  let indices := JsArray.push indices (JsArray.get bottomIndices k) in
  let indices := JsArray.push indices (JsArray.get topIndices (k + 1)) in
  JsArray.push indices (JsArray.get topIndices k).

Definition face_row_step (L B R T : JsArray.t nat) (P : Z)
    (origin x y : Cartesian3.t) (j : Z) (s : Face.state) : Face.state :=
  let s :=
    if negb (j =? P)%Z then
      let s :=
        if negb (j =? 1)%Z then
          Face.mk (JsArray.slice0 (Face.topIndicesBuffer s)) (Face.topIndicesBuffer s)
                  RefBottomIndicesBuffer
                  (Face.topIndices s) (Face.positions s) (Face.indices s)
        else s in
      let top := JsArray.set (Face.topIndicesBuffer s) 0 (JsArray.get L j) in
      let top := JsArray.set top P (JsArray.get R j) in
      let '(top, positions) :=
        for_range 1 P (fill_body (fun i => grid_point origin x y P i j))
          (top, Face.positions s) in
      Face.mk (Face.bottomIndicesBuffer s) top (Face.bottomIndices s)
              (Face.topIndices s) positions (Face.indices s)
    else
      let s :=
        if negb (j =? 1)%Z then
          Face.mk (Face.bottomIndicesBuffer s) (Face.topIndicesBuffer s)
                  RefTopIndicesBuffer
                  (Face.topIndices s) (Face.positions s) (Face.indices s)
        else s in
      Face.mk (Face.bottomIndicesBuffer s) (Face.topIndicesBuffer s)
              (Face.bottomIndices s)
              RefTopLeftToRight (Face.positions s) (Face.indices s) in
  let indices :=
    for_range 0 P
      (emit_body (Face.deref B T s (Face.bottomIndices s))
                 (Face.deref B T s (Face.topIndices s)))
      (Face.indices s) in
  Face.mk (Face.bottomIndicesBuffer s) (Face.topIndicesBuffer s)
          (Face.bottomIndices s) (Face.topIndices s) (Face.positions s) indices.

Definition face_init (positions : list Cartesian3.t) (indices : JsArray.t nat)
    : Face.state :=
  Face.mk [] [] RefBottomLeftToRight RefTopIndicesBuffer positions indices.

(** The state of [addFaceTriangles] once the interior rows [1 .. m] are
    done, for a face entered with [positions0] and [indices0]. *)
Definition rows_done (L B R T : JsArray.t nat) (P : Z)
    (origin x y : Cartesian3.t) (positions0 : list Cartesian3.t)
    (indices0 : JsArray.t nat) (m : Z) (s : Face.state) : Prop :=
  let base := List.length positions0 in
  Face.topIndicesBuffer s = interior_row L R P base m
  /\ Face.topIndices s = RefTopIndicesBuffer
  /\ Face.positions s
     = positions0 ++ flat_map (row_points origin x y P) (zrange 1 (m + 1))
  /\ Face.indices s
     = indices0
       ++ flat_map (fun j => row_triangles (grid_row L B R T P base (j - 1))
                                           (grid_row L B R T P base j) P)
                   (zrange 1 (m + 1)).

(** ** The mesh *)

Definition corners : list Cartesian3.t :=
  [Cartesian3.mk (-1) 0 (-1); Cartesian3.mk 0 (-1) (-1);
   Cartesian3.mk 1 0 (-1); Cartesian3.mk 0 1 (-1);
   Cartesian3.mk (-1) 0 1; Cartesian3.mk 0 (-1) 1;
   Cartesian3.mk 1 0 1; Cartesian3.mk 0 1 1].

Definition corner (i : nat) : Cartesian3.t := nth i corners Cartesian3.ZERO.

(** The twelve edges in the order the constructor builds them, numbered
    [0 .. 11]: [edge0to1], [edge1to2], [edge2to3], [edge3to0], [edge4to5],
    [edge5to6], [edge6to7], [edge7to4], [edge0to4], [edge1to5], [edge2to6],
    [edge3to7]. *)
Definition cube_edges : list (nat * nat) :=
  [(0, 1); (1, 2); (2, 3); (3, 0);
   (4, 5); (5, 6); (6, 7); (7, 4);
   (0, 4); (1, 5); (2, 6); (3, 7)]%nat.

Definition cube_edge (e : nat) : nat * nat := nth e cube_edges (0, 0)%nat.

(** Interior points per edge. *)
Definition interior (P : Z) : nat := Z.to_nat (P - 1).

(** Index of the first interior point of edge [e]. *)
Definition edge_base (P : Z) (e : nat) : nat := (8 + e * interior P)%nat.

(** The index list the constructor holds for edge [e]. *)
Definition mesh_edge (P : Z) (e : nat) : JsArray.t nat :=
  edge_list (fst (cube_edge e)) (snd (cube_edge e)) (edge_base P e) P.

(** A side of a face: an edge, passed as it is or reversed. *)
Definition side : Type := (nat * bool)%type.

Definition side_list (P : Z) (s : side) : JsArray.t nat :=
  if snd s then JsArray.reverse (JsArray.slice0 (mesh_edge P (fst s)))
  else mesh_edge P (fst s).

Definition side_first (s : side) : nat :=
  if snd s then snd (cube_edge (fst s)) else fst (cube_edge (fst s)).

Definition side_last (s : side) : nat :=
  if snd s then fst (cube_edge (fst s)) else snd (cube_edge (fst s)).

(** The six calls of [addFaceTriangles], numbered [0 .. 5], each with its
    left, bottom, right and top side. *)
Definition cube_faces : list (side * side * side * side) :=
  [((8, false), (0, false), (9, false), (4, false));
   ((9, false), (1, false), (10, false), (5, false));
   ((10, false), (2, false), (11, false), (6, false));
   ((11, false), (3, false), (8, false), (7, false));
   ((7, true), (4, false), (5, false), (6, true));
   ((1, false), (0, true), (3, true), (2, false))]%nat.

Definition cube_face (f : nat) : side * side * side * side :=
  nth f cube_faces ((0, false), (0, false), (0, false), (0, false))%nat.

Definition face_left (f : nat) : side := fst (fst (fst (cube_face f))).
Definition face_bottom (f : nat) : side := snd (fst (fst (cube_face f))).
Definition face_right (f : nat) : side := snd (fst (cube_face f)).
Definition face_top (f : nat) : side := snd (cube_face f).

(** Index of the first interior point of face [f]. *)
Definition face_base (P : Z) (f : nat) : nat :=
  (8 + 12 * interior P + f * (interior P * interior P))%nat.

Definition face_origin (f : nat) : Cartesian3.t := corner (side_first (face_bottom f)).
Definition face_x (f : nat) : Cartesian3.t :=
  Cartesian3.subtract (corner (side_last (face_bottom f))) (face_origin f).
Definition face_y (f : nat) : Cartesian3.t :=
  Cartesian3.subtract (corner (side_first (face_top f))) (face_origin f).

Definition mesh_face_points (P : Z) (f : nat) : list Cartesian3.t :=
  face_points (face_origin f) (face_x f) (face_y f) P.

Definition mesh_face_triangles (P : Z) (f : nat) : JsArray.t nat :=
  face_triangles (side_list P (face_left f)) (side_list P (face_bottom f))
                 (side_list P (face_right f)) (side_list P (face_top f))
                 P (face_base P f).

Definition mesh_edge_points (P : Z) (e : nat) : list Cartesian3.t :=
  edge_points (corner (fst (cube_edge e))) (corner (snd (cube_edge e))) P.

Definition mesh_positions (P : Z) : list Cartesian3.t :=
  corners ++ flat_map (mesh_edge_points P) (seq 0 12)
          ++ flat_map (mesh_face_points P) (seq 0 6).

Definition mesh_indices (P : Z) : JsArray.t nat :=
  flat_map (mesh_face_triangles P) (seq 0 6).

(** ** The attribute passes, named

    [buildAttributes] is lines 129-222 of the constructor as a function of
    the finished cube mesh; [EllipsoidGeometry_unfold] below checks that it
    is what the constructor runs. It returns the attributes together with
    [positions] as the passes leave it. *)

Definition buildAttributes (ellipsoid : Ellipsoid.t) (vertexFormat : VertexFormat.t)
    (positions : list Cartesian3.t) : list Cartesian3.t * Attributes.t :=
  let '(positions, position) :=
    if VertexFormat.position vertexFormat then
      let '(positions, flattenedPositions) := expandPositions ellipsoid positions in
      (positions, Some (GeometryAttribute.mk FLOAT 3 flattenedPositions))
    else (positions, None) in
  let st :=
    if VertexFormat.st vertexFormat then
      Some (GeometryAttribute.mk FLOAT 2 (computeTexCoords ellipsoid positions))
    else None in
  let '(normal, tangent, binormal) :=
    if VertexFormat.normal vertexFormat || VertexFormat.tangent vertexFormat
       || VertexFormat.binormal vertexFormat then
      let '(normals, tangents, binormals) := computeFrames ellipsoid positions in
      (if VertexFormat.normal vertexFormat
       then Some (GeometryAttribute.mk FLOAT 3 normals) else None,
       if VertexFormat.tangent vertexFormat
       then Some (GeometryAttribute.mk FLOAT 3 tangents) else None,
       if VertexFormat.binormal vertexFormat
       then Some (GeometryAttribute.mk FLOAT 3 binormals) else None)
    else (None, None, None) in
  (positions, Attributes.mk position st normal tangent binormal).

(** The options after [defaultValue]. *)
Definition ellipsoid_of (options : option Options.t) : Ellipsoid.t :=
  defaultValue (Options.ellipsoid (defaultValue options Options.EMPTY_OBJECT))
               Ellipsoid.UNIT_SPHERE.

Definition partitions_of (options : option Options.t) : Z :=
  defaultValue (Options.numberOfPartitions (defaultValue options Options.EMPTY_OBJECT))
               32%Z.

Definition format_of (options : option Options.t) : VertexFormat.t :=
  defaultValue (Options.vertexFormat (defaultValue options Options.EMPTY_OBJECT))
               VertexFormat.DEFAULT.

(** The object the constructor builds once the mesh exists. *)
Definition geometry_of (options : option Options.t) (positions : list Cartesian3.t)
    (indices : JsArray.t nat) : Geometry.t :=
  Geometry.mk
    (snd (buildAttributes (ellipsoid_of options) (format_of options) positions))
    [GeometryIndices.mk TRIANGLES indices]
    (BoundingSphere.fromEllipsoid (ellipsoid_of options))
    (defaultValue (Options.modelMatrix (defaultValue options Options.EMPTY_OBJECT))
                  (Matrix4.clone Matrix4.IDENTITY))
    (Options.pickData (defaultValue options Options.EMPTY_OBJECT)).

(** ** Well-formed sides *)

(** An index read from an array is valid below [bound] when it is a number
    smaller than [bound]. *)
Definition valid_index (bound : nat) (v : option nat) : Prop :=
  exists n, v = Some n /\ (n < bound)%nat.

(** A bounding edge list of a face: [P + 1] indices of [positions]. *)
Definition well_formed_side (positions : list Cartesian3.t) (P : Z)
    (e : JsArray.t nat) : Prop :=
  JsArray.length e = (P + 1)%Z /\ Forall (valid_index (List.length positions)) e.

(** A planar square with the midpoints of its sides, and its four sides as
    edge lists for [P = 2]; used to run the face tessellator on. *)
Definition square_positions : list Cartesian3.t :=
  [Cartesian3.mk 0 0 0; Cartesian3.mk 2 0 0; Cartesian3.mk 2 2 0; Cartesian3.mk 0 2 0;
   Cartesian3.mk 1 0 0; Cartesian3.mk 2 1 0; Cartesian3.mk 1 2 0; Cartesian3.mk 0 1 0].

Definition square_left : JsArray.t nat := [Some 0; Some 7; Some 3]%nat.
Definition square_bottom : JsArray.t nat := [Some 0; Some 4; Some 1]%nat.
Definition square_right : JsArray.t nat := [Some 1; Some 5; Some 2]%nat.
Definition square_top : JsArray.t nat := [Some 3; Some 6; Some 2]%nat.

(** ** Triangles of a quad given by its four corner indices *)



(** ** Vectors *)

(** The squared length of a vector. *)
Definition norm2 (c : Cartesian3.t) : R :=
  Cartesian3.x c * Cartesian3.x c + Cartesian3.y c * Cartesian3.y c
  + Cartesian3.z c * Cartesian3.z c.

(** ** Reading the attribute buffers *)

(** The three numbers a flat buffer holds for vertex [i]. *)
Definition vertex3 (values : list R) (i : nat) : list R :=
  firstn 3 (skipn (3 * i) values).

(** [positions] as the position pass leaves it: normalized and scaled in
    place when the position attribute is requested, untouched otherwise. *)
Definition passed_positions (ellipsoid : Ellipsoid.t) (vertexFormat : VertexFormat.t)
    (positions : list Cartesian3.t) : list Cartesian3.t :=
  if VertexFormat.position vertexFormat
  then fst (expandPositions ellipsoid positions)
  else positions.

(** ** Where the points lie *)

(** The point at parameter [t] of the segment from [a] to [b], and the
    point at parameters [s], [u] of the frame [origin], [x], [y]. *)
Definition segment_point (a b : Cartesian3.t) (t : R) : Cartesian3.t :=
  Cartesian3.add a (Cartesian3.multiplyByScalar (Cartesian3.subtract b a) t).

Definition frame_point (origin x y : Cartesian3.t) (s u : R) : Cartesian3.t :=
  Cartesian3.add (Cartesian3.add origin (Cartesian3.multiplyByScalar x s))
                 (Cartesian3.multiplyByScalar y u).

(** [p] lies strictly inside cube edge [e], strictly inside face [f]. *)
Definition on_edge (e : nat) (p : Cartesian3.t) : Prop :=
  exists t, 0 < t < 1
    /\ p = segment_point (corner (fst (cube_edge e))) (corner (snd (cube_edge e))) t.

Definition on_face (f : nat) (p : Cartesian3.t) : Prop :=
  exists s u, 0 < s < 1 /\ 0 < u < 1
    /\ p = frame_point (face_origin f) (face_x f) (face_y f) s u.

(** ** Adjacency *)

Definition face_sides (f : nat) : list side :=
  [face_left f; face_bottom f; face_right f; face_top f].

(** The faces that have edge [e] as one of their four sides. *)
Definition faces_on_edge (e : nat) : list nat :=
  filter (fun f => existsb (fun s => Nat.eqb (fst s) e) (face_sides f)) (seq 0 6).

(** * Further properties of the constructor: definitions *)

(** The number of vertices for [P] partitions. *)
Definition vertex_count (P : Z) : Z :=
  (8 + 12 * (P - 1) + 6 * (P - 1) ^ 2)%Z.

(** An attribute is emitted exactly when it is requested, as a FLOAT buffer
    of [components] numbers for each of [n] vertices. *)
Definition attribute_shape (requested : bool) (a : option GeometryAttribute.t)
    (components n : Z) : Prop :=
  if requested
  then exists values : list R,
         a = Some (GeometryAttribute.mk FLOAT components values)
         /\ Z.of_nat (List.length values) = (components * n)%Z
  else a = None.

(** The dot product and the triple product [a . (b x c)], six times the
    signed volume of the tetrahedron on the origin, [a], [b] and [c]. *)
Definition dot (a b : Cartesian3.t) : R :=
  Cartesian3.x a * Cartesian3.x b + Cartesian3.y a * Cartesian3.y b
  + Cartesian3.z a * Cartesian3.z b.

Definition triple (a b c : Cartesian3.t) : R := dot a (Cartesian3.cross b c).

(** The entries of a flat index buffer, three at a time. *)
Fixpoint chunk3 {A : Type} (l : list A) : list (A * A * A) :=
  match l with
  | a :: b :: c :: rest => (a, b, c) :: chunk3 rest
  | _ => []
  end.

(** The two numbers a flat buffer holds for vertex [i]. *)
Definition vertex2 (values : list R) (i : nat) : list R :=
  firstn 2 (skipn (2 * i) values).

(** The two triangles of the cell at column [k] between two rows, as
    triples. *)
Definition quad_triples (bottomRow topRow : JsArray.t nat) (k : Z)
    : list (option nat * option nat * option nat) :=
  [(JsArray.get bottomRow k, JsArray.get bottomRow (k + 1), JsArray.get topRow (k + 1));
   (JsArray.get bottomRow k, JsArray.get topRow (k + 1), JsArray.get topRow k)].

(** A triangle of the index buffer whose three entries are indices of
    [positions] holding points with the triple product [v]. *)
Definition triangle_volume (positions : list Cartesian3.t)
    (tri : option nat * option nat * option nat) (v : R) : Prop :=
  exists (a b c : nat) (pa pb pc : Cartesian3.t),
    tri = (Some a, Some b, Some c)
    /\ nth_error positions a = Some pa
    /\ nth_error positions b = Some pb
    /\ nth_error positions c = Some pc
    /\ triple pa pb pc = v.

(** The gauge of the initial solid, the prism [|x| + |y| <= 1], [|z| <= 1]:
    it is [1] on the surface and scales with the vector. *)
Definition gauge (c : Cartesian3.t) : R :=
  Rmax (Rabs (Cartesian3.x c) + Rabs (Cartesian3.y c)) (Rabs (Cartesian3.z c)).

(** * The position pass on IEEE doubles

    The embedding above idealises coordinates as real numbers. The numbers
    the constructor computes with are IEEE 754 binary64 floats, and a
    normalized vector is at distance 1 from the origin only up to rounding.
    For one partition [positions] holds the eight corners and nothing else,
    and their coordinates are exact in binary64; the position pass
    (lines 140-148) is embedded a second time, on binary64 floats, so that
    the numbers it emits for them can be evaluated. *)

Module Binary64.

Module Cartesian3.

(** Modelled from the spec: [Cartesian3.js] is not among the sources. A
    vector is its three components. *)
Record t : Type := mk { x : float; y : float; z : float }.

(** Modelled from the spec: the Euclidean length. *)
Definition magnitude (c : t) : float :=
  PrimFloat.sqrt (x c * x c + y c * y c + z c * z c)%float.

(** Modelled from the spec: the vector divided by its length. *)
Definition normalize (c : t) : t :=
  let m := magnitude c in mk (x c / m)%float (y c / m)%float (z c / m)%float.

(** Modelled from the spec: component-wise product. *)
Definition multiplyComponents (l r : t) : t :=
  mk (x l * x r)%float (y l * y r)%float (z l * z r)%float.

End Cartesian3.

(** Lines 86-93: the eight corners. *)
Definition corners : list Cartesian3.t :=
  [Cartesian3.mk (-1) 0 (-1); Cartesian3.mk 0 (-1) (-1);
   Cartesian3.mk 1 0 (-1); Cartesian3.mk 0 1 (-1);
   Cartesian3.mk (-1) 0 1; Cartesian3.mk 0 (-1) 1;
   Cartesian3.mk 1 0 1; Cartesian3.mk 0 1 1]%float.

Definition flatten3 (c : Cartesian3.t) : list float :=
  [Cartesian3.x c; Cartesian3.y c; Cartesian3.z c].

(** Lines 140-148, as [expandPositions] above. *)
Definition expandPositions (radii : Cartesian3.t) (positions : list Cartesian3.t)
    : list Cartesian3.t * list float :=
  let positions :=
    map (fun item =>
           let item := Cartesian3.normalize item in
           Cartesian3.multiplyComponents item radii)
        positions in
  (positions, flat_map flatten3 positions).


End Binary64.

(** * Workers/decodeDraco.js

    The worker drives the third-party Draco decoder. What the decoder
    answers is not computed here: a decoded mesh and its attributes are
    records of the values their getters return, and the two calls that read
    the compressed bytes are functions given with the [Codec]. Objects made
    with [new draco.X()] live on the decoder module's heap until
    [draco.destroy]; the model keeps the list of the live ones. Calls into
    the decoder are taken to return; the only exceptions are the two
    [RuntimeError]s the worker throws itself.

    [IndexDatatype.createTypedArray] and [ComponentDatatype.fromTypedArray]
    are defined outside the worker's file; they are parameters of the
    functions that call them. *)

Module Draco.

(** The attribute types named by [attributesToSkip]. *)
Inductive AttributeType : Type := POSITION | NORMAL | COLOR | TEX_COORD.

(** The values of [GetEncodedGeometryType]. *)
Inductive GeometryType : Type := INVALID_GEOMETRY_TYPE | POINT_CLOUD | TRIANGULAR_MESH.

(** The classes the worker instantiates with [new draco.X()]. *)
Inductive Kind : Type :=
| Decoder
| DecoderBuffer
| Mesh
| DracoInt32Array
| DracoFloat32Array
| AttributeQuantizationTransform
| AttributeOctahedronTransform.

(** The heap of the decoder module: the next fresh address and the live
    objects in allocation order. *)
Record Heap : Type := mkHeap { next : nat; live : list (nat * Kind) }.

(** [new draco.K()] *)
Definition alloc (k : Kind) (h : Heap) : nat * Heap :=
  (next h, mkHeap (S (next h)) (live h ++ [(next h, k)])).

(** [draco.destroy(object)] *)
Definition destroy (address : nat) (h : Heap) : Heap :=
  mkHeap (next h) (filter (fun o => negb (Nat.eqb (fst o) address)) (live h)).

(** What an [AttributeQuantizationTransform] holds once [InitFromAttribute]
    has returned [true]. *)
Record QuantizationTransform : Type := mkQuantizationTransform {
  q_quantization_bits : Z;
  q_min_value : Z -> R;
  q_range : R
}.

(** What an [AttributeOctahedronTransform] holds once [InitFromAttribute]
    has returned [true]. *)
Record OctahedronTransform : Type := mkOctahedronTransform {
  o_quantization_bits : Z
}.

(** A decoded attribute, by what its getters return. [int32_values] and
    [float_values] are the entries [GetAttributeInt32ForAllPoints] and
    [GetAttributeFloatForAllPoints] put in the array they fill; a transform
    is [Some] when its [InitFromAttribute] returns [true]. *)
Record Attribute : Type := mkAttribute {
  num_components : nat;
  data_type : Z;
  int32_values : Z -> Z;
  float_values : Z -> R;
  byte_offset : Z;
  byte_stride : Z;
  normalized : bool;
  quantization_transform : option QuantizationTransform;
  octahedron_transform : option OctahedronTransform
}.

(** A decoded mesh, by what its getters return. [ptr] is the address the
    wrapper object holds; [face i] is what [GetFaceFromMesh] puts in
    [faceIndices] for face [i]. *)
Record MeshData : Type := mkMesh {
  ptr : Z;
  num_points : nat;
  num_faces : nat;
  face : Z -> Z * Z * Z;
  attribute_by_unique_id : Z -> Attribute
}.

Record Status : Type := mkStatus { ok : bool; error_msg : string }.

(** The two calls that read the compressed bytes, as functions of the
    buffer (the array and the byte length it was initialised with) and, for
    decoding, of the [SkipAttributeTransform] calls the decoder has
    received. *)
Record Codec : Type := mkCodec {
  GetEncodedGeometryType : list Z -> Z -> GeometryType;
  DecodeBufferToMesh : list AttributeType -> list Z -> Z -> Status * MeshData
}.

End Draco.

(** ** Typed arrays *)

(** A number read from a Draco array: an integer from a [DracoInt32Array]
    or a real from a [DracoFloat32Array]. *)
Inductive JsNumber : Type :=
| IntValue (z : Z)
| FloatValue (r : R).

Inductive TypedArray : Type :=
| Uint16Array (elements : list Z)
| Uint32Array (elements : list Z)
| Float32Array (elements : list R).

(** The integer part of a real, towards zero. *)
Definition truncate (r : R) : Z :=
  if Rle_dec 0 r then Int_part r else (- Int_part (- r))%Z.

(** The conversion of a stored number in an array of unsigned integers of
    [width] bits: the integer part, modulo [2^width]. *)
Definition toUint (width : Z) (v : JsNumber) : Z :=
  match v with
  | IntValue z => (z mod 2 ^ width)%Z
  | FloatValue r => (truncate r mod 2 ^ width)%Z
  end.

(** The conversion of a stored number in a [Float32Array]; as for the
    coordinates, rounding is not modelled. *)
Definition toFloat (v : JsNumber) : R :=
  match v with
  | IntValue z => IZR z
  | FloatValue r => r
  end.

Fixpoint replace_nth {A : Type} (l : list A) (n : nat) (x : A) : list A :=
  match l, n with
  | [], _ => []
  | _ :: l', O => x :: l'
  | a :: l', S n' => a :: replace_nth l' n' x
  end.

(** [l[i] = x] on the elements of a typed array: the length is fixed, a
    store outside the array is ignored. *)
Definition set_element {A : Type} (l : list A) (i : Z) (x : A) : list A :=
  if (i <? 0)%Z then l else replace_nth l (Z.to_nat i) x.

(** [array[i] = v] *)
Definition store (a : TypedArray) (i : Z) (v : JsNumber) : TypedArray :=
  match a with
  | Uint16Array l => Uint16Array (set_element l i (toUint 16 v))
  | Uint32Array l => Uint32Array (set_element l i (toUint 32 v))
  | Float32Array l => Float32Array (set_element l i (toFloat v))
  end.

(** [array.length] *)
Definition typed_length (a : TypedArray) : nat :=
  match a with
  | Uint16Array l => List.length l
  | Uint32Array l => List.length l
  | Float32Array l => List.length l
  end.

(** ** The worker's results and state *)

Record IndexArray : Type := mkIndexArray {
  typedArray : TypedArray;
  numberOfIndices : nat
}.

Record Quantization : Type := mkQuantization {
  quantizationBits : Z;
  minValues : option (JsArray.t R);
  range : option R;
  octEncoded : bool
}.

Record AttributeMetadata (Datatype : Type) : Type := mkMetadata {
  componentsPerAttribute : nat;
  byteOffset : Z;
  byteStride : Z;
  normalized : bool;
  componentDatatype : Datatype;
  quantization : option Quantization
}.

Arguments mkMetadata {Datatype}.
Arguments componentsPerAttribute {Datatype}.
Arguments byteOffset {Datatype}.
Arguments byteStride {Datatype}.
Arguments normalized {Datatype}.
Arguments componentDatatype {Datatype}.
Arguments quantization {Datatype}.

Record DecodedAttribute (Datatype : Type) : Type := mkDecoded {
  array : TypedArray;
  data : AttributeMetadata Datatype
}.

Arguments mkDecoded {Datatype}.
Arguments array {Datatype}.
Arguments data {Datatype}.

(** [decoded.data.quantization = q] *)
Definition set_quantization {Datatype : Type} (decoded : DecodedAttribute Datatype)
    (q : Quantization) : DecodedAttribute Datatype :=
  let d := data decoded in
  mkDecoded (array decoded)
    (mkMetadata (componentsPerAttribute d) (byteOffset d) (byteStride d)
                (normalized d) (componentDatatype d) (Some q)).

Record Parameters : Type := mkParameters {
  dequantizeInShader : bool;
  bufferView_byteLength : Z;
  parameters_array : list Z;
  compressedAttributes : list (string * Z)
}.

Record Decoded (Datatype : Type) : Type := mkResult {
  indexArray : IndexArray;
  attributeData : list (string * DecodedAttribute Datatype)
}.

Arguments mkResult {Datatype}.
Arguments indexArray {Datatype}.
Arguments attributeData {Datatype}.

(** The module-level state: [dracoDecoder], undefined or the address of the
    decoder with the [SkipAttributeTransform] calls it has received, and the
    heap. *)
Record Worker : Type := mkWorker {
  dracoDecoder : option (nat * list Draco.AttributeType);
  heap : Draco.Heap
}.

Inductive Outcome (Datatype : Type) : Type :=
| Returned (result : Decoded Datatype)
| RuntimeError (message : string).

Arguments Returned {Datatype}.
Arguments RuntimeError {Datatype}.

Definition attributesToSkip : list Draco.AttributeType :=
  [Draco.POSITION; Draco.NORMAL; Draco.COLOR; Draco.TEX_COORD].

Section decodeDraco.

Variable Datatype : Type.
Variable createTypedArray : nat -> nat -> TypedArray.
Variable fromTypedArray : TypedArray -> Datatype.
Variable draco : Draco.Codec.

(** ** decodeIndexArray *)

Definition decodeIndexArray (dracoGeometry : Draco.MeshData) (heap : Draco.Heap)
    : Draco.Heap * IndexArray :=
  let numPoints := Draco.num_points dracoGeometry in
  let numFaces := Draco.num_faces dracoGeometry in
  let '(faceIndices, heap) := Draco.alloc Draco.DracoInt32Array heap in
  let numIndices := (numFaces * 3)%nat in
  let indexArray := createTypedArray numPoints numIndices in
  let offset := 0%Z in
  let '(indexArray, offset) :=
    for_range 0 (Z.of_nat numFaces)
      (fun i '(indexArray, offset) =>
         let '(v0, v1, v2) := Draco.face dracoGeometry i in
         let indexArray := store indexArray (offset + 0) (IntValue v0) in
         let indexArray := store indexArray (offset + 1) (IntValue v1) in
         let indexArray := store indexArray (offset + 2) (IntValue v2) in
         (indexArray, (offset + 3)%Z))
      (indexArray, offset) in
  let heap := Draco.destroy faceIndices heap in
  (heap, mkIndexArray indexArray numIndices).

(** ** decodeAttributeData *)

(** The body of the loop over the own properties of [compressedAttributes],
    for one property. *)
Definition decodeAttribute (dracoGeometry : Draco.MeshData) (compressedAttribute : Z)
    (heap : Draco.Heap) : Draco.Heap * DecodedAttribute Datatype :=
  let numPoints := Draco.num_points dracoGeometry in
  let attribute := Draco.attribute_by_unique_id dracoGeometry compressedAttribute in
  let numComponents := Draco.num_components attribute in
  let '(attributeData, GetValue, vertexArray, heap) :=
    if (Draco.data_type attribute =? 4)%Z then
      let '(attributeData, heap) := Draco.alloc Draco.DracoInt32Array heap in
      (attributeData, fun i => IntValue (Draco.int32_values attribute i),
       Uint16Array (repeat 0%Z (numPoints * numComponents)), heap)
    else
      let '(attributeData, heap) := Draco.alloc Draco.DracoFloat32Array heap in
      (attributeData, fun i => FloatValue (Draco.float_values attribute i),
       Float32Array (repeat 0 (numPoints * numComponents)), heap) in
  let vertexArrayLength := typed_length vertexArray in
  let vertexArray :=
    for_range 0 (Z.of_nat vertexArrayLength)
      (fun i vertexArray => store vertexArray i (GetValue i)) vertexArray in
  let heap := Draco.destroy attributeData heap in
  let decoded :=
    mkDecoded vertexArray
      (mkMetadata numComponents (Draco.byte_offset attribute)
                  (Draco.byte_stride attribute) (Draco.normalized attribute)
                  (fromTypedArray vertexArray) None) in
  let '(transform, heap) := Draco.alloc Draco.AttributeQuantizationTransform heap in
  let decoded :=
    match Draco.quantization_transform attribute with
    | Some t =>
        let minValues :=
          for_range 0 (Z.of_nat numComponents)
            (fun i minValues => JsArray.set minValues i (Some (Draco.q_min_value t i)))
            (repeat None numComponents) in
        set_quantization decoded
          (mkQuantization (Draco.q_quantization_bits t) (Some minValues)
                          (Some (Draco.q_range t)) false)
    | None => decoded
    end in
  let heap := Draco.destroy transform heap in
  let '(transform, heap) := Draco.alloc Draco.AttributeOctahedronTransform heap in
  let decoded :=
    match Draco.octahedron_transform attribute with
    | Some t =>
        set_quantization decoded
          (mkQuantization (Draco.o_quantization_bits t) None None true)
    | None => decoded
    end in
  let heap := Draco.destroy transform heap in
  (heap, decoded).

(** [compressedAttributes] lists the own properties of the object in the
    order [for ... in] visits them; the result lists the properties of
    [decodedAttributeData] in the order they were set. *)
Definition decodeAttributeData (dracoGeometry : Draco.MeshData)
    (compressedAttributes : list (string * Z)) (heap : Draco.Heap)
    : Draco.Heap * list (string * DecodedAttribute Datatype) :=
  fold_left
    (fun '(heap, decodedAttributeData) '(attributeName, compressedAttribute) =>
       let '(heap, decoded) := decodeAttribute dracoGeometry compressedAttribute heap in
       (heap, decodedAttributeData ++ [(attributeName, decoded)]))
    compressedAttributes (heap, []).

(** ** decodeDracoPrimitive *)

Definition decodeDracoPrimitive (parameters : Parameters) (w : Worker)
    : Worker * Outcome Datatype :=
  let '(dracoDecoder, heap) :=
    match dracoDecoder w with
    | Some d => (d, heap w)
    | None =>
        let '(address, heap) := Draco.alloc Draco.Decoder (heap w) in
        ((address, []), heap)
    end in
  let dracoDecoder :=
    if dequantizeInShader parameters then
      fold_left (fun d t => (fst d, snd d ++ [t])) attributesToSkip dracoDecoder
    else dracoDecoder in
  let '(buffer, heap) := Draco.alloc Draco.DecoderBuffer heap in
  let geometryType :=
    Draco.GetEncodedGeometryType draco (parameters_array parameters)
      (bufferView_byteLength parameters) in
  match geometryType with
  | Draco.TRIANGULAR_MESH =>
      let '(mesh, heap) := Draco.alloc Draco.Mesh heap in
      let '(decodingStatus, dracoGeometry) :=
        Draco.DecodeBufferToMesh draco (snd dracoDecoder) (parameters_array parameters)
          (bufferView_byteLength parameters) in
      if negb (Draco.ok decodingStatus) || (Draco.ptr dracoGeometry =? 0)%Z then
        (mkWorker (Some dracoDecoder) heap,
         RuntimeError ("Error decoding draco mesh geometry: "
                       ++ Draco.error_msg decodingStatus))
      else
        let heap := Draco.destroy buffer heap in
        let '(heap, indexArray) := decodeIndexArray dracoGeometry heap in
        let '(heap, attributeData) :=
          decodeAttributeData dracoGeometry (compressedAttributes parameters) heap in
        let heap := Draco.destroy mesh heap in
        (mkWorker (Some dracoDecoder) heap, Returned (mkResult indexArray attributeData))
  | _ =>
      (mkWorker (Some dracoDecoder) heap,
       RuntimeError "Unsupported draco mesh geometry type.")
  end.

End decodeDraco.

Arguments decodeAttribute {Datatype}.
Arguments decodeAttributeData {Datatype}.
Arguments decodeDracoPrimitive {Datatype}.

(** ** Notions the properties of the worker are stated with *)

(** Every live object sits below the next fresh address. *)
Definition well_formed_heap (h : Draco.Heap) : Prop :=
  Forall (fun o => (fst o < Draco.next h)%nat) (Draco.live h).

(** The elements a typed array of the kind of [a] holds after the numbers
    [values] are stored in it one after the other. *)
Definition filled (a : TypedArray) (values : list JsNumber) : TypedArray :=
  match a with
  | Uint16Array _ => Uint16Array (map (toUint 16) values)
  | Uint32Array _ => Uint32Array (map (toUint 32) values)
  | Float32Array _ => Float32Array (map toFloat values)
  end.

(** The array [a] after the numbers [values] are stored in its first
    elements. *)
Definition prefix_filled (a : TypedArray) (values : list JsNumber) : TypedArray :=
  match a with
  | Uint16Array l =>
      Uint16Array (map (toUint 16) values ++ skipn (List.length values) l)
  | Uint32Array l =>
      Uint32Array (map (toUint 32) values ++ skipn (List.length values) l)
  | Float32Array l =>
      Float32Array (map toFloat values ++ skipn (List.length values) l)
  end.

(** The three indices of face [i], as [GetValue] reads them. *)
Definition face_values (dracoGeometry : Draco.MeshData) (i : Z) : list JsNumber :=
  let '(v0, v1, v2) := Draco.face dracoGeometry i in
  [IntValue v0; IntValue v1; IntValue v2].

(** The indices of the faces [0 .. numFaces - 1] in a row. *)
Definition face_indices (dracoGeometry : Draco.MeshData) : list JsNumber :=
  flat_map (face_values dracoGeometry)
           (zrange 0 (Z.of_nat (Draco.num_faces dracoGeometry))).

(** The array [decodeAttributeData] returns for an attribute: the integers
    of an attribute of data type 4 modulo [2^16], the numbers of any other
    as they are. *)
Definition attribute_values (numPoints : nat) (attribute : Draco.Attribute)
    : TypedArray :=
  let indices := zrange 0 (Z.of_nat (numPoints * Draco.num_components attribute)) in
  if (Draco.data_type attribute =? 4)%Z
  then Uint16Array (map (fun i => (Draco.int32_values attribute i mod 65536)%Z) indices)
  else Float32Array (map (Draco.float_values attribute) indices).

(** The quantization [decodeAttributeData] reports for an attribute. *)
Definition attribute_quantization (attribute : Draco.Attribute) : option Quantization :=
  match Draco.octahedron_transform attribute, Draco.quantization_transform attribute with
  | Some t, _ => Some (mkQuantization (Draco.o_quantization_bits t) None None true)
  | None, Some t =>
      Some (mkQuantization (Draco.q_quantization_bits t)
              (Some (map (fun i => Some (Draco.q_min_value t i))
                         (zrange 0 (Z.of_nat (Draco.num_components attribute)))))
              (Some (Draco.q_range t)) false)
  | None, None => None
  end.

(** The decoder a call makes when [dracoDecoder] is undefined. *)
Definition created_decoder (w : Worker) : list (nat * Draco.Kind) :=
  match dracoDecoder w with
  | Some _ => []
  | None => [(Draco.next (heap w), Draco.Decoder)]
  end.

(** The address of the decoder a call on [w] works with. *)
Definition decoder_address (w : Worker) : nat :=
  match dracoDecoder w with
  | Some d => fst d
  | None => Draco.next (heap w)
  end.

(** The [SkipAttributeTransform] calls a task asks for. *)
Definition requested_skips (parameters : Parameters) : list Draco.AttributeType :=
  if dequantizeInShader parameters then attributesToSkip else [].

(** The [SkipAttributeTransform] calls the decoder of a worker has received. *)
Definition skipped (w : Worker) : list Draco.AttributeType :=
  match dracoDecoder w with
  | Some d => snd d
  | None => []
  end.

(** The objects a call on [w] makes and does not destroy, its decoder
    apart. *)
Definition left_allocated (draco : Draco.Codec) (parameters : Parameters)
    (w : Worker) : list (nat * Draco.Kind) :=
  let buffer := (Draco.next (heap w) + List.length (created_decoder w))%nat in
  match Draco.GetEncodedGeometryType draco (parameters_array parameters)
          (bufferView_byteLength parameters) with
  | Draco.TRIANGULAR_MESH =>
      let '(decodingStatus, dracoGeometry) :=
        Draco.DecodeBufferToMesh draco (skipped w ++ requested_skips parameters)
          (parameters_array parameters) (bufferView_byteLength parameters) in
      if negb (Draco.ok decodingStatus) || (Draco.ptr dracoGeometry =? 0)%Z
      then [(buffer, Draco.DecoderBuffer); (S buffer, Draco.Mesh)]
      else []
  | _ => [(buffer, Draco.DecoderBuffer)]
  end.

(** The worker's state after [decodeDracoPrimitive] has been called for
    each of [tasks] in turn, whatever the outcomes. *)
Definition after_tasks {Datatype : Type} (createTypedArray : nat -> nat -> TypedArray)
    (fromTypedArray : TypedArray -> Datatype) (draco : Draco.Codec)
    (tasks : list Parameters) (w : Worker) : Worker :=
  fold_left
    (fun w parameters =>
       fst (decodeDracoPrimitive createTypedArray fromTypedArray draco parameters w))
    tasks w.

(** Whether a live object is a decoder. *)
Definition is_decoder (o : nat * Draco.Kind) : bool :=
  match snd o with
  | Draco.Decoder => true
  | _ => false
  end.

(** ** A small mesh and its decoders, to run the worker on *)

(** One integer component per point, with values above [65535], and both
    transforms present. *)
Definition sample_attribute : Draco.Attribute :=
  Draco.mkAttribute 1 4 (fun i => (70000 + i)%Z) (fun _ => 0) 0 4 false
    (Some (Draco.mkQuantizationTransform 11 (fun i => IZR i) 2))
    (Some (Draco.mkOctahedronTransform 10)).

(** Two float components per point, and no octahedron transform. *)
Definition quantized_attribute : Draco.Attribute :=
  Draco.mkAttribute 2 9 (fun _ => 0%Z) (fun i => IZR i) 0 8 false
    (Some (Draco.mkQuantizationTransform 11 (fun i => IZR i) 2))
    None.

(** One triangle on three points. *)
Definition sample_mesh : Draco.MeshData :=
  Draco.mkMesh 1 3 1 (fun _ => (0, 1, 2)%Z)
    (fun id => if (id =? 0)%Z then sample_attribute else quantized_attribute).

Definition sample_codec : Draco.Codec :=
  Draco.mkCodec (fun _ _ => Draco.TRIANGULAR_MESH)
    (fun _ _ _ => (Draco.mkStatus true EmptyString, sample_mesh)).

(** A decoder that finds a point cloud in every buffer. *)
Definition point_cloud_codec : Draco.Codec :=
  Draco.mkCodec (fun _ _ => Draco.POINT_CLOUD)
    (fun _ _ _ => (Draco.mkStatus true EmptyString, sample_mesh)).

Definition sample_createTypedArray (numberOfVertices length : nat) : TypedArray :=
  Uint16Array (repeat 0%Z length).

Definition sample_fromTypedArray (a : TypedArray) : nat := typed_length a.

Definition sample_parameters : Parameters :=
  mkParameters true 16 [] [("POSITION"%string, 0%Z); ("_BATCHID"%string, 1%Z)].

(** The worker before its first task. *)
Definition new_worker : Worker := mkWorker None (Draco.mkHeap 1 []).

(** A worker whose decoder exists and has been told to skip a transform. *)
Definition used_worker : Worker :=
  mkWorker (Some (1%nat, [Draco.POSITION]))
           (Draco.mkHeap 5 [(1%nat, Draco.Decoder); (3%nat, Draco.DecoderBuffer)]).
(** * Properties *)

(** ** Counted loops *)

Lemma zrange_nil (lo hi : Z) : (hi <= lo)%Z -> zrange lo hi = [].
Proof.
  intros H. unfold zrange.
  replace (Z.to_nat (hi - lo)) with 0%nat by lia. reflexivity.
Qed.

Lemma zrange_snoc (lo hi : Z) :
  (lo <= hi)%Z -> zrange lo (hi + 1) = zrange lo hi ++ [hi].
Proof.
  intros H. unfold zrange.
  replace (Z.to_nat (hi + 1 - lo)) with (S (Z.to_nat (hi - lo))) by lia.
  rewrite seq_S, map_app. simpl. do 2 f_equal. lia.
Qed.

Lemma zrange_one (lo : Z) : zrange lo (lo + 1) = [lo].
Proof. rewrite zrange_snoc by lia. now rewrite zrange_nil by lia. Qed.

Lemma zrange_length (lo hi : Z) : List.length (zrange lo hi) = Z.to_nat (hi - lo).
Proof. unfold zrange. now rewrite length_map, length_seq. Qed.

Lemma zrange_In (lo hi i : Z) : In i (zrange lo hi) <-> (lo <= i < hi)%Z.
Proof.
  unfold zrange. rewrite in_map_iff. split.
  - intros (k & <- & Hk). apply in_seq in Hk. lia.
  - intros H. exists (Z.to_nat (i - lo)). split; [lia|]. apply in_seq. lia.
Qed.

Lemma zrange_nth_error (lo hi : Z) (k : nat) :
  (k < Z.to_nat (hi - lo))%nat ->
  nth_error (zrange lo hi) k = Some (lo + Z.of_nat k)%Z.
Proof.
  intros H. unfold zrange.
  rewrite nth_error_map, nth_error_seq.
  destruct (Nat.ltb_spec k (Z.to_nat (hi - lo))); [reflexivity | lia].
Qed.

Lemma for_range_nil {S : Type} (lo hi : Z) (body : Z -> S -> S) (s : S) :
  (hi <= lo)%Z -> for_range lo hi body s = s.
Proof. intros H. unfold for_range. now rewrite zrange_nil. Qed.

Lemma for_range_snoc {S : Type} (lo hi : Z) (body : Z -> S -> S) (s : S) :
  (lo <= hi)%Z ->
  for_range lo (hi + 1) body s = body hi (for_range lo hi body s).
Proof.
  intros H. unfold for_range. rewrite zrange_snoc by assumption.
  now rewrite fold_left_app.
Qed.

(** ** Array writes *)

Lemma set_nat_nil {A : Type} (n : nat) (v : option A) :
  JsArray.set_nat [] n v = repeat None n ++ [v].
Proof. induction n as [|n IH]; simpl; [reflexivity | now rewrite IH]. Qed.

Lemma set_nat_mid {A : Type} (pre post : JsArray.t A) (x v : option A) (n : nat) :
  List.length pre = n ->
  JsArray.set_nat (pre ++ x :: post) n v = pre ++ v :: post.
Proof.
  revert n. induction pre as [|p pre IH]; intros n H; simpl in H; subst n; simpl.
  - reflexivity.
  - now rewrite IH.
Qed.

(** The first two writes of a boundary pair into a fresh array. *)
Lemma set_ends_fresh {A : Type} (P : Z) (a b : option A) :
  (1 <= P)%Z ->
  JsArray.set (JsArray.set [] 0 a) P b
  = a :: repeat None (Z.to_nat (P - 1)) ++ [b].
Proof.
  intros HP. unfold JsArray.set.
  destruct (Z.ltb_spec P 0); [lia|]. simpl.
  replace (Z.to_nat P) with (S (Z.to_nat (P - 1))) by lia.
  simpl. now rewrite set_nat_nil.
Qed.

(** The same two writes into a full row of [P + 1] entries. *)
Lemma set_ends_full {A : Type} (P : Z) (a b x y : option A) (rest : JsArray.t A) :
  (1 <= P)%Z -> List.length rest = Z.to_nat (P - 1) ->
  JsArray.set (JsArray.set (x :: rest ++ [y]) 0 a) P b = a :: rest ++ [b].
Proof.
  intros HP Hlen. unfold JsArray.set.
  destruct (Z.ltb_spec P 0); [lia|]. simpl.
  replace (Z.to_nat P) with (S (List.length rest)) by lia.
  simpl. f_equal. now apply set_nat_mid.
Qed.

Lemma fresh_indices_length (base n : nat) : List.length (fresh_indices base n) = n.
Proof. unfold fresh_indices. now rewrite length_map, length_seq. Qed.

Lemma fill_loop_prefix (f : Z -> Cartesian3.t) (a b : option nat)
    (rest : JsArray.t nat) (positions : list Cartesian3.t) (n : nat) :
  (n <= List.length rest)%nat ->
  for_range 1 (1 + Z.of_nat n) (fill_body f) (a :: rest ++ [b], positions)
  = (a :: fresh_indices (List.length positions) n ++ skipn n rest ++ [b],
     positions ++ map f (zrange 1 (1 + Z.of_nat n))).
Proof.
  induction n as [|n IH]; intros Hn.
  - rewrite for_range_nil by lia. rewrite zrange_nil by lia.
    simpl. now rewrite app_nil_r.
  - replace (1 + Z.of_nat (S n))%Z with ((1 + Z.of_nat n) + 1)%Z by lia.
    rewrite for_range_snoc by lia. rewrite IH by lia.
    rewrite zrange_snoc by lia. rewrite map_app.
    unfold fill_body at 1. cbn [map]. rewrite app_assoc. f_equal.
    unfold JsArray.set. destruct (Z.ltb_spec (1 + Z.of_nat n) 0); [lia|].
    replace (Z.to_nat (1 + Z.of_nat n)) with (S n) by lia.
    destruct (skipn n rest) as [|r rest'] eqn:Hskip.
    { apply (f_equal (@List.length _)) in Hskip. rewrite length_skipn in Hskip.
      simpl in Hskip. lia. }
    assert (Hnext : skipn (S n) rest = rest').
    { replace (S n) with (1 + n)%nat by lia.
      rewrite <- skipn_skipn, Hskip. reflexivity. }
    rewrite Hnext. cbn [JsArray.set_nat]. f_equal.
    rewrite <- app_assoc. cbn [app].
    rewrite set_nat_mid by apply fresh_indices_length.
    unfold fresh_indices. rewrite seq_S, map_app. cbn [map Nat.add].
    rewrite <- app_assoc. cbn [app]. do 4 f_equal.
    rewrite length_app, length_map, zrange_length. lia.
    now rewrite <- app_assoc.
Qed.

Lemma fill_loop (f : Z -> Cartesian3.t) (P : Z) (a b : option nat)
    (rest : JsArray.t nat) (positions : list Cartesian3.t) :
  (1 <= P)%Z -> List.length rest = Z.to_nat (P - 1) ->
  for_range 1 P (fill_body f) (a :: rest ++ [b], positions)
  = (a :: fresh_indices (List.length positions) (Z.to_nat (P - 1)) ++ [b],
     positions ++ map f (zrange 1 P)).
Proof.
  intros HP Hlen.
  replace P with (1 + Z.of_nat (Z.to_nat (P - 1)))%Z at 1 3 by lia.
  rewrite fill_loop_prefix by lia.
  rewrite <- Hlen at 2. rewrite skipn_all. reflexivity.
Qed.

(** ** addEdgePositions *)

Lemma addEdgePositions_eq (i0 i1 : nat) (P : Z) (positions : list Cartesian3.t)
    (a b : Cartesian3.t) :
  (1 <= P)%Z ->
  nth_error positions i0 = Some a ->
  nth_error positions i1 = Some b ->
  addEdgePositions i0 i1 P positions
  = Ok (edge_list i0 i1 (List.length positions) P, positions ++ edge_points a b P).
Proof.
  intros HP Ha Hb. unfold addEdgePositions.
  rewrite Ha, Hb. cbn [defined bind].
  replace (2 + (P - 1) - 1)%Z with P by lia.
  rewrite set_ends_fresh by assumption.
  change (Ok (for_range 1 P (fill_body (edge_point a b P))
                (Some i0 :: repeat None (Z.to_nat (P - 1)) ++ [Some i1], positions))
          = Ok (edge_list i0 i1 (List.length positions) P,
                positions ++ edge_points a b P)).
  rewrite fill_loop; [reflexivity | assumption | apply repeat_length].
Qed.

(** ** addFaceTriangles *)

Lemma addFaceTriangles_unfold (L B R T : JsArray.t nat) (P : Z)
    (positions : list Cartesian3.t) (indices : JsArray.t nat) :
  addFaceTriangles L B R T P positions indices
  = (let origin := position_at positions (JsArray.get B 0) in
     left <- defined (position_at positions (JsArray.get B (JsArray.length B - 1))) ;;
     origin <- defined origin ;;
     let x := Cartesian3.subtract left origin in
     left <- defined (position_at positions (JsArray.get T 0)) ;;
     let y := Cartesian3.subtract left origin in
     let s := for_range 1 (P + 1) (face_row_step L B R T P origin x y)
                (face_init positions indices) in
     Ok (Face.positions s, Face.indices s)).
Proof. reflexivity. Qed.

Lemma emit_loop (bottomRow topRow : JsArray.t nat) (P : Z) (indices : JsArray.t nat) :
  for_range 0 P (emit_body bottomRow topRow) indices
  = indices ++ row_triangles bottomRow topRow P.
Proof.
  unfold for_range, row_triangles. generalize (zrange 0 P) as ks.
  intros ks. revert indices.
  induction ks as [|k ks IH]; intros indices; cbn [fold_left flat_map].
  - now rewrite app_nil_r.
  - rewrite IH. unfold emit_body, JsArray.push, quad.
    repeat rewrite <- app_assoc. reflexivity.
Qed.

Lemma row_points_length (origin x y : Cartesian3.t) (P j : Z) :
  List.length (row_points origin x y P j) = Z.to_nat (P - 1).
Proof. unfold row_points. now rewrite length_map, zrange_length. Qed.

Lemma rows_points_length (origin x y : Cartesian3.t) (P m : Z) :
  (0 <= m)%Z -> (1 <= P)%Z ->
  List.length (flat_map (row_points origin x y P) (zrange 1 (m + 1)))
  = Z.to_nat (m * (P - 1)).
Proof.
  intros Hm HP. rewrite <- (Z2Nat.id m) by assumption.
  induction (Z.to_nat m) as [|n IH].
  - rewrite zrange_nil by lia. reflexivity.
  - replace (Z.of_nat (S n) + 1)%Z with ((Z.of_nat n + 1) + 1)%Z by lia.
    rewrite zrange_snoc by lia. rewrite flat_map_app, length_app, IH.
    cbn [flat_map]. rewrite app_nil_r, row_points_length.
    replace (Z.of_nat (S n) * (P - 1))%Z
      with (Z.of_nat n * (P - 1) + (P - 1))%Z by lia.
    rewrite Z2Nat.inj_add; nia.
Qed.

Lemma face_points_length (origin x y : Cartesian3.t) (P : Z) :
  (1 <= P)%Z ->
  List.length (face_points origin x y P) = Z.to_nat ((P - 1) * (P - 1)).
Proof.
  intros HP. unfold face_points.
  replace P with ((P - 1) + 1)%Z at 2 by lia.
  rewrite rows_points_length by lia. reflexivity.
Qed.

Lemma grid_row_interior (L B R T : JsArray.t nat) (P : Z) (base : nat) (j : Z) :
  (0 < j < P)%Z -> grid_row L B R T P base j = interior_row L R P base j.
Proof.
  intros H. unfold grid_row.
  destruct (Z.eqb_spec j 0); [lia|]. destruct (Z.eqb_spec j P); [lia|]. reflexivity.
Qed.

Lemma grid_row_bottom (L B R T : JsArray.t nat) (P : Z) (base : nat) :
  grid_row L B R T P base 0 = B.
Proof. reflexivity. Qed.

Lemma grid_row_top (L B R T : JsArray.t nat) (P : Z) (base : nat) :
  (1 <= P)%Z -> grid_row L B R T P base P = T.
Proof.
  intros H. unfold grid_row.
  destruct (Z.eqb_spec P 0); [lia|]. now rewrite Z.eqb_refl.
Qed.

Section FaceRows.

Variables (L B R T : JsArray.t nat) (P : Z).
Variables (origin x y : Cartesian3.t).
Variables (positions0 : list Cartesian3.t) (indices0 : JsArray.t nat).
Hypothesis HP : (1 <= P)%Z.

Let step := face_row_step L B R T P origin x y.
Let done := rows_done L B R T P origin x y positions0 indices0.

Lemma first_row :
  (1 < P)%Z -> done 1%Z (step 1%Z (face_init positions0 indices0)).
Proof.
  intros H1. unfold done, rows_done, step, face_row_step, face_init.
  destruct (Z.eqb_spec 1 P); [lia|]. cbn [negb Z.eqb Pos.eqb Face.topIndicesBuffer
    Face.positions Face.indices Face.bottomIndices Face.topIndices
    Face.bottomIndicesBuffer].
  rewrite set_ends_fresh by assumption.
  rewrite fill_loop by (try assumption; apply repeat_length).
  cbn [Face.topIndicesBuffer Face.positions Face.indices Face.bottomIndices
    Face.topIndices Face.bottomIndicesBuffer Face.deref].
  rewrite emit_loop.
  rewrite (zrange_one 1). cbn [app flat_map].
  rewrite !app_nil_r.
  replace (1 - 1)%Z with 0%Z by lia. rewrite grid_row_bottom.
  rewrite grid_row_interior by lia.
  unfold interior_row, row_points.
  replace (Z.to_nat (0 * (P - 1))) with 0%nat by lia.
  rewrite Nat.add_0_r. repeat split; reflexivity.
Qed.

Lemma next_row (m : Z) (s : Face.state) :
  (1 <= m)%Z -> (m + 1 < P)%Z -> done m s -> done (m + 1)%Z (step (m + 1)%Z s).
Proof.
  intros Hm Hlt Hdone. destruct s as [bb tb bi ti ps ix].
  unfold done, rows_done in Hdone.
  cbn [Face.topIndicesBuffer Face.positions Face.indices Face.topIndices] in Hdone.
  destruct Hdone as (-> & -> & -> & ->).
  unfold done, rows_done, step, face_row_step.
  destruct (Z.eqb_spec (m + 1) P); [lia|].
  destruct (Z.eqb_spec (m + 1) 1); [lia|].
  cbn [negb Face.topIndicesBuffer Face.positions Face.indices
    Face.bottomIndices Face.topIndices Face.bottomIndicesBuffer JsArray.slice0].
  unfold interior_row.
  rewrite set_ends_full by (try assumption; apply fresh_indices_length).
  rewrite fill_loop by (try assumption; apply fresh_indices_length).
  cbn [Face.topIndicesBuffer Face.positions Face.indices Face.bottomIndices
    Face.topIndices Face.bottomIndicesBuffer Face.deref].
  rewrite emit_loop.
  rewrite (zrange_snoc 1 (m + 1)) by lia.
  rewrite !flat_map_app. cbn [flat_map]. rewrite !app_nil_r.
  replace (m + 1 - 1)%Z with m by lia.
  rewrite !grid_row_interior by lia.
  rewrite length_app, rows_points_length by lia.
  unfold interior_row, row_points.
  replace (m + 1 - 1)%Z with m by lia.
  rewrite <- !app_assoc.
  repeat split; reflexivity.
Qed.

Lemma interior_rows (n : nat) :
  (1 + Z.of_nat n < P)%Z ->
  done (1 + Z.of_nat n)%Z
       (for_range 1 (1 + Z.of_nat n + 1) step (face_init positions0 indices0)).
Proof.
  induction n as [|n IH]; intros Hn.
  - replace (1 + Z.of_nat 0 + 1)%Z with (1 + 1)%Z by lia.
    rewrite for_range_snoc by lia. rewrite for_range_nil by lia.
    apply first_row. lia.
  - replace (1 + Z.of_nat (S n))%Z with ((1 + Z.of_nat n) + 1)%Z by lia.
    rewrite for_range_snoc by lia.
    apply next_row; [lia | lia | apply IH; lia].
Qed.

Lemma all_rows :
  let s := for_range 1 (P + 1) step (face_init positions0 indices0) in
  Face.positions s = positions0 ++ face_points origin x y P
  /\ Face.indices s
     = indices0 ++ face_triangles L B R T P (List.length positions0).
Proof.
  cbv zeta. rewrite for_range_snoc by assumption.
  destruct (Z.eq_dec P 1) as [->|Hne].
  - rewrite for_range_nil by lia.
    unfold step, face_row_step, face_init, face_points, face_triangles.
    cbn [Z.eqb Pos.eqb negb Face.topIndicesBuffer Face.positions Face.indices
      Face.bottomIndices Face.topIndices Face.bottomIndicesBuffer Face.deref].
    rewrite emit_loop. rewrite (zrange_nil 1 1) by lia.
    cbn [flat_map]. rewrite app_nil_r. split; [reflexivity|].
    rewrite (zrange_one 1). cbn [app flat_map].
    rewrite app_nil_r. reflexivity.
  - pose proof (interior_rows (Z.to_nat (P - 2))) as Hrows.
    replace (1 + Z.of_nat (Z.to_nat (P - 2)) + 1)%Z with P in Hrows by lia.
    replace (1 + Z.of_nat (Z.to_nat (P - 2)))%Z with (P - 1)%Z in Hrows by lia.
    specialize (Hrows ltac:(lia)).
    destruct Hrows as (Htop & Href & Hpos & Hind).
    set (s := for_range 1 P step (face_init positions0 indices0)) in *.
    unfold step at 1 2. unfold face_row_step.
    rewrite Z.eqb_refl. destruct (Z.eqb_spec P 1); [lia|].
    cbn [negb Face.topIndicesBuffer Face.positions Face.indices
      Face.bottomIndices Face.topIndices Face.bottomIndicesBuffer Face.deref].
    rewrite emit_loop, Hpos, Hind, Htop.
    replace (P - 1 + 1)%Z with P by lia.
    split; [reflexivity|].
    unfold face_triangles. rewrite (zrange_snoc 1 P) by lia.
    rewrite flat_map_app. cbn [flat_map]. rewrite app_nil_r, <- app_assoc.
    rewrite grid_row_top by assumption.
    rewrite grid_row_interior by lia. reflexivity.
Qed.

End FaceRows.

Lemma addFaceTriangles_eq (L B R T : JsArray.t nat) (P : Z)
    (positions : list Cartesian3.t) (indices : JsArray.t nat)
    (o bx ty : Cartesian3.t) :
  (1 <= P)%Z ->
  position_at positions (JsArray.get B 0) = Some o ->
  position_at positions (JsArray.get B (JsArray.length B - 1)) = Some bx ->
  position_at positions (JsArray.get T 0) = Some ty ->
  addFaceTriangles L B R T P positions indices
  = Ok (positions
        ++ face_points o (Cartesian3.subtract bx o) (Cartesian3.subtract ty o) P,
        indices ++ face_triangles L B R T P (List.length positions)).
Proof.
  intros HP Ho Hbx Hty. rewrite addFaceTriangles_unfold.
  rewrite Ho, Hbx, Hty. cbn [defined bind].
  destruct (all_rows L B R T P o (Cartesian3.subtract bx o)
              (Cartesian3.subtract ty o) positions indices HP) as [Hp Hi].
  cbv zeta in Hp, Hi. now rewrite Hp, Hi.
Qed.

(** ** The mesh *)

Lemma edge_points_length (a b : Cartesian3.t) (P : Z) :
  List.length (edge_points a b P) = interior P.
Proof. unfold edge_points, interior. now rewrite length_map, zrange_length. Qed.

Lemma face_points_interior (origin x y : Cartesian3.t) (P : Z) :
  (1 <= P)%Z ->
  List.length (face_points origin x y P) = (interior P * interior P)%nat.
Proof.
  intros HP. unfold interior.
  rewrite face_points_length by assumption. apply Z2Nat.inj_mul; lia.
Qed.

Lemma edge_list_length (i0 i1 base : nat) (P : Z) :
  List.length (edge_list i0 i1 base P) = S (S (interior P)).
Proof.
  unfold edge_list. cbn [List.length].
  rewrite length_app, fresh_indices_length. unfold interior. simpl. lia.
Qed.

Lemma get_last {A : Type} (a : JsArray.t A) (v : option A) :
  JsArray.get (a ++ [v]) (JsArray.length (a ++ [v]) - 1) = v.
Proof.
  unfold JsArray.get, JsArray.length. rewrite length_app. cbn [List.length].
  destruct (Z.ltb_spec (Z.of_nat (List.length a + 1) - 1) 0); [lia|].
  replace (Z.to_nat (Z.of_nat (List.length a + 1) - 1)) with (List.length a) by lia.
  rewrite nth_error_app2 by lia. now rewrite Nat.sub_diag.
Qed.

Lemma edge_list_first (i0 i1 base : nat) (P : Z) :
  JsArray.get (edge_list i0 i1 base P) 0 = Some i0.
Proof. reflexivity. Qed.

Lemma edge_list_last (i0 i1 base : nat) (P : Z) :
  JsArray.get (edge_list i0 i1 base P) (JsArray.length (edge_list i0 i1 base P) - 1)
  = Some i1.
Proof. unfold edge_list. rewrite app_comm_cons. apply get_last. Qed.

Lemma edge_list_rev (i0 i1 base : nat) (P : Z) :
  rev (edge_list i0 i1 base P)
  = Some i1 :: rev (fresh_indices base (interior P)) ++ [Some i0].
Proof.
  unfold edge_list. cbn [rev]. rewrite rev_app_distr. reflexivity.
Qed.

Lemma edge_list_rev_first (i0 i1 base : nat) (P : Z) :
  JsArray.get (JsArray.reverse (JsArray.slice0 (edge_list i0 i1 base P))) 0 = Some i1.
Proof.
  unfold JsArray.reverse, JsArray.slice0. now rewrite edge_list_rev.
Qed.

Lemma edge_list_rev_last (i0 i1 base : nat) (P : Z) :
  JsArray.get (JsArray.reverse (JsArray.slice0 (edge_list i0 i1 base P)))
    (JsArray.length (JsArray.reverse (JsArray.slice0 (edge_list i0 i1 base P))) - 1)
  = Some i0.
Proof.
  unfold JsArray.reverse, JsArray.slice0. rewrite edge_list_rev.
  rewrite app_comm_cons. apply get_last.
Qed.

Lemma nth_error_corner (l : list Cartesian3.t) (i : nat) :
  (i < 8)%nat -> nth_error (corners ++ l) i = Some (corner i).
Proof.
  intros H. rewrite nth_error_app1 by (simpl; lia).
  unfold corner. apply nth_error_nth'. simpl. lia.
Qed.

Ltac corner_lookup :=
  first [ rewrite edge_list_first | rewrite edge_list_rev_first
        | rewrite edge_list_last | rewrite edge_list_rev_last ];
  cbn [position_at]; apply nth_error_corner; lia.

Ltac edge_step HP i0 i1 :=
  rewrite (addEdgePositions_eq i0 i1 _ _ (corner i0) (corner i1) HP)
    by (apply nth_error_corner; lia);
  cbn [bind]; rewrite <- app_assoc.

Ltac face_step HP :=
  erewrite addFaceTriangles_eq; [ | exact HP | corner_lookup ..];
  cbn [bind]; rewrite <- app_assoc.

Theorem cubeMesh_eq (P : Z) :
  (1 <= P)%Z -> cubeMesh P = Ok (mesh_positions P, mesh_indices P).
Proof.
  intros HP. unfold cubeMesh. cbn [app]. fold corners.
  rewrite <- (app_nil_r corners).
  edge_step HP 0%nat 1%nat. edge_step HP 1%nat 2%nat.
  edge_step HP 2%nat 3%nat. edge_step HP 3%nat 0%nat.
  edge_step HP 4%nat 5%nat. edge_step HP 5%nat 6%nat.
  edge_step HP 6%nat 7%nat. edge_step HP 7%nat 4%nat.
  edge_step HP 0%nat 4%nat. edge_step HP 1%nat 5%nat.
  edge_step HP 2%nat 6%nat. edge_step HP 3%nat 7%nat.
  do 6 face_step HP.
  f_equal. f_equal.
  - unfold mesh_positions. cbn [flat_map seq].
    unfold mesh_edge_points, mesh_face_points, face_origin, face_x, face_y,
      face_bottom, face_top, side_first, side_last, cube_face, cube_edge.
    cbn [nth cube_faces cube_edges fst snd].
    rewrite <- !app_assoc, !app_nil_r. reflexivity.
  - unfold mesh_indices. cbn [flat_map seq].
    unfold mesh_face_triangles, side_list, face_left, face_bottom, face_right,
      face_top, mesh_edge, cube_face, cube_edge.
    cbn [nth cube_faces cube_edges fst snd].
    rewrite <- !app_assoc, !app_nil_r. cbn [app].
    rewrite !length_app, !edge_points_length, !face_points_interior by assumption.
    change (List.length corners) with 8%nat. unfold edge_base, face_base.
    cbn [List.length].
    repeat (first [lia | f_equal]).
Qed.

(** ** The constructor *)

Lemma EllipsoidGeometry_unfold (options : option Options.t) :
  EllipsoidGeometry options
  = if (partitions_of options <=? 0)%Z then
      Throw (DeveloperError "options.numberOfPartitions must be greater than zero.")
    else
      '(positions, indices) <- cubeMesh (partitions_of options) ;;
      Ok (geometry_of options positions indices).
Proof.
  unfold EllipsoidGeometry, geometry_of, buildAttributes, partitions_of,
    ellipsoid_of, format_of.
  destruct (_ <=? 0)%Z; [reflexivity|].
  destruct (cubeMesh _) as [[positions indices]|e]; [|reflexivity].
  cbn [bind].
  destruct (VertexFormat.position _); [destruct (expandPositions _ _)|];
    (destruct (_ || _)%bool; [destruct (computeFrames _ _) as [[? ?] ?]|]);
    reflexivity.
Qed.

Lemma EllipsoidGeometry_eq (options : option Options.t) :
  (1 <= partitions_of options)%Z ->
  EllipsoidGeometry options
  = Ok (geometry_of options (mesh_positions (partitions_of options))
                    (mesh_indices (partitions_of options))).
Proof.
  intros HP. rewrite EllipsoidGeometry_unfold.
  destruct (Z.leb_spec (partitions_of options) 0); [lia|].
  now rewrite cubeMesh_eq.
Qed.

(** ** Sizes *)

Lemma flat_map_length_const {A B : Type} (f : A -> list B) (c : nat) (l : list A) :
  (forall a, List.length (f a) = c) ->
  List.length (flat_map f l) = (List.length l * c)%nat.
Proof.
  intros H. induction l as [|a l IH]; [reflexivity|].
  cbn [flat_map List.length]. rewrite length_app, H, IH. lia.
Qed.

Lemma row_triangles_length (bottomRow topRow : JsArray.t nat) (P : Z) :
  List.length (row_triangles bottomRow topRow P) = (Z.to_nat P * 6)%nat.
Proof.
  unfold row_triangles. rewrite flat_map_length_const with (c := 6%nat).
  - rewrite zrange_length. f_equal. lia.
  - reflexivity.
Qed.

Lemma face_triangles_length (L B R T : JsArray.t nat) (P : Z) (base : nat) :
  List.length (face_triangles L B R T P base) = (Z.to_nat P * (Z.to_nat P * 6))%nat.
Proof.
  unfold face_triangles.
  rewrite flat_map_length_const with (c := (Z.to_nat P * 6)%nat).
  - rewrite zrange_length. f_equal. lia.
  - intros j. apply row_triangles_length.
Qed.

Lemma mesh_positions_length (P : Z) :
  (1 <= P)%Z ->
  List.length (mesh_positions P)
  = (8 + 12 * interior P + 6 * (interior P * interior P))%nat.
Proof.
  intros HP. unfold mesh_positions. rewrite !length_app.
  rewrite flat_map_length_const with (c := interior P)
    by (intros e; apply edge_points_length).
  rewrite flat_map_length_const with (c := (interior P * interior P)%nat)
    by (intros f; now apply face_points_interior).
  rewrite !length_seq. reflexivity.
Qed.

Lemma mesh_indices_length (P : Z) :
  List.length (mesh_indices P) = (6 * (Z.to_nat P * (Z.to_nat P * 6)))%nat.
Proof.
  unfold mesh_indices.
  rewrite flat_map_length_const with (c := (Z.to_nat P * (Z.to_nat P * 6))%nat)
    by (intros f; apply face_triangles_length).
  now rewrite length_seq.
Qed.

(** C1. For every partition count [P >= 1] the constructor's position list
    is the 8 corners, then [P - 1] interior points for each of the 12 edges,
    then [(P - 1)^2] interior points for each of the 6 faces, so it has
    [8 + 12 (P - 1) + 6 (P - 1)^2] entries; the triangle index buffer, which
    is the one the constructed object carries, has [36 P^2] entries. *)
Theorem C1_buffer_sizes (options : option Options.t) :
  let P := partitions_of options in
  (1 <= P)%Z ->
  exists (positions : list Cartesian3.t) (indices : JsArray.t nat) (g : Geometry.t),
    cubeMesh P = Ok (positions, indices)
    /\ EllipsoidGeometry options = Ok g
    /\ Geometry.indexLists g = [GeometryIndices.mk TRIANGLES indices]
    /\ positions = corners ++ flat_map (mesh_edge_points P) (seq 0 12)
                           ++ flat_map (mesh_face_points P) (seq 0 6)
    /\ List.length corners = 8%nat
    /\ (forall e, Z.of_nat (List.length (mesh_edge_points P e)) = P - 1)%Z
    /\ (forall f, Z.of_nat (List.length (mesh_face_points P f)) = (P - 1) ^ 2)%Z
    /\ (Z.of_nat (List.length positions) = 8 + 12 * (P - 1) + 6 * (P - 1) ^ 2)%Z
    /\ (Z.of_nat (List.length indices) = 36 * P ^ 2)%Z.
Proof.
  intros P HP.
  exists (mesh_positions P), (mesh_indices P),
    (geometry_of options (mesh_positions P) (mesh_indices P)).
  split; [now apply cubeMesh_eq|].
  split; [now apply EllipsoidGeometry_eq|].
  split; [reflexivity|]. split; [reflexivity|]. split; [reflexivity|].
  split; [|split; [|split]].
  - intros e. unfold mesh_edge_points. rewrite edge_points_length.
    unfold interior. lia.
  - intros f. unfold mesh_face_points.
    rewrite face_points_interior by assumption. unfold interior.
    rewrite Z.pow_2_r. nia.
  - rewrite mesh_positions_length by assumption. unfold interior.
    rewrite Z.pow_2_r. nia.
  - rewrite mesh_indices_length. rewrite Z.pow_2_r. nia.
Qed.

Lemma C1_buffer_sizes_witness :
  (1 <= 3)%Z
  /\ exists (positions : list Cartesian3.t) (indices : JsArray.t nat),
       cubeMesh 3 = Ok (positions, indices)
       /\ List.length positions = 56%nat /\ List.length indices = 324%nat.
Proof.
  split; [lia|].
  pose proof (C1_buffer_sizes (Some (Options.mk None (Some 3%Z) None None None)))
    as H.
  cbv zeta in H. change (partitions_of _) with 3%Z in H.
  destruct (H ltac:(lia))
    as (positions & indices & g & Hmesh & _ & _ & _ & _ & _ & _ & Hp & Hi).
  change ((3 - 1) ^ 2)%Z with 4%Z in Hp. change (3 ^ 2)%Z with 9%Z in Hi.
  exists positions, indices. split; [exact Hmesh|]. split; lia.
Defined.

(** ** Reading index lists *)

Lemma get_cons {A : Type} (v : option A) (a : JsArray.t A) (i : Z) :
  (0 < i)%Z -> JsArray.get (v :: a) i = JsArray.get a (i - 1).
Proof.
  intros H. unfold JsArray.get.
  destruct (Z.ltb_spec i 0); [lia|]. destruct (Z.ltb_spec (i - 1) 0); [lia|].
  replace (Z.to_nat i) with (S (Z.to_nat (i - 1))) by lia. reflexivity.
Qed.

Lemma get_app1 {A : Type} (a b : JsArray.t A) (i : Z) :
  (i < Z.of_nat (List.length a))%Z -> JsArray.get (a ++ b) i = JsArray.get a i.
Proof.
  intros H. unfold JsArray.get. destruct (Z.ltb_spec i 0); [reflexivity|].
  now rewrite nth_error_app1 by lia.
Qed.

Lemma get_app_last {A : Type} (a : JsArray.t A) (v : option A) (i : Z) :
  i = Z.of_nat (List.length a) -> JsArray.get (a ++ [v]) i = v.
Proof.
  intros ->. unfold JsArray.get.
  destruct (Z.ltb_spec (Z.of_nat (List.length a)) 0); [lia|].
  rewrite Nat2Z.id, nth_error_app2 by lia. now rewrite Nat.sub_diag.
Qed.

Lemma get_fresh (base n : nat) (k : Z) :
  (0 <= k < Z.of_nat n)%Z ->
  JsArray.get (fresh_indices base n) k = Some (base + Z.to_nat k)%nat.
Proof.
  intros H. unfold JsArray.get, fresh_indices.
  destruct (Z.ltb_spec k 0); [lia|].
  rewrite nth_error_map, nth_error_seq.
  destruct (Nat.ltb_spec (Z.to_nat k) n); [reflexivity | lia].
Qed.

Lemma get_edge_list_interior (i0 i1 base : nat) (P i : Z) :
  (1 <= i <= P - 1)%Z ->
  JsArray.get (edge_list i0 i1 base P) i = Some (base + Z.to_nat (i - 1))%nat.
Proof.
  intros H. unfold edge_list. rewrite get_cons by lia.
  rewrite get_app1 by (rewrite fresh_indices_length; lia).
  apply get_fresh. lia.
Qed.

Lemma get_edge_list_end (i0 i1 base : nat) (P : Z) :
  (1 <= P)%Z -> JsArray.get (edge_list i0 i1 base P) P = Some i1.
Proof.
  intros H. unfold edge_list. rewrite get_cons by lia.
  apply get_app_last. rewrite fresh_indices_length. lia.
Qed.

Lemma nth_error_edge_points (a b : Cartesian3.t) (P : Z) (k : nat) :
  (k < interior P)%nat ->
  nth_error (edge_points a b P) k = Some (edge_point a b P (1 + Z.of_nat k)).
Proof.
  intros H. unfold edge_points. rewrite nth_error_map.
  rewrite zrange_nth_error by (unfold interior in H; lia). reflexivity.
Qed.

(** C5. For a partition count [P >= 1] and two indices of [positions],
    holding [origin] and [dest], the edge interpolator returns a list of
    [P + 1] indices, from [i0] at entry [0] to [i1] at entry [P]; entries
    [1 .. P - 1] are the indices of [P - 1] points appended to [positions]
    in order, the [i]-th being [origin + (dest - origin) * (i / P)]; the
    position list is otherwise unchanged. *)
Theorem C5_addEdgePositions (i0 i1 : nat) (P : Z) (positions : list Cartesian3.t)
    (origin dest : Cartesian3.t) :
  (1 <= P)%Z ->
  nth_error positions i0 = Some origin ->
  nth_error positions i1 = Some dest ->
  exists (indexList : JsArray.t nat) (added : list Cartesian3.t),
    addEdgePositions i0 i1 P positions = Ok (indexList, positions ++ added)
    /\ JsArray.length indexList = (P + 1)%Z
    /\ JsArray.get indexList 0 = Some i0
    /\ JsArray.get indexList P = Some i1
    /\ Z.of_nat (List.length added) = (P - 1)%Z
    /\ forall i : Z, (1 <= i <= P - 1)%Z ->
         let n := (List.length positions + Z.to_nat (i - 1))%nat in
         JsArray.get indexList i = Some n
         /\ nth_error (positions ++ added) n
            = Some (Cartesian3.add origin
                      (Cartesian3.multiplyByScalar
                         (Cartesian3.subtract dest origin) (IZR i / IZR P))).
Proof.
  intros HP Ho Hd.
  exists (edge_list i0 i1 (List.length positions) P), (edge_points origin dest P).
  split; [now apply addEdgePositions_eq|].
  split; [unfold JsArray.length; rewrite edge_list_length; unfold interior; lia|].
  split; [reflexivity|].
  split; [now apply get_edge_list_end|].
  split; [rewrite edge_points_length; unfold interior; lia|].
  intros i Hi n. split; [now apply get_edge_list_interior|].
  unfold n. rewrite nth_error_app2 by lia.
  replace (List.length positions + Z.to_nat (i - 1) - List.length positions)%nat
    with (Z.to_nat (i - 1)) by lia.
  rewrite nth_error_edge_points by (unfold interior; lia).
  replace (1 + Z.of_nat (Z.to_nat (i - 1)))%Z with i by lia. reflexivity.
Qed.

Lemma C5_addEdgePositions_witness :
  (1 <= 2)%Z
  /\ exists (indexList : JsArray.t nat) (added : list Cartesian3.t),
       addEdgePositions 0 1 2 [Cartesian3.mk 0 0 0; Cartesian3.mk 2 4 6]
       = Ok (indexList, [Cartesian3.mk 0 0 0; Cartesian3.mk 2 4 6] ++ added)
       /\ indexList = [Some 0%nat; Some 2%nat; Some 1%nat]
       /\ Z.of_nat (List.length added) = 1%Z.
Proof.
  split; [lia|].
  destruct (C5_addEdgePositions 0 1 2 [Cartesian3.mk 0 0 0; Cartesian3.mk 2 4 6]
              (Cartesian3.mk 0 0 0) (Cartesian3.mk 2 4 6)
              ltac:(lia) eq_refl eq_refl)
    as (indexList & added & Hrun & _ & _ & _ & Hlen & _).
  exists indexList, added. split; [exact Hrun|]. split; [|exact Hlen].
  rewrite (addEdgePositions_eq 0 1 2 _ (Cartesian3.mk 0 0 0) (Cartesian3.mk 2 4 6))
    in Hrun by (lia || reflexivity).
  injection Hrun as <- _. reflexivity.
Defined.

(** ** Blocks of a [flat_map] *)

Lemma skipn_flat_map_const {A B : Type} (f : A -> list B) (c : nat) (l : list A)
    (k : nat) :
  (forall a, List.length (f a) = c) ->
  skipn (k * c) (flat_map f l) = flat_map f (skipn k l).
Proof.
  intros H. revert l. induction k as [|k IH]; intros l; [reflexivity|].
  destruct l as [|a l]; cbn [flat_map skipn Nat.mul].
  - now rewrite skipn_nil.
  - rewrite skipn_app, H.
    rewrite skipn_all2 by (rewrite H; lia).
    replace (c + k * c - c)%nat with (k * c)%nat by lia. apply IH.
Qed.

Lemma skipn_nth_error {A : Type} (l : list A) (k : nat) {a : A} :
  nth_error l k = Some a -> exists l', skipn k l = a :: l'.
Proof.
  revert l. induction k as [|k IH]; intros [|b l] H; try discriminate.
  - injection H as ->. now exists l.
  - now apply IH.
Qed.

Lemma flat_map_block {A B : Type} (f : A -> list B) {c : nat} (l : list A)
    (k : nat) {a : A} :
  (forall a, List.length (f a) = c) ->
  nth_error l k = Some a ->
  exists rest, skipn (k * c) (flat_map f l) = f a ++ rest.
Proof.
  intros H Hk. rewrite skipn_flat_map_const by assumption.
  destruct (skipn_nth_error l k Hk) as [l' ->]. now exists (flat_map f l').
Qed.

Lemma nth_error_flat_map_const {A B : Type} (f : A -> list B) (c : nat)
    (l : list A) (k r : nat) (a : A) :
  (forall a, List.length (f a) = c) ->
  nth_error l k = Some a -> (r < c)%nat ->
  nth_error (flat_map f l) (k * c + r) = nth_error (f a) r.
Proof.
  intros H Hk Hr.
  destruct (flat_map_block f l k H Hk) as [rest Hrest].
  rewrite <- nth_error_skipn, Hrest.
  apply nth_error_app1. rewrite H. exact Hr.
Qed.

(** ** Pointwise reading of a face *)

Lemma nth_error_face_points (origin x y : Cartesian3.t) (P i j : Z) :
  (1 <= i <= P - 1)%Z -> (1 <= j <= P - 1)%Z ->
  nth_error (face_points origin x y P) (Z.to_nat ((j - 1) * (P - 1) + (i - 1)))
  = Some (grid_point origin x y P i j).
Proof.
  intros Hi Hj. unfold face_points.
  replace (Z.to_nat ((j - 1) * (P - 1) + (i - 1)))
    with (Z.to_nat (j - 1) * Z.to_nat (P - 1) + Z.to_nat (i - 1))%nat by nia.
  rewrite nth_error_flat_map_const with (a := j).
  - unfold row_points. rewrite nth_error_map.
    rewrite zrange_nth_error by lia.
    replace (1 + Z.of_nat (Z.to_nat (i - 1)))%Z with i by lia. reflexivity.
  - intros a. apply row_points_length.
  - rewrite zrange_nth_error by lia. f_equal. lia.
  - lia.
Qed.

Lemma face_triangles_cell (L B R T : JsArray.t nat) (P : Z) (base : nat) (j k : Z) :
  (1 <= j <= P)%Z -> (0 <= k < P)%Z ->
  firstn 6 (skipn (Z.to_nat (6 * ((j - 1) * P + k))) (face_triangles L B R T P base))
  = quad (grid_row L B R T P base (j - 1)) (grid_row L B R T P base j) k.
Proof.
  intros Hj Hk.
  replace (Z.to_nat (6 * ((j - 1) * P + k)))
    with (Z.to_nat k * 6 + Z.to_nat (j - 1) * (Z.to_nat P * 6))%nat by nia.
  rewrite <- skipn_skipn. unfold face_triangles.
  destruct (flat_map_block
              (fun j => row_triangles (grid_row L B R T P base (j - 1))
                                      (grid_row L B R T P base j) P)
              (zrange 1 (P + 1)) (Z.to_nat (j - 1)) (a := j)
              (fun a => row_triangles_length _ _ P)) as [rest ->].
  { rewrite zrange_nth_error by lia. f_equal. lia. }
  rewrite skipn_app. rewrite row_triangles_length.
  replace (Z.to_nat k * 6 - Z.to_nat P * 6)%nat with 0%nat by lia.
  cbn [skipn]. unfold row_triangles at 1.
  destruct (flat_map_block
              (quad (grid_row L B R T P base (j - 1)) (grid_row L B R T P base j))
              (zrange 0 P) (Z.to_nat k) (a := k) (c := 6%nat)
              (fun a => eq_refl)) as [rest' ->].
  { rewrite zrange_nth_error by lia. f_equal. lia. }
  reflexivity.
Qed.

Lemma interior_row_ends (L R : JsArray.t nat) (P : Z) (base : nat) (j : Z) :
  (1 <= P)%Z ->
  JsArray.get (interior_row L R P base j) 0 = JsArray.get L j
  /\ JsArray.get (interior_row L R P base j) P = JsArray.get R j.
Proof.
  intros HP. unfold interior_row. split; [reflexivity|].
  rewrite get_cons by lia. apply get_app_last.
  rewrite fresh_indices_length. lia.
Qed.

Lemma interior_row_column (L R : JsArray.t nat) (P : Z) (base : nat) (i j : Z) :
  (1 <= i <= P - 1)%Z -> (1 <= j <= P - 1)%Z ->
  JsArray.get (interior_row L R P base j) i
  = Some (base + Z.to_nat ((j - 1) * (P - 1) + (i - 1)))%nat.
Proof.
  intros Hi Hj. unfold interior_row. rewrite get_cons by lia.
  rewrite get_app1 by (rewrite fresh_indices_length; lia).
  rewrite get_fresh by lia. f_equal. nia.
Qed.

Lemma get_valid {bound : nat} {a : JsArray.t nat} (k : Z) :
  Forall (valid_index bound) a -> (0 <= k < Z.of_nat (List.length a))%Z ->
  valid_index bound (JsArray.get a k).
Proof.
  intros Hall Hk. unfold JsArray.get. destruct (Z.ltb_spec k 0); [lia|].
  destruct (nth_error a (Z.to_nat k)) as [v|] eqn:Hnth.
  - rewrite Forall_forall in Hall. apply Hall. eapply nth_error_In, Hnth.
  - apply nth_error_None in Hnth. lia.
Qed.

Lemma well_formed_lookup {positions : list Cartesian3.t} {P : Z}
    {e : JsArray.t nat} (k : Z) :
  well_formed_side positions P e -> (0 <= k <= P)%Z ->
  exists p, position_at positions (JsArray.get e k) = Some p.
Proof.
  intros [Hlen Hall] Hk. unfold JsArray.length in Hlen.
  destruct (get_valid k Hall ltac:(lia)) as (n & -> & Hn).
  cbn [position_at]. destruct (nth_error positions n) as [p|] eqn:Hp.
  - now exists p.
  - apply nth_error_None in Hp. lia.
Qed.

(** C6. For a face whose four bounding edge lists hold [P + 1] indices of
    [positions] each, with [origin], [x] and [y] the face's frame, the face
    tessellator appends the interior grid points row by row, the point of
    row [j] and column [i] being [origin + x * (i / P) + y * (j / P)], and
    appends to the index buffer, for each row [j = 1 .. P] and each cell
    [k = 0 .. P - 1], the triangles [(bottomRow[k], bottomRow[k+1],
    topRow[k+1])] and [(bottomRow[k], topRow[k+1], topRow[k])], in that
    order. Row [0] is the bottom edge, row [P] the top edge, and an interior
    row [j] runs from [leftEdge[j]] over the new points of that row to
    [rightEdge[j]]. *)
Theorem C6_addFaceTriangles (L B R T : JsArray.t nat) (P : Z)
    (positions : list Cartesian3.t) (indices : JsArray.t nat) :
  (1 <= P)%Z ->
  well_formed_side positions P L -> well_formed_side positions P B ->
  well_formed_side positions P R -> well_formed_side positions P T ->
  exists origin bx ty : Cartesian3.t,
    position_at positions (JsArray.get B 0) = Some origin
    /\ position_at positions (JsArray.get B P) = Some bx
    /\ position_at positions (JsArray.get T 0) = Some ty
    /\ let x := Cartesian3.subtract bx origin in
       let y := Cartesian3.subtract ty origin in
       let base := List.length positions in
       let row := grid_row L B R T P base in
       let added := face_points origin x y P in
       let triangles := face_triangles L B R T P base in
       addFaceTriangles L B R T P positions indices
       = Ok (positions ++ added, indices ++ triangles)
       /\ (Z.of_nat (List.length added) = (P - 1) * (P - 1))%Z
       /\ (forall i j : Z, (1 <= i <= P - 1)%Z -> (1 <= j <= P - 1)%Z ->
             let n := Z.to_nat ((j - 1) * (P - 1) + (i - 1)) in
             nth_error added n
             = Some (Cartesian3.add
                       (Cartesian3.add origin
                          (Cartesian3.multiplyByScalar x (IZR i / IZR P)))
                       (Cartesian3.multiplyByScalar y (IZR j / IZR P)))
             /\ JsArray.get (row j) i = Some (base + n)%nat)
       /\ row 0%Z = B /\ row P = T
       /\ (forall j : Z, (1 <= j <= P - 1)%Z ->
             JsArray.get (row j) 0 = JsArray.get L j
             /\ JsArray.get (row j) P = JsArray.get R j)
       /\ (Z.of_nat (List.length triangles) = 6 * (P * P))%Z
       /\ (forall j k : Z, (1 <= j <= P)%Z -> (0 <= k < P)%Z ->
             let bottomRow := row (j - 1)%Z in
             let topRow := row j in
             firstn 6 (skipn (Z.to_nat (6 * ((j - 1) * P + k))) triangles)
             = [JsArray.get bottomRow k; JsArray.get bottomRow (k + 1);
                JsArray.get topRow (k + 1);
                JsArray.get bottomRow k; JsArray.get topRow (k + 1);
                JsArray.get topRow k]).
Proof.
  intros HP HL HB HR HT.
  destruct (well_formed_lookup 0 HB ltac:(lia)) as [origin Ho].
  destruct (well_formed_lookup P HB ltac:(lia)) as [bx Hbx].
  destruct (well_formed_lookup 0 HT ltac:(lia)) as [ty Hty].
  exists origin, bx, ty. repeat (split; [assumption|]). cbv zeta.
  assert (HlenB : (JsArray.length B - 1 = P)%Z) by (destruct HB as [-> _]; lia).
  split.
  { apply addFaceTriangles_eq; try assumption. now rewrite HlenB. }
  split; [rewrite face_points_length by assumption; nia|].
  split.
  { intros i j Hi Hj. split.
    - now apply nth_error_face_points.
    - rewrite grid_row_interior by lia. now apply interior_row_column. }
  split; [reflexivity|]. split; [now apply grid_row_top|].
  split.
  { intros j Hj. rewrite grid_row_interior by lia. now apply interior_row_ends. }
  split; [rewrite face_triangles_length; nia|].
  intros j k Hj Hk. now apply face_triangles_cell.
Qed.

Lemma square_side_well_formed (a b c : nat) :
  (a < 8)%nat -> (b < 8)%nat -> (c < 8)%nat ->
  well_formed_side square_positions 2 [Some a; Some b; Some c].
Proof.
  intros Ha Hb Hc. split; [reflexivity|].
  repeat constructor; eexists; (split; [reflexivity | simpl; lia]).
Defined.

Lemma C6_addFaceTriangles_witness :
  (1 <= 2)%Z
  /\ well_formed_side square_positions 2 square_left
  /\ well_formed_side square_positions 2 square_bottom
  /\ well_formed_side square_positions 2 square_right
  /\ well_formed_side square_positions 2 square_top
  /\ exists added : list Cartesian3.t,
       addFaceTriangles square_left square_bottom square_right square_top 2
         square_positions []
       = Ok (square_positions ++ added,
             [Some 0; Some 4; Some 8; Some 0; Some 8; Some 7;
              Some 4; Some 1; Some 5; Some 4; Some 5; Some 8;
              Some 7; Some 8; Some 6; Some 7; Some 6; Some 3;
              Some 8; Some 5; Some 2; Some 8; Some 2; Some 6]%nat)
       /\ List.length added = 1%nat.
Proof.
  assert (HL : well_formed_side square_positions 2 square_left)
    by (apply square_side_well_formed; lia).
  assert (HB : well_formed_side square_positions 2 square_bottom)
    by (apply square_side_well_formed; lia).
  assert (HR : well_formed_side square_positions 2 square_right)
    by (apply square_side_well_formed; lia).
  assert (HT : well_formed_side square_positions 2 square_top)
    by (apply square_side_well_formed; lia).
  split; [lia|]. repeat (split; [assumption|]).
  destruct (C6_addFaceTriangles square_left square_bottom square_right square_top
              2 square_positions [] ltac:(lia) HL HB HR HT)
    as (origin & bx & ty & _ & _ & _ & Hrun & Hlen & _).
  eexists. split; [exact Hrun | lia].
Defined.

(** ** Validity of the indices *)

Lemma fresh_indices_valid (bound base n : nat) :
  (base + n <= bound)%nat -> Forall (valid_index bound) (fresh_indices base n).
Proof.
  intros H. unfold fresh_indices. apply Forall_forall. intros v Hv.
  apply in_map_iff in Hv. destruct Hv as (k & <- & Hk). apply in_seq in Hk.
  exists (base + k)%nat. split; [reflexivity | lia].
Qed.

Lemma grid_row_well_formed (positions : list Cartesian3.t) (L B R T : JsArray.t nat)
    (P : Z) (base : nat) (j : Z) :
  (1 <= P)%Z ->
  well_formed_side positions P L -> well_formed_side positions P B ->
  well_formed_side positions P R -> well_formed_side positions P T ->
  (base + interior P * interior P <= List.length positions)%nat ->
  (0 <= j <= P)%Z ->
  well_formed_side positions P (grid_row L B R T P base j).
Proof.
  intros HP HL HB HR HT Hbase Hj. unfold grid_row.
  destruct (Z.eqb_spec j 0); [assumption|].
  destruct (Z.eqb_spec j P); [assumption|].
  unfold interior_row, interior in *. split.
  - unfold JsArray.length. cbn [List.length].
    rewrite length_app, fresh_indices_length. cbn [List.length]. lia.
  - destruct HL as [HlenL HallL], HR as [HlenR HallR].
    unfold JsArray.length in HlenL, HlenR.
    constructor; [apply get_valid; [assumption | lia]|].
    apply Forall_app. split.
    + apply fresh_indices_valid. nia.
    + constructor; [apply get_valid; [assumption | lia] | constructor].
Qed.

Lemma face_triangles_valid (positions : list Cartesian3.t) (L B R T : JsArray.t nat)
    (P : Z) (base : nat) :
  (1 <= P)%Z ->
  well_formed_side positions P L -> well_formed_side positions P B ->
  well_formed_side positions P R -> well_formed_side positions P T ->
  (base + interior P * interior P <= List.length positions)%nat ->
  Forall (valid_index (List.length positions)) (face_triangles L B R T P base).
Proof.
  intros HP HL HB HR HT Hbase. unfold face_triangles.
  apply Forall_flat_map, Forall_forall. intros j Hj. apply zrange_In in Hj.
  unfold row_triangles.
  apply Forall_flat_map, Forall_forall. intros k Hk. apply zrange_In in Hk.
  destruct (grid_row_well_formed positions L B R T P base (j - 1) HP HL HB HR HT
              Hbase ltac:(lia))
    as [Hlen0 Hall0].
  destruct (grid_row_well_formed positions L B R T P base j HP HL HB HR HT
              Hbase ltac:(lia))
    as [Hlen1 Hall1].
  unfold JsArray.length in Hlen0, Hlen1.
  unfold quad. repeat constructor; apply get_valid; (assumption || lia).
Qed.

Lemma cube_edge_corners (e : nat) :
  (fst (cube_edge e) < 8)%nat /\ (snd (cube_edge e) < 8)%nat.
Proof.
  unfold cube_edge.
  do 12 (destruct e as [|e]; [cbn; lia|]). cbn. destruct e; cbn; lia.
Qed.

Lemma mesh_edge_well_formed (P : Z) (e : nat) :
  (1 <= P)%Z -> (e < 12)%nat ->
  well_formed_side (mesh_positions P) P (mesh_edge P e).
Proof.
  intros HP He. unfold mesh_edge. split.
  - unfold JsArray.length. rewrite edge_list_length. unfold interior. lia.
  - rewrite mesh_positions_length by assumption.
    destruct (cube_edge_corners e) as [H0 H1]. unfold edge_list.
    constructor; [eexists; split; [reflexivity | lia]|].
    apply Forall_app. split.
    + apply fresh_indices_valid. unfold edge_base. fold (interior P). nia.
    + constructor; [eexists; split; [reflexivity | lia] | constructor].
Qed.

Lemma side_list_well_formed (P : Z) (s : side) :
  (1 <= P)%Z -> (fst s < 12)%nat ->
  well_formed_side (mesh_positions P) P (side_list P s).
Proof.
  intros HP Hs. destruct (mesh_edge_well_formed P (fst s) HP Hs) as [Hlen Hall].
  unfold side_list. destruct (snd s); [|now split].
  unfold JsArray.reverse, JsArray.slice0, JsArray.length in *. split.
  - unfold JsArray.length. now rewrite length_rev.
  - now apply Forall_rev.
Qed.

Lemma cube_face_sides (f : nat) :
  (fst (face_left f) < 12)%nat /\ (fst (face_bottom f) < 12)%nat
  /\ (fst (face_right f) < 12)%nat /\ (fst (face_top f) < 12)%nat.
Proof.
  unfold face_left, face_bottom, face_right, face_top, cube_face.
  do 6 (destruct f as [|f]; [cbn; lia|]). cbn. destruct f; cbn; lia.
Qed.

Lemma mesh_indices_valid (P : Z) :
  (1 <= P)%Z ->
  Forall (valid_index (List.length (mesh_positions P))) (mesh_indices P).
Proof.
  intros HP. unfold mesh_indices.
  apply Forall_flat_map, Forall_forall. intros f Hf. apply in_seq in Hf.
  destruct (cube_face_sides f) as (Hl & Hb & Hr & Ht).
  unfold mesh_face_triangles.
  apply face_triangles_valid; try assumption; try now apply side_list_well_formed.
  rewrite mesh_positions_length by assumption. unfold face_base. nia.
Qed.

(** C9. For every partition count [P >= 1], every entry of the emitted
    index buffer is a number (never [undefined]) strictly smaller than the
    final length of the position list. *)
Theorem C9_indices_in_range (options : option Options.t) :
  let P := partitions_of options in
  (1 <= P)%Z ->
  exists (positions : list Cartesian3.t) (indices : JsArray.t nat) (g : Geometry.t),
    cubeMesh P = Ok (positions, indices)
    /\ EllipsoidGeometry options = Ok g
    /\ Geometry.indexLists g = [GeometryIndices.mk TRIANGLES indices]
    /\ Forall (fun v => exists n : nat, v = Some n /\ (n < List.length positions)%nat)
              indices.
Proof.
  intros P HP.
  exists (mesh_positions P), (mesh_indices P),
    (geometry_of options (mesh_positions P) (mesh_indices P)).
  split; [now apply cubeMesh_eq|].
  split; [now apply EllipsoidGeometry_eq|].
  split; [reflexivity|]. now apply mesh_indices_valid.
Qed.

Lemma C9_indices_in_range_witness :
  (1 <= 2)%Z
  /\ exists (positions : list Cartesian3.t) (indices : JsArray.t nat),
       cubeMesh 2 = Ok (positions, indices)
       /\ Forall (fun v => exists n : nat, v = Some n /\ (n < List.length positions)%nat)
                 indices.
Proof.
  split; [lia|].
  pose proof (C9_indices_in_range (Some (Options.mk None (Some 2%Z) None None None)))
    as H.
  cbv zeta in H. change (partitions_of _) with 2%Z in H.
  destruct (H ltac:(lia)) as (positions & indices & g & Hmesh & _ & _ & Hall).
  exists positions, indices. split; assumption.
Defined.

(** ** Validation of the arguments *)

(** C3, as the constructor has it. Construction throws the DeveloperError
    on the partition count exactly when that count is [<= 0], before any
    buffer exists; the radii are not examined, and for every partition count
    [>= 1] construction returns a geometry whatever the radii are. *)
Theorem C3_partitions_validated (options : option Options.t) :
  (partitions_of options <= 0)%Z
  /\ EllipsoidGeometry options
     = Throw (DeveloperError "options.numberOfPartitions must be greater than zero.")
  \/ (1 <= partitions_of options)%Z
     /\ exists g : Geometry.t, EllipsoidGeometry options = Ok g.
Proof.
  destruct (Z.leb_spec (partitions_of options) 0) as [Hle|Hgt].
  - left. split; [assumption|]. rewrite EllipsoidGeometry_unfold.
    destruct (Z.leb_spec (partitions_of options) 0); [reflexivity | lia].
  - right. split; [lia|]. eexists. apply EllipsoidGeometry_eq. lia.
Qed.

(** C3, as the specification words it, fails: an ellipsoid with a radius of
    zero is accepted. *)
Lemma C3_zero_radius_accepted :
  Cartesian3.x (Ellipsoid.radii (Ellipsoid.mk (Cartesian3.mk 0 1 1))) <= 0
  /\ exists g : Geometry.t,
       EllipsoidGeometry
         (Some (Options.mk (Some (Ellipsoid.mk (Cartesian3.mk 0 1 1))) (Some 1%Z)
                           (Some VertexFormat.POSITION_ONLY) None None))
       = Ok g.
Proof.
  split; [cbn; lra|]. eexists. apply EllipsoidGeometry_eq. cbv. discriminate.
Qed.

(** ** Vectors *)

Lemma magnitude_sq (c : Cartesian3.t) :
  Cartesian3.magnitude c * Cartesian3.magnitude c = norm2 c.
Proof.
  unfold Cartesian3.magnitude. apply sqrt_sqrt. unfold norm2.
  nra.
Qed.

Lemma magnitude_pos (c : Cartesian3.t) : 0 < norm2 c -> 0 < Cartesian3.magnitude c.
Proof. intros H. unfold Cartesian3.magnitude. now apply sqrt_lt_R0. Qed.

Lemma normalize_unit (c : Cartesian3.t) :
  0 < norm2 c -> Cartesian3.magnitude (Cartesian3.normalize c) = 1.
Proof.
  intros H. pose proof (magnitude_pos c H) as Hm.
  pose proof (magnitude_sq c) as Hsq. unfold norm2 in Hsq.
  unfold Cartesian3.normalize.
  unfold Cartesian3.magnitude at 1. cbn [Cartesian3.x Cartesian3.y Cartesian3.z].
  apply sqrt_lem_1; [|lra|].
  - nra.
  - set (m := Cartesian3.magnitude c) in *.
    transitivity ((Cartesian3.x c * Cartesian3.x c + Cartesian3.y c * Cartesian3.y c
                   + Cartesian3.z c * Cartesian3.z c) / (m * m)).
    + rewrite <- Hsq. field. lra.
    + field. lra.
Qed.

Lemma multiplyComponents_ones (c : Cartesian3.t) :
  Cartesian3.multiplyComponents c (Cartesian3.mk 1 1 1) = c.
Proof.
  destruct c as [x y z]. unfold Cartesian3.multiplyComponents.
  cbn [Cartesian3.x Cartesian3.y Cartesian3.z]. f_equal; ring.
Qed.

(** ** The mesh for one partition *)

Lemma mesh_positions_1 : mesh_positions 1 = corners.
Proof.
  unfold mesh_positions, mesh_edge_points, mesh_face_points, edge_points,
    face_points.
  rewrite (zrange_nil 1 1) by lia. cbn [map flat_map seq app].
  now rewrite app_nil_r.
Qed.





(** ** The attribute passes *)

Lemma buildAttributes_eq (e : Ellipsoid.t) (vf : VertexFormat.t)
    (positions : list Cartesian3.t) :
  buildAttributes e vf positions
  = (passed_positions e vf positions,
     let ps := passed_positions e vf positions in
     Attributes.mk
       (if VertexFormat.position vf
        then Some (GeometryAttribute.mk FLOAT 3 (snd (expandPositions e positions)))
        else None)
       (if VertexFormat.st vf
        then Some (GeometryAttribute.mk FLOAT 2 (computeTexCoords e ps)) else None)
       (if VertexFormat.normal vf
        then Some (GeometryAttribute.mk FLOAT 3 (fst (fst (computeFrames e ps))))
        else None)
       (if VertexFormat.tangent vf
        then Some (GeometryAttribute.mk FLOAT 3 (snd (fst (computeFrames e ps))))
        else None)
       (if VertexFormat.binormal vf
        then Some (GeometryAttribute.mk FLOAT 3 (snd (computeFrames e ps)))
        else None)).
Proof.
  unfold buildAttributes, passed_positions.
  destruct vf as [[] [] [] [] []]; reflexivity.
Qed.

Lemma vertex3_flat_map {A : Type} (h : A -> Cartesian3.t) (l : list A) (i : nat)
    {a : A} :
  nth_error l i = Some a ->
  vertex3 (flat_map (fun f => flatten3 (h f)) l) i = flatten3 (h a).
Proof.
  intros H. unfold vertex3. replace (3 * i)%nat with (i * 3)%nat by lia.
  destruct (flat_map_block (fun f => flatten3 (h f)) l i (c := 3%nat)
              (fun a => eq_refl) H) as [rest ->].
  reflexivity.
Qed.

Lemma computeFrames_vertex (e : Ellipsoid.t) (positions : list Cartesian3.t)
    (i : nat) (p : Cartesian3.t) :
  nth_error positions i = Some p ->
  let normal := Ellipsoid.geodeticSurfaceNormal e p in
  let tangent := Cartesian3.cross Cartesian3.UNIT_Z normal in
  let binormal := Cartesian3.cross normal tangent in
  vertex3 (fst (fst (computeFrames e positions))) i = flatten3 normal
  /\ vertex3 (snd (fst (computeFrames e positions))) i = flatten3 tangent
  /\ vertex3 (snd (computeFrames e positions)) i = flatten3 binormal.
Proof.
  intros H. cbv zeta. unfold computeFrames. cbn [fst snd].
  assert (Hf : nth_error (map (vertexFrame e) positions) i = Some (vertexFrame e p))
    by (rewrite nth_error_map, H; reflexivity).
  repeat split.
  - now rewrite (vertex3_flat_map (fun f => fst (fst f)) _ i Hf).
  - now rewrite (vertex3_flat_map (fun f => snd (fst f)) _ i Hf).
  - now rewrite (vertex3_flat_map (fun f => snd f) _ i Hf).
Qed.

(** ** Normals on concrete vertices *)

Lemma norm2_normalize (c : Cartesian3.t) :
  0 < norm2 c -> norm2 (Cartesian3.normalize c) = 1.
Proof.
  intros H. rewrite <- magnitude_sq, normalize_unit by assumption. ring.
Qed.

Lemma normalize_sq (c : Cartesian3.t) :
  0 < norm2 c ->
  let n := Cartesian3.normalize c in
  Cartesian3.x n * Cartesian3.x n = Cartesian3.x c * Cartesian3.x c / norm2 c
  /\ Cartesian3.y n * Cartesian3.y n = Cartesian3.y c * Cartesian3.y c / norm2 c
  /\ Cartesian3.z n * Cartesian3.z n = Cartesian3.z c * Cartesian3.z c / norm2 c.
Proof.
  intros H. cbv zeta. pose proof (magnitude_pos c H) as Hm.
  rewrite <- (magnitude_sq c). unfold Cartesian3.normalize.
  cbn [Cartesian3.x Cartesian3.y Cartesian3.z].
  repeat split; field; lra.
Qed.

Lemma norm2_cross_unit_z (n : Cartesian3.t) :
  norm2 (Cartesian3.cross Cartesian3.UNIT_Z n)
  = Cartesian3.x n * Cartesian3.x n + Cartesian3.y n * Cartesian3.y n.
Proof.
  unfold norm2, Cartesian3.cross, Cartesian3.UNIT_Z.
  cbn [Cartesian3.x Cartesian3.y Cartesian3.z]. ring.
Qed.

Lemma geodetic_unit_sphere (p : Cartesian3.t) :
  Ellipsoid.geodeticSurfaceNormal Ellipsoid.UNIT_SPHERE p = Cartesian3.normalize p.
Proof.
  unfold Ellipsoid.geodeticSurfaceNormal, Ellipsoid.oneOverRadiiSquared,
    Ellipsoid.UNIT_SPHERE.
  cbn [Ellipsoid.radii Cartesian3.x Cartesian3.y Cartesian3.z].
  replace (/ (1 * 1)) with 1 by field.
  now rewrite multiplyComponents_ones.
Qed.

Lemma vertex3_head (values : list R) (a b c : R) :
  vertex3 values 0 = [a; b; c] -> nth 0 values 0 = a.
Proof.
  unfold vertex3. cbn [Nat.mul skipn]. destruct values as [|v values]; cbn.
  - discriminate.
  - intros H. now injection H.
Qed.

(** C4, as the specification words it, fails at the first vertex of the
    unit sphere with one partition: the emitted tangent has squared length
    [1/2], so it is not the normalized cross product. *)
Lemma C4_tangent_not_normalized :
  exists (g : Geometry.t) (normals tangents : list R) (n t : Cartesian3.t),
    EllipsoidGeometry
      (Some (Options.mk None (Some 1%Z)
                        (Some (VertexFormat.mk false true false true true)) None None))
    = Ok g
    /\ Attributes.normal (Geometry.attributes g)
       = Some (GeometryAttribute.mk FLOAT 3 normals)
    /\ Attributes.tangent (Geometry.attributes g)
       = Some (GeometryAttribute.mk FLOAT 3 tangents)
    /\ vertex3 normals 0 = flatten3 n
    /\ vertex3 tangents 0 = flatten3 t
    /\ norm2 t = 1 / 2
    /\ t <> Cartesian3.normalize (Cartesian3.cross Cartesian3.UNIT_Z n).
Proof.
  set (options := Some (Options.mk None (Some 1%Z)
                          (Some (VertexFormat.mk false true false true true))
                          None None)).
  set (p := Cartesian3.mk (-1) 0 (-1)).
  set (n := Ellipsoid.geodeticSurfaceNormal Ellipsoid.UNIT_SPHERE p).
  set (t := Cartesian3.cross Cartesian3.UNIT_Z n).
  assert (Hp : nth_error corners 0 = Some p) by reflexivity.
  destruct (computeFrames_vertex Ellipsoid.UNIT_SPHERE corners 0 p Hp)
    as (Hn & Ht & _).
  assert (Hnorm : norm2 t = 1 / 2).
  { unfold t. rewrite norm2_cross_unit_z. unfold n.
    rewrite geodetic_unit_sphere.
    assert (H2 : norm2 p = 2) by (unfold norm2, p; cbn; ring).
    destruct (normalize_sq p) as (Hx & Hy & _); [lra|].
    rewrite Hx, Hy, H2. unfold p. cbn [Cartesian3.x Cartesian3.y]. field. }
  eexists. exists (fst (fst (computeFrames Ellipsoid.UNIT_SPHERE corners))),
    (snd (fst (computeFrames Ellipsoid.UNIT_SPHERE corners))), n, t.
  split; [apply EllipsoidGeometry_eq; cbv; discriminate|].
  change (partitions_of options) with 1%Z. rewrite mesh_positions_1.
  unfold geometry_of. cbn [Geometry.attributes]. rewrite buildAttributes_eq.
  repeat (split; [first [reflexivity | assumption]|]).
  intros Heq. apply (f_equal norm2) in Heq.
  fold t in Heq. rewrite norm2_normalize in Heq; lra.
Qed.

(** C2 does not hold on the constructor. For the ellipsoid with radii
    [(2, 1, 1)] and one partition, the normal emitted for the first vertex
    depends on whether the position attribute is requested too: its first
    component has square [1/5] when it is, [1/17] when it is not. *)
Theorem C2_normals_depend_on_position :
  let e := Ellipsoid.mk (Cartesian3.mk 2 1 1) in
  let withPosition :=
    Some (Options.mk (Some e) (Some 1%Z)
                     (Some (VertexFormat.mk true true false false false)) None None) in
  let withoutPosition :=
    Some (Options.mk (Some e) (Some 1%Z)
                     (Some (VertexFormat.mk false true false false false)) None None) in
  exists (g1 g2 : Geometry.t) (normals1 normals2 : list R),
    EllipsoidGeometry withPosition = Ok g1
    /\ EllipsoidGeometry withoutPosition = Ok g2
    /\ Attributes.normal (Geometry.attributes g1)
       = Some (GeometryAttribute.mk FLOAT 3 normals1)
    /\ Attributes.normal (Geometry.attributes g2)
       = Some (GeometryAttribute.mk FLOAT 3 normals2)
    /\ nth 0 normals1 0 * nth 0 normals1 0 = 1 / 5
    /\ nth 0 normals2 0 * nth 0 normals2 0 = 1 / 17
    /\ normals1 <> normals2.
Proof.
  intros e withPosition withoutPosition.
  set (p := Cartesian3.mk (-1) 0 (-1)).
  set (radii := Cartesian3.mk 2 1 1).
  set (p' := Cartesian3.multiplyComponents (Cartesian3.normalize p) radii).
  set (ps1 := fst (expandPositions e corners)).
  assert (Hp1 : nth_error ps1 0 = Some p') by reflexivity.
  assert (Hp2 : nth_error corners 0 = Some p) by reflexivity.
  destruct (computeFrames_vertex e ps1 0 p' Hp1) as (Hn1 & _).
  destruct (computeFrames_vertex e corners 0 p Hp2) as (Hn2 & _).
  apply vertex3_head in Hn1, Hn2.
  assert (H2 : norm2 p = 2) by (unfold norm2, p; cbn; ring).
  destruct (normalize_sq p) as (Hx & Hy & Hz); [lra|].
  rewrite H2 in Hx, Hy, Hz.
  change (Cartesian3.x p) with (-1) in Hx.
  change (Cartesian3.y p) with 0 in Hy.
  change (Cartesian3.z p) with (-1) in Hz.
  set (a := Cartesian3.x (Cartesian3.normalize p)) in *.
  set (b := Cartesian3.y (Cartesian3.normalize p)) in *.
  set (c := Cartesian3.z (Cartesian3.normalize p)) in *.
  assert (Hsq1 : nth 0 (fst (fst (computeFrames e ps1))) 0
                 * nth 0 (fst (fst (computeFrames e ps1))) 0 = 1 / 5).
  { rewrite Hn1. unfold Ellipsoid.geodeticSurfaceNormal.
    set (v := Cartesian3.multiplyComponents p' (Ellipsoid.oneOverRadiiSquared e)).
    assert (Hvx : Cartesian3.x v * Cartesian3.x v = 1 / 8).
    { unfold v, p', radii, e, Ellipsoid.oneOverRadiiSquared,
        Cartesian3.multiplyComponents.
      cbn [Ellipsoid.radii Cartesian3.x Cartesian3.y Cartesian3.z]. fold a.
      replace (a * 2 * / (2 * 2) * (a * 2 * / (2 * 2))) with (a * a / 4) by field.
      rewrite Hx. field. }
    assert (Hv : norm2 v = 5 / 8).
    { unfold norm2 at 1. rewrite Hvx.
      unfold v, p', radii, e, Ellipsoid.oneOverRadiiSquared,
        Cartesian3.multiplyComponents.
      cbn [Ellipsoid.radii Cartesian3.x Cartesian3.y Cartesian3.z]. fold b c.
      replace (b * 1 * / (1 * 1) * (b * 1 * / (1 * 1))) with (b * b) by field.
      replace (c * 1 * / (1 * 1) * (c * 1 * / (1 * 1))) with (c * c) by field.
      rewrite Hy, Hz. field. }
    destruct (normalize_sq v) as (Hnx & _); [lra|].
    rewrite Hnx, Hvx, Hv. field. }
  assert (Hsq2 : nth 0 (fst (fst (computeFrames e corners))) 0
                 * nth 0 (fst (fst (computeFrames e corners))) 0 = 1 / 17).
  { rewrite Hn2. unfold Ellipsoid.geodeticSurfaceNormal.
    set (v := Cartesian3.multiplyComponents p (Ellipsoid.oneOverRadiiSquared e)).
    assert (Hvx : Cartesian3.x v * Cartesian3.x v = 1 / 16)
      by (unfold v, p, e; cbn; field).
    assert (Hv : norm2 v = 17 / 16) by (unfold norm2, v, p, e; cbn; field).
    destruct (normalize_sq v) as (Hnx & _); [lra|].
    rewrite Hnx, Hvx, Hv. field. }
  exists (geometry_of withPosition (mesh_positions 1) (mesh_indices 1)),
    (geometry_of withoutPosition (mesh_positions 1) (mesh_indices 1)),
    (fst (fst (computeFrames e ps1))), (fst (fst (computeFrames e corners))).
  split; [apply EllipsoidGeometry_eq; cbv; discriminate|].
  split; [apply EllipsoidGeometry_eq; cbv; discriminate|].
  rewrite mesh_positions_1. unfold geometry_of. cbn [Geometry.attributes].
  rewrite !buildAttributes_eq.
  split; [reflexivity|]. split; [reflexivity|].
  split; [assumption|]. split; [assumption|].
  intros Heq. rewrite Heq in Hsq1. lra.
Qed.

(** ** The centres of the caps *)

Lemma half_fraction (P : Z) :
  Z.even P = true -> (2 <= P)%Z -> IZR (P / 2) / IZR P = 1 / 2.
Proof.
  intros He HP. apply Z.even_spec in He. destruct He as [m ->].
  replace (2 * m / 2)%Z with m by (rewrite Z.mul_comm, Z.div_mul; lia).
  rewrite mult_IZR. assert (0 < IZR m) by (apply IZR_lt; lia).
  field. lra.
Qed.

Lemma half_bounds (P : Z) :
  Z.even P = true -> (2 <= P)%Z -> (1 <= P / 2 <= P - 1)%Z.
Proof.
  intros He HP. apply Z.even_spec in He. destruct He as [m ->].
  replace (2 * m / 2)%Z with m by (rewrite Z.mul_comm, Z.div_mul; lia). lia.
Qed.

Lemma top_centre (P : Z) :
  Z.even P = true -> (2 <= P)%Z ->
  grid_point (face_origin 4) (face_x 4) (face_y 4) P (P / 2) (P / 2)
  = Cartesian3.mk 0 0 1.
Proof.
  intros He HP. unfold grid_point. rewrite half_fraction by assumption.
  unfold face_origin, face_x, face_y, Cartesian3.add, Cartesian3.multiplyByScalar,
    Cartesian3.subtract.
  cbn. f_equal; field.
Qed.

Lemma bottom_centre (P : Z) :
  Z.even P = true -> (2 <= P)%Z ->
  grid_point (face_origin 5) (face_x 5) (face_y 5) P (P / 2) (P / 2)
  = Cartesian3.mk 0 0 (-1).
Proof.
  intros He HP. unfold grid_point. rewrite half_fraction by assumption.
  unfold face_origin, face_x, face_y, Cartesian3.add, Cartesian3.multiplyByScalar,
    Cartesian3.subtract.
  cbn. f_equal; field.
Qed.

Lemma nth_error_mesh_face (P : Z) (f k : nat) :
  (1 <= P)%Z -> (f < 6)%nat -> (k < interior P * interior P)%nat ->
  nth_error (mesh_positions P) (face_base P f + k)
  = nth_error (mesh_face_points P f) k.
Proof.
  intros HP Hf Hk. unfold mesh_positions, face_base.
  rewrite nth_error_app2 by (simpl; lia).
  assert (Hedges : List.length (flat_map (mesh_edge_points P) (seq 0 12))
                   = (12 * interior P)%nat).
  { rewrite flat_map_length_const with (c := interior P)
      by (intros e; apply edge_points_length).
    now rewrite length_seq. }
  change (List.length corners) with 8%nat.
  rewrite nth_error_app2 by (rewrite Hedges; nia). rewrite Hedges.
  replace (8 + 12 * interior P + f * (interior P * interior P) + k
           - 8 - 12 * interior P)%nat
    with (f * (interior P * interior P) + k)%nat by nia.
  apply nth_error_flat_map_const.
  - intros a. unfold mesh_face_points. now apply face_points_interior.
  - rewrite nth_error_seq. destruct (Nat.ltb_spec f 6); [reflexivity | lia].
  - assumption.
Qed.

Lemma cap_centre_index (P : Z) (f : nat) :
  Z.even P = true -> (2 <= P)%Z -> (f < 6)%nat ->
  nth_error (mesh_positions P)
    (face_base P f + Z.to_nat ((P / 2 - 1) * (P - 1) + (P / 2 - 1)))
  = Some (grid_point (face_origin f) (face_x f) (face_y f) P (P / 2) (P / 2)).
Proof.
  intros He HP Hf. pose proof (half_bounds P He HP) as Hh.
  rewrite nth_error_mesh_face; [| lia | assumption | unfold interior; nia].
  unfold mesh_face_points. apply nth_error_face_points; assumption.
Qed.

Lemma normalize_axis_up (c : Cartesian3.t) :
  Cartesian3.x c = 0 -> Cartesian3.y c = 0 -> 0 < Cartesian3.z c ->
  Cartesian3.normalize c = Cartesian3.mk 0 0 1.
Proof.
  intros Hx Hy Hz. unfold Cartesian3.normalize, Cartesian3.magnitude.
  rewrite Hx, Hy.
  replace (0 * 0 + 0 * 0 + Cartesian3.z c * Cartesian3.z c)
    with (Cartesian3.z c * Cartesian3.z c) by ring.
  rewrite sqrt_square by lra. f_equal; field; lra.
Qed.

Lemma normalize_axis_down (c : Cartesian3.t) :
  Cartesian3.x c = 0 -> Cartesian3.y c = 0 -> Cartesian3.z c < 0 ->
  Cartesian3.normalize c = Cartesian3.mk 0 0 (-1).
Proof.
  intros Hx Hy Hz. unfold Cartesian3.normalize, Cartesian3.magnitude.
  rewrite Hx, Hy.
  replace (0 * 0 + 0 * 0 + Cartesian3.z c * Cartesian3.z c)
    with (- Cartesian3.z c * - Cartesian3.z c) by ring.
  rewrite sqrt_square by lra. f_equal; field; lra.
Qed.

Lemma passed_positions_nth (e : Ellipsoid.t) (vf : VertexFormat.t)
    (cube : list Cartesian3.t) (i : nat) (p : Cartesian3.t) :
  nth_error cube i = Some p ->
  nth_error (passed_positions e vf cube) i
  = Some (if VertexFormat.position vf
          then Cartesian3.multiplyComponents (Cartesian3.normalize p)
                 (Ellipsoid.getRadii e)
          else p).
Proof.
  intros H. unfold passed_positions, expandPositions.
  destruct (VertexFormat.position vf); [|assumption].
  cbn [fst]. now rewrite nth_error_map, H.
Qed.

Section Poles.

Variable e : Ellipsoid.t.
Hypothesis Hrz : 0 < Cartesian3.z (Ellipsoid.radii e).

Lemma geodetic_pole_up (p : Cartesian3.t) :
  Cartesian3.x p = 0 -> Cartesian3.y p = 0 -> 0 < Cartesian3.z p ->
  Ellipsoid.geodeticSurfaceNormal e p = Cartesian3.mk 0 0 1.
Proof.
  intros Hx Hy Hz. unfold Ellipsoid.geodeticSurfaceNormal.
  apply normalize_axis_up; unfold Cartesian3.multiplyComponents,
    Ellipsoid.oneOverRadiiSquared; cbn [Cartesian3.x Cartesian3.y Cartesian3.z].
  - rewrite Hx. ring.
  - rewrite Hy. ring.
  - apply Rmult_lt_0_compat; [assumption|].
    apply Rinv_0_lt_compat. nra.
Qed.

Lemma geodetic_pole_down (p : Cartesian3.t) :
  Cartesian3.x p = 0 -> Cartesian3.y p = 0 -> Cartesian3.z p < 0 ->
  Ellipsoid.geodeticSurfaceNormal e p = Cartesian3.mk 0 0 (-1).
Proof.
  intros Hx Hy Hz. unfold Ellipsoid.geodeticSurfaceNormal.
  apply normalize_axis_down; unfold Cartesian3.multiplyComponents,
    Ellipsoid.oneOverRadiiSquared; cbn [Cartesian3.x Cartesian3.y Cartesian3.z].
  - rewrite Hx. ring.
  - rewrite Hy. ring.
  - assert (0 < / (Cartesian3.z (Ellipsoid.radii e) * Cartesian3.z (Ellipsoid.radii e)))
      by (apply Rinv_0_lt_compat; nra).
    nra.
Qed.

(** The vertex the passes see for the cube point [(0, 0, 1)]. *)
Lemma passed_pole_up (vf : VertexFormat.t) :
  let p := if VertexFormat.position vf
           then Cartesian3.multiplyComponents
                  (Cartesian3.normalize (Cartesian3.mk 0 0 1)) (Ellipsoid.getRadii e)
           else Cartesian3.mk 0 0 1 in
  Ellipsoid.geodeticSurfaceNormal e p = Cartesian3.mk 0 0 1.
Proof.
  cbv zeta. apply geodetic_pole_up; destruct (VertexFormat.position vf);
    try rewrite normalize_axis_up by (cbn; lra);
    unfold Cartesian3.multiplyComponents, Ellipsoid.getRadii;
    cbn [Cartesian3.x Cartesian3.y Cartesian3.z]; lra.
Qed.

Lemma passed_pole_down (vf : VertexFormat.t) :
  let p := if VertexFormat.position vf
           then Cartesian3.multiplyComponents
                  (Cartesian3.normalize (Cartesian3.mk 0 0 (-1)))
                  (Ellipsoid.getRadii e)
           else Cartesian3.mk 0 0 (-1) in
  Ellipsoid.geodeticSurfaceNormal e p = Cartesian3.mk 0 0 (-1).
Proof.
  cbv zeta. apply geodetic_pole_down; destruct (VertexFormat.position vf);
    try rewrite normalize_axis_down by (cbn; lra);
    unfold Cartesian3.multiplyComponents, Ellipsoid.getRadii;
    cbn [Cartesian3.x Cartesian3.y Cartesian3.z]; lra.
Qed.

End Poles.

Lemma cross_up_axis (s : R) :
  Cartesian3.cross Cartesian3.UNIT_Z (Cartesian3.mk 0 0 s) = Cartesian3.ZERO.
Proof.
  unfold Cartesian3.cross, Cartesian3.UNIT_Z, Cartesian3.ZERO.
  cbn [Cartesian3.x Cartesian3.y Cartesian3.z]. f_equal; ring.
Qed.

Lemma cross_zero (n : Cartesian3.t) :
  Cartesian3.cross n Cartesian3.ZERO = Cartesian3.ZERO.
Proof.
  unfold Cartesian3.cross, Cartesian3.ZERO.
  cbn [Cartesian3.x Cartesian3.y Cartesian3.z]. f_equal; ring.
Qed.

Lemma face_triangles_top_right (L B R T : JsArray.t nat) (P : Z) (base : nat)
    (j k : Z) :
  (1 <= j <= P)%Z -> (0 <= k < P)%Z ->
  In (JsArray.get (grid_row L B R T P base j) (k + 1)) (face_triangles L B R T P base).
Proof.
  intros Hj Hk. unfold face_triangles. apply in_flat_map.
  exists j. split; [apply zrange_In; lia|].
  unfold row_triangles. apply in_flat_map.
  exists k. split; [apply zrange_In; lia|].
  unfold quad. cbn [In]. auto.
Qed.

Lemma cap_centre_referenced (P : Z) (f : nat) :
  Z.even P = true -> (2 <= P)%Z ->
  In (Some (face_base P f + Z.to_nat ((P / 2 - 1) * (P - 1) + (P / 2 - 1)))%nat)
     (mesh_face_triangles P f).
Proof.
  intros He HP. pose proof (half_bounds P He HP) as Hh.
  unfold mesh_face_triangles.
  rewrite <- (interior_row_column (side_list P (face_left f))
                (side_list P (face_right f)) P (face_base P f) (P / 2) (P / 2))
    by assumption.
  rewrite <- (grid_row_interior _ (side_list P (face_bottom f)) _
                (side_list P (face_top f))) by lia.
  replace (P / 2)%Z with ((P / 2 - 1) + 1)%Z at 2 by lia.
  apply face_triangles_top_right; lia.
Qed.

(** C10. For every even partition count [P >= 2] and positive radii, the
    top cap (the fifth face) has the interior vertex of grid cell
    [i = j = P / 2] at cube-space [(0, 0, 1)] and the bottom cap (the sixth
    face) has it at [(0, 0, -1)]; the geodetic normal emitted for them is
    [(0, 0, 1)] and [(0, 0, -1)], parallel to [UNIT_Z], and the tangent and
    the binormal emitted for them are the zero vector. *)
Theorem C10_cap_centres (options : option Options.t) :
  let P := partitions_of options in
  let e := ellipsoid_of options in
  let vf := format_of options in
  let cell := Z.to_nat ((P / 2 - 1) * (P - 1) + (P / 2 - 1)) in
  let top := (face_base P 4 + cell)%nat in
  let bottom := (face_base P 5 + cell)%nat in
  Z.even P = true -> (2 <= P)%Z ->
  0 < Cartesian3.x (Ellipsoid.radii e) ->
  0 < Cartesian3.y (Ellipsoid.radii e) ->
  0 < Cartesian3.z (Ellipsoid.radii e) ->
  exists (cube : list Cartesian3.t) (indices : JsArray.t nat) (g : Geometry.t),
    cubeMesh P = Ok (cube, indices)
    /\ EllipsoidGeometry options = Ok g
    /\ nth_error cube top = Some (Cartesian3.mk 0 0 1)
    /\ nth_error cube bottom = Some (Cartesian3.mk 0 0 (-1))
    /\ In (Some top) (mesh_face_triangles P 4)
    /\ In (Some bottom) (mesh_face_triangles P 5)
    /\ (VertexFormat.normal vf = true ->
        exists values,
          Attributes.normal (Geometry.attributes g)
          = Some (GeometryAttribute.mk FLOAT 3 values)
          /\ vertex3 values top = [0; 0; 1] /\ vertex3 values bottom = [0; 0; -1])
    /\ (VertexFormat.tangent vf = true ->
        exists values,
          Attributes.tangent (Geometry.attributes g)
          = Some (GeometryAttribute.mk FLOAT 3 values)
          /\ vertex3 values top = [0; 0; 0] /\ vertex3 values bottom = [0; 0; 0])
    /\ (VertexFormat.binormal vf = true ->
        exists values,
          Attributes.binormal (Geometry.attributes g)
          = Some (GeometryAttribute.mk FLOAT 3 values)
          /\ vertex3 values top = [0; 0; 0] /\ vertex3 values bottom = [0; 0; 0]).
Proof.
  intros P e vf cell top bottom He HP _ _ Hrz.
  exists (mesh_positions P), (mesh_indices P),
    (geometry_of options (mesh_positions P) (mesh_indices P)).
  assert (Htop : nth_error (mesh_positions P) top = Some (Cartesian3.mk 0 0 1)).
  { unfold top, cell. rewrite cap_centre_index by (assumption || lia).
    now rewrite top_centre. }
  assert (Hbot : nth_error (mesh_positions P) bottom = Some (Cartesian3.mk 0 0 (-1))).
  { unfold bottom, cell. rewrite cap_centre_index by (assumption || lia).
    now rewrite bottom_centre. }
  split; [apply cubeMesh_eq; lia|]. split; [apply EllipsoidGeometry_eq; lia|].
  split; [assumption|]. split; [assumption|].
  split; [now apply cap_centre_referenced|].
  split; [now apply cap_centre_referenced|].
  apply (passed_positions_nth e vf) in Htop, Hbot.
  destruct (computeFrames_vertex e _ top _ Htop) as (Hn1 & Ht1 & Hb1).
  destruct (computeFrames_vertex e _ bottom _ Hbot) as (Hn2 & Ht2 & Hb2).
  rewrite (passed_pole_up e Hrz vf) in Hn1, Ht1, Hb1.
  rewrite (passed_pole_down e Hrz vf) in Hn2, Ht2, Hb2.
  rewrite cross_up_axis in Ht1, Hb1, Ht2, Hb2. rewrite cross_zero in Hb1, Hb2.
  unfold geometry_of. cbn [Geometry.attributes].
  fold P e vf. rewrite buildAttributes_eq. cbn [snd].
  cbn [Attributes.normal Attributes.tangent Attributes.binormal].
  repeat split; intros ->; eexists; (split; [reflexivity|]); split; assumption.
Qed.

Lemma C10_cap_centres_witness :
  Z.even 2 = true /\ (2 <= 2)%Z
  /\ 0 < Cartesian3.x (Ellipsoid.radii Ellipsoid.UNIT_SPHERE)
  /\ 0 < Cartesian3.y (Ellipsoid.radii Ellipsoid.UNIT_SPHERE)
  /\ 0 < Cartesian3.z (Ellipsoid.radii Ellipsoid.UNIT_SPHERE)
  /\ exists (cube : list Cartesian3.t) (indices : JsArray.t nat),
       cubeMesh 2 = Ok (cube, indices)
       /\ nth_error cube 24 = Some (Cartesian3.mk 0 0 1)
       /\ nth_error cube 25 = Some (Cartesian3.mk 0 0 (-1)).
Proof.
  assert (H1 : 0 < 1) by lra.
  split; [reflexivity|]. split; [lia|]. repeat (split; [exact H1|]).
  pose proof (C10_cap_centres (Some (Options.mk None (Some 2%Z) None None None)))
    as H.
  cbv zeta in H. change (partitions_of _) with 2%Z in H.
  destruct (H eq_refl ltac:(lia) H1 H1 H1)
    as (cube & indices & g & Hmesh & _ & Htop & Hbot & _).
  exists cube, indices. repeat split; assumption.
Defined.

(** ** No two positions coincide

    A corner, a point strictly inside an edge and a point strictly inside a
    face are told apart by linear arithmetic on their coordinates; within an
    edge or a face the parameters determine the point. *)

Ltac cases_below n := repeat (destruct n as [|n]; [| try lia]); try lia.

Ltac coordinates :=
  cbv [on_edge on_face segment_point frame_point face_origin face_x face_y
       face_bottom face_top side_first side_last cube_face cube_faces
       cube_edge cube_edges corner corners nth fst snd
       Cartesian3.add Cartesian3.subtract Cartesian3.multiplyByScalar
       Cartesian3.x Cartesian3.y Cartesian3.z Cartesian3.ZERO] in *.

Ltac by_coordinates H :=
  coordinates; injection H; intros; first [lra | split; lra].

Lemma on_edge_unique (e e' : nat) (p : Cartesian3.t) :
  (e < 12)%nat -> (e' < 12)%nat -> on_edge e p -> on_edge e' p -> e = e'.
Proof.
  intros He He' (t & Ht & ->) (t' & Ht' & Heq).
  cases_below e; cases_below e';
    first [reflexivity | exfalso; by_coordinates Heq].
Qed.

Lemma on_face_unique (f f' : nat) (p : Cartesian3.t) :
  (f < 6)%nat -> (f' < 6)%nat -> on_face f p -> on_face f' p -> f = f'.
Proof.
  intros Hf Hf' (s & u & Hs & Hu & ->) (s' & u' & Hs' & Hu' & Heq).
  cases_below f; cases_below f';
    first [reflexivity | exfalso; by_coordinates Heq].
Qed.

Lemma corner_not_on_edge (i e : nat) :
  (i < 8)%nat -> (e < 12)%nat -> ~ on_edge e (corner i).
Proof.
  intros Hi He (t & Ht & Heq).
  cases_below i; cases_below e; by_coordinates Heq.
Qed.

Lemma corner_not_on_face (i f : nat) :
  (i < 8)%nat -> (f < 6)%nat -> ~ on_face f (corner i).
Proof.
  intros Hi Hf (s & u & Hs & Hu & Heq).
  cases_below i; cases_below f; by_coordinates Heq.
Qed.

Lemma edge_not_on_face (e f : nat) (p : Cartesian3.t) :
  (e < 12)%nat -> (f < 6)%nat -> on_edge e p -> ~ on_face f p.
Proof.
  intros He Hf (t & Ht & ->) (s & u & Hs & Hu & Heq).
  cases_below e; cases_below f; by_coordinates Heq.
Qed.

Lemma segment_point_inj (e : nat) (t t' : R) :
  (e < 12)%nat ->
  segment_point (corner (fst (cube_edge e))) (corner (snd (cube_edge e))) t
  = segment_point (corner (fst (cube_edge e))) (corner (snd (cube_edge e))) t' ->
  t = t'.
Proof. intros He Heq. cases_below e; by_coordinates Heq. Qed.

Lemma frame_point_inj (f : nat) (s u s' u' : R) :
  (f < 6)%nat ->
  frame_point (face_origin f) (face_x f) (face_y f) s u
  = frame_point (face_origin f) (face_x f) (face_y f) s' u' ->
  s = s' /\ u = u'.
Proof. intros Hf Heq. cases_below f; by_coordinates Heq. Qed.

Lemma corners_NoDup : NoDup corners.
Proof.
  unfold corners.
  repeat (constructor;
          [cbn [In]; intros H;
           repeat (destruct H as [H|H]; [injection H; intros; lra|]);
           exact H|]).
  constructor.
Qed.

Lemma fraction_bounds (P i : Z) :
  (1 <= i < P)%Z -> 0 < IZR i / IZR P < 1.
Proof.
  intros H. assert (0 < IZR i) by (apply IZR_lt; lia).
  assert (IZR i < IZR P) by (apply IZR_lt; lia).
  split.
  - apply Rdiv_lt_0_compat; lra.
  - apply Rmult_lt_reg_r with (IZR P); [lra|]. field_simplify; lra.
Qed.

Lemma fraction_inj (P i i' : Z) :
  (1 <= P)%Z -> IZR i / IZR P = IZR i' / IZR P -> i = i'.
Proof.
  intros HP H. assert (0 < IZR P) by (apply IZR_lt; lia).
  apply eq_IZR. apply Rmult_eq_reg_r with (/ IZR P); [exact H|].
  apply Rinv_neq_0_compat. lra.
Qed.

Lemma zrange_NoDup (lo hi : Z) : NoDup (zrange lo hi).
Proof.
  unfold zrange. apply NoDup_map_NoDup_ForallPairs; [|apply seq_NoDup].
  intros x y _ _ H. lia.
Qed.

Lemma NoDup_flat_map {A B : Type} (f : A -> list B) (l : list A) :
  NoDup l ->
  (forall a, In a l -> NoDup (f a)) ->
  (forall a a' b, In a l -> In a' l -> In b (f a) -> In b (f a') -> a = a') ->
  NoDup (flat_map f l).
Proof.
  intros Hl. induction Hl as [|a l Hnotin Hl IH]; intros Hblock Hsep.
  - constructor.
  - cbn [flat_map]. apply NoDup_app.
    + apply Hblock. now left.
    + apply IH.
      * intros a' Ha'. apply Hblock. now right.
      * intros a1 a2 b H1 H2. apply Hsep; now right.
    + intros b Hb Hb'. apply in_flat_map in Hb'. destruct Hb' as (a' & Ha' & Hb').
      assert (a = a') by (apply (Hsep a a' b); auto using in_eq, in_cons).
      subst a'. contradiction.
Qed.

Lemma mesh_edge_points_on_edge (P : Z) (e : nat) (p : Cartesian3.t) :
  In p (mesh_edge_points P e) -> on_edge e p.
Proof.
  unfold mesh_edge_points, edge_points. intros H.
  apply in_map_iff in H. destruct H as (i & <- & Hi). apply zrange_In in Hi.
  exists (IZR i / IZR P). split; [now apply fraction_bounds | reflexivity].
Qed.

Lemma mesh_face_points_on_face (P : Z) (f : nat) (p : Cartesian3.t) :
  In p (mesh_face_points P f) -> on_face f p.
Proof.
  unfold mesh_face_points, face_points. intros H.
  apply in_flat_map in H. destruct H as (j & Hj & H). apply zrange_In in Hj.
  unfold row_points in H.
  apply in_map_iff in H. destruct H as (i & <- & Hi). apply zrange_In in Hi.
  exists (IZR i / IZR P), (IZR j / IZR P).
  split; [now apply fraction_bounds|]. split; [now apply fraction_bounds|].
  reflexivity.
Qed.

Lemma mesh_edge_points_NoDup (P : Z) (e : nat) :
  (1 <= P)%Z -> (e < 12)%nat -> NoDup (mesh_edge_points P e).
Proof.
  intros HP He. unfold mesh_edge_points, edge_points.
  apply NoDup_map_NoDup_ForallPairs; [|apply zrange_NoDup].
  intros i i' _ _ H. apply (fraction_inj P); [assumption|].
  now apply (segment_point_inj e).
Qed.

Lemma mesh_face_points_NoDup (P : Z) (f : nat) :
  (1 <= P)%Z -> (f < 6)%nat -> NoDup (mesh_face_points P f).
Proof.
  intros HP Hf. unfold mesh_face_points, face_points.
  apply NoDup_flat_map; [apply zrange_NoDup| |].
  - intros j _. unfold row_points.
    apply NoDup_map_NoDup_ForallPairs; [|apply zrange_NoDup].
    intros i i' _ _ H. apply (fraction_inj P); [assumption|].
    now apply (frame_point_inj f _ _ _ _ Hf H).
  - intros j j' p _ _ Hp Hp'. unfold row_points in Hp, Hp'.
    apply in_map_iff in Hp, Hp'.
    destruct Hp as (i & <- & _), Hp' as (i' & H & _).
    apply (fraction_inj P); [assumption|].
    symmetry. now apply (frame_point_inj f _ _ _ _ Hf H).
Qed.

Theorem mesh_positions_NoDup (P : Z) : (1 <= P)%Z -> NoDup (mesh_positions P).
Proof.
  intros HP. unfold mesh_positions.
  assert (Hcorner : forall p, In p corners -> exists i, (i < 8)%nat /\ p = corner i).
  { intros p Hp. destruct (In_nth _ _ Cartesian3.ZERO Hp) as (i & Hi & <-).
    exists i. split; [exact Hi | reflexivity]. }
  assert (Hedge : forall p, In p (flat_map (mesh_edge_points P) (seq 0 12)) ->
                            exists e, (e < 12)%nat /\ on_edge e p).
  { intros p Hp. apply in_flat_map in Hp. destruct Hp as (e & He & Hp).
    apply in_seq in He. exists e. split; [lia|].
    now apply (mesh_edge_points_on_edge P). }
  assert (Hface : forall p, In p (flat_map (mesh_face_points P) (seq 0 6)) ->
                            exists f, (f < 6)%nat /\ on_face f p).
  { intros p Hp. apply in_flat_map in Hp. destruct Hp as (f & Hf & Hp).
    apply in_seq in Hf. exists f. split; [lia|].
    now apply (mesh_face_points_on_face P). }
  apply NoDup_app; [apply corners_NoDup | apply NoDup_app |].
  - apply NoDup_flat_map; [apply seq_NoDup | |].
    + intros e He. apply in_seq in He. apply mesh_edge_points_NoDup; lia.
    + intros e e' p He He' Hp Hp'. apply in_seq in He, He'.
      apply (on_edge_unique e e' p); try lia;
        now apply (mesh_edge_points_on_edge P).
  - apply NoDup_flat_map; [apply seq_NoDup | |].
    + intros f Hf. apply in_seq in Hf. apply mesh_face_points_NoDup; lia.
    + intros f f' p Hf Hf' Hp Hp'. apply in_seq in Hf, Hf'.
      apply (on_face_unique f f' p); try lia;
        now apply (mesh_face_points_on_face P).
  - intros p Hp Hp'.
    destruct (Hedge p Hp) as (e & He & Hon).
    destruct (Hface p Hp') as (f & Hf & Hon').
    now apply (edge_not_on_face e f p).
  - intros p Hp Hp'. destruct (Hcorner p Hp) as (i & Hi & ->).
    apply in_app_or in Hp'. destruct Hp' as [Hp'|Hp'].
    + destruct (Hedge _ Hp') as (e & He & Hon).
      now apply (corner_not_on_edge i e).
    + destruct (Hface _ Hp') as (f & Hf & Hon).
      now apply (corner_not_on_face i f).
Qed.

(** ** Shared edges *)

Lemma side_list_first (P : Z) (s : side) :
  JsArray.get (side_list P s) 0 = Some (side_first s).
Proof.
  unfold side_list, side_first, mesh_edge. destruct (snd s).
  - apply edge_list_rev_first.
  - reflexivity.
Qed.

Lemma side_list_last (P : Z) (s : side) :
  (1 <= P)%Z -> JsArray.get (side_list P s) P = Some (side_last s).
Proof.
  intros HP. unfold side_list, side_last, mesh_edge. destruct (snd s).
  - unfold JsArray.reverse, JsArray.slice0. rewrite edge_list_rev.
    rewrite get_cons by lia. apply get_app_last.
    rewrite length_rev, fresh_indices_length. unfold interior. lia.
  - now apply get_edge_list_end.
Qed.

Lemma side_list_length (P : Z) (s : side) :
  List.length (side_list P s) = S (S (interior P)).
Proof.
  unfold side_list, mesh_edge, JsArray.reverse, JsArray.slice0.
  destruct (snd s); rewrite ?length_rev; apply edge_list_length.
Qed.

Lemma face_corners_agree (f : nat) :
  (f < 6)%nat ->
  side_first (face_bottom f) = side_first (face_left f)
  /\ side_last (face_bottom f) = side_first (face_right f)
  /\ side_first (face_top f) = side_last (face_left f)
  /\ side_last (face_top f) = side_last (face_right f).
Proof. intros Hf. cases_below f; repeat split; reflexivity. Qed.

Lemma mesh_grid_boundary (P : Z) (f : nat) :
  (1 <= P)%Z -> (f < 6)%nat ->
  let row := grid_row (side_list P (face_left f)) (side_list P (face_bottom f))
                      (side_list P (face_right f)) (side_list P (face_top f))
                      P (face_base P f) in
  row 0%Z = side_list P (face_bottom f)
  /\ row P = side_list P (face_top f)
  /\ forall j : Z, (0 <= j <= P)%Z ->
       JsArray.get (row j) 0 = JsArray.get (side_list P (face_left f)) j
       /\ JsArray.get (row j) P = JsArray.get (side_list P (face_right f)) j.
Proof.
  intros HP Hf row. destruct (face_corners_agree f Hf) as (H00 & H0P & HP0 & HPP).
  split; [reflexivity|]. split; [now apply grid_row_top|].
  intros j Hj. unfold row.
  destruct (Z.eq_dec j 0) as [->|Hj0]; [|destruct (Z.eq_dec j P) as [->|HjP]].
  - rewrite grid_row_bottom, !side_list_first, side_list_last by assumption.
    now rewrite H00, H0P.
  - rewrite grid_row_top by assumption.
    rewrite !side_list_first, !side_list_last by assumption.
    now rewrite HP0, HPP.
  - rewrite grid_row_interior by lia. now apply interior_row_ends.
Qed.

Lemma get_In {A : Type} (a : JsArray.t A) (k : Z) :
  (0 <= k < Z.of_nat (List.length a))%Z -> In (JsArray.get a k) a.
Proof.
  intros Hk. unfold JsArray.get. destruct (Z.ltb_spec k 0); [lia|].
  destruct (nth_error a (Z.to_nat k)) as [v|] eqn:Hnth.
  - eapply nth_error_In, Hnth.
  - apply nth_error_None in Hnth. lia.
Qed.

Lemma grid_entry (L B R T : JsArray.t nat) (P : Z) (base : nat) (j k : Z) :
  (1 <= P)%Z ->
  List.length L = S (S (interior P)) -> List.length B = S (S (interior P)) ->
  List.length R = S (S (interior P)) -> List.length T = S (S (interior P)) ->
  (0 <= j <= P)%Z -> (0 <= k <= P)%Z ->
  let v := JsArray.get (grid_row L B R T P base j) k in
  In v L \/ In v B \/ In v R \/ In v T
  \/ exists n, v = Some n /\ (base <= n < base + interior P * interior P)%nat.
Proof.
  intros HP HL HB HR HT Hj Hk v. unfold v, interior in *.
  destruct (Z.eq_dec j 0) as [->|Hj0]; [|destruct (Z.eq_dec j P) as [->|HjP]].
  - rewrite grid_row_bottom. right. left. apply get_In. lia.
  - rewrite grid_row_top by assumption. do 3 right. left. apply get_In. lia.
  - rewrite grid_row_interior by lia.
    destruct (Z.eq_dec k 0) as [->|Hk0]; [|destruct (Z.eq_dec k P) as [->|HkP]].
    + destruct (interior_row_ends L R P base j HP) as [-> _].
      left. apply get_In. lia.
    + destruct (interior_row_ends L R P base j HP) as [_ ->].
      do 2 right. left. apply get_In. lia.
    + do 4 right. rewrite interior_row_column by lia.
      eexists. split; [reflexivity|]. nia.
Qed.

Lemma face_triangles_entries (L B R T : JsArray.t nat) (P : Z) (base : nat)
    (v : option nat) :
  (1 <= P)%Z ->
  List.length L = S (S (interior P)) -> List.length B = S (S (interior P)) ->
  List.length R = S (S (interior P)) -> List.length T = S (S (interior P)) ->
  In v (face_triangles L B R T P base) ->
  In v L \/ In v B \/ In v R \/ In v T
  \/ exists n, v = Some n /\ (base <= n < base + interior P * interior P)%nat.
Proof.
  intros HP HL HB HR HT Hv. unfold face_triangles in Hv.
  apply in_flat_map in Hv. destruct Hv as (j & Hj & Hv). apply zrange_In in Hj.
  unfold row_triangles in Hv.
  apply in_flat_map in Hv. destruct Hv as (k & Hk & Hv). apply zrange_In in Hk.
  unfold quad in Hv. cbn [In] in Hv.
  repeat (destruct Hv as [<-|Hv]; [apply grid_entry; (assumption || lia)|]).
  contradiction.
Qed.

Lemma edge_call (P : Z) (e : nat) :
  (1 <= P)%Z -> (e < 12)%nat ->
  addEdgePositions (fst (cube_edge e)) (snd (cube_edge e)) P
    (corners ++ flat_map (mesh_edge_points P) (seq 0 e))
  = Ok (mesh_edge P e, corners ++ flat_map (mesh_edge_points P) (seq 0 (S e))).
Proof.
  intros HP He. destruct (cube_edge_corners e) as [H0 H1].
  rewrite (addEdgePositions_eq _ _ _ _ (corner (fst (cube_edge e)))
             (corner (snd (cube_edge e))) HP)
    by now apply nth_error_corner.
  rewrite seq_S, flat_map_app. cbn [flat_map Nat.add]. rewrite app_nil_r.
  rewrite <- app_assoc. do 2 f_equal.
  unfold mesh_edge, edge_base. do 2 f_equal.
  rewrite length_app.
  rewrite flat_map_length_const with (c := interior P)
    by (intros a; apply edge_points_length).
  rewrite length_seq. reflexivity.
Qed.

Lemma faces_on_edge_two (e : nat) :
  (e < 12)%nat -> List.length (faces_on_edge e) = 2%nat.
Proof. intros He. cases_below e; reflexivity. Qed.

Lemma face_sides_edges (f : nat) (s : side) :
  (f < 6)%nat -> In s (face_sides f) -> (fst s < 12)%nat.
Proof.
  intros Hf Hs. cases_below f; cbn in Hs;
    repeat (destruct Hs as [<-|Hs]; [cbn; lia|]); contradiction.
Qed.

(** C7. For every partition count [P >= 1]: the position list is the 8
    corners, one block of interior points per cube edge, each produced by
    the single call of the edge interpolator for that edge, and one block of
    interior points per face; each of the 12 edges is a side of exactly two
    faces; a face passes each side's index list as the edge holds it or
    reversed, the boundary of the index grid it triangulates is those four
    lists, and every other index it emits is one of its own interior points;
    and no two entries of the position list are the same point. *)
Theorem C7_edges_shared (P : Z) :
  (1 <= P)%Z ->
  exists (positions : list Cartesian3.t) (indices : JsArray.t nat),
    cubeMesh P = Ok (positions, indices)
    /\ positions = corners ++ flat_map (mesh_edge_points P) (seq 0 12)
                           ++ flat_map (mesh_face_points P) (seq 0 6)
    /\ indices = flat_map (mesh_face_triangles P) (seq 0 6)
    /\ (forall e : nat, (e < 12)%nat ->
          addEdgePositions (fst (cube_edge e)) (snd (cube_edge e)) P
            (corners ++ flat_map (mesh_edge_points P) (seq 0 e))
          = Ok (mesh_edge P e,
                corners ++ flat_map (mesh_edge_points P) (seq 0 (S e))))
    /\ (forall e : nat, (e < 12)%nat -> List.length (faces_on_edge e) = 2%nat)
    /\ (forall (f : nat) (s : side), (f < 6)%nat -> In s (face_sides f) ->
          (fst s < 12)%nat
          /\ side_list P s = if snd s then rev (mesh_edge P (fst s))
                             else mesh_edge P (fst s))
    /\ (forall f : nat, (f < 6)%nat ->
          let row := grid_row (side_list P (face_left f)) (side_list P (face_bottom f))
                              (side_list P (face_right f)) (side_list P (face_top f))
                              P (face_base P f) in
          row 0%Z = side_list P (face_bottom f)
          /\ row P = side_list P (face_top f)
          /\ forall j : Z, (0 <= j <= P)%Z ->
               JsArray.get (row j) 0 = JsArray.get (side_list P (face_left f)) j
               /\ JsArray.get (row j) P = JsArray.get (side_list P (face_right f)) j)
    /\ (forall (f : nat) (v : option nat), (f < 6)%nat ->
          In v (mesh_face_triangles P f) ->
          (exists s, In s (face_sides f) /\ In v (side_list P s))
          \/ exists n, v = Some n /\ (face_base P f <= n < face_base P (S f))%nat)
    /\ NoDup positions.
Proof.
  intros HP. exists (mesh_positions P), (mesh_indices P).
  split; [now apply cubeMesh_eq|]. split; [reflexivity|]. split; [reflexivity|].
  split; [intros e He; now apply edge_call|].
  split; [exact faces_on_edge_two|].
  split.
  { intros f s Hf Hs. split; [now apply (face_sides_edges f)|].
    unfold side_list. now destruct (snd s). }
  split; [intros f Hf; now apply mesh_grid_boundary|].
  split; [|now apply mesh_positions_NoDup].
  intros f v Hf Hv. unfold mesh_face_triangles in Hv.
  apply face_triangles_entries in Hv;
    [| assumption | apply side_list_length ..].
  unfold face_sides. cbn [In].
  destruct Hv as [Hv|[Hv|[Hv|[Hv|(n & -> & Hn)]]]].
  - left. exists (face_left f). auto.
  - left. exists (face_bottom f). auto.
  - left. exists (face_right f). auto.
  - left. exists (face_top f). auto 6.
  - right. exists n. split; [reflexivity|]. unfold face_base in *. nia.
Qed.

Lemma C7_edges_shared_witness :
  (1 <= 2)%Z
  /\ exists (positions : list Cartesian3.t) (indices : JsArray.t nat),
       cubeMesh 2 = Ok (positions, indices)
       /\ List.length positions = 26%nat
       /\ NoDup positions.
Proof.
  split; [lia|].
  destruct (C7_edges_shared 2 ltac:(lia))
    as (positions & indices & Hmesh & -> & _ & _ & _ & _ & _ & _ & Hnodup).
  eexists. exists indices. split; [exact Hmesh|]. split; [reflexivity | exact Hnodup].
Defined.

(** * Further properties of the constructor *)

(** ** Every cube-space position is away from the origin *)

Lemma mesh_position_kind (P : Z) (p : Cartesian3.t) :
  In p (mesh_positions P) ->
  (exists i, (i < 8)%nat /\ p = corner i)
  \/ (exists e, (e < 12)%nat /\ on_edge e p)
  \/ (exists f, (f < 6)%nat /\ on_face f p).
Proof.
  unfold mesh_positions. intros H.
  apply in_app_or in H. destruct H as [H|H]; [|apply in_app_or in H; destruct H as [H|H]].
  - left. destruct (In_nth _ _ Cartesian3.ZERO H) as (i & Hi & <-).
    exists i. split; [exact Hi | reflexivity].
  - right. left. apply in_flat_map in H. destruct H as (e & He & H).
    apply in_seq in He. exists e. split; [lia|].
    now apply (mesh_edge_points_on_edge P).
  - right. right. apply in_flat_map in H. destruct H as (f & Hf & H).
    apply in_seq in Hf. exists f. split; [lia|].
    now apply (mesh_face_points_on_face P).
Qed.

Lemma norm2_nonneg (p : Cartesian3.t) : 0 <= norm2 p.
Proof. unfold norm2. nra. Qed.

Lemma norm2_pos (p : Cartesian3.t) :
  Cartesian3.x p <> 0 \/ Cartesian3.y p <> 0 \/ Cartesian3.z p <> 0 ->
  0 < norm2 p.
Proof. unfold norm2. intros [H|[H|H]]; nra. Qed.

Lemma norm2_pos_inv (p : Cartesian3.t) :
  0 < norm2 p ->
  Cartesian3.x p <> 0 \/ Cartesian3.y p <> 0 \/ Cartesian3.z p <> 0.
Proof.
  unfold norm2. intros H.
  destruct (Req_dec (Cartesian3.x p) 0) as [Hx|Hx]; [|now left].
  destruct (Req_dec (Cartesian3.y p) 0) as [Hy|Hy]; [|now (right; left)].
  right. right. intros Hz. rewrite Hx, Hy, Hz in H. lra.
Qed.

Ltac away_from_origin :=
  apply norm2_pos; coordinates;
  first [ left; lra | right; left; lra | right; right; lra
        | match goal with
          | |- ?a <> 0 \/ ?b <> 0 \/ _ =>
              destruct (Req_dec a 0); [right; left; lra | left; assumption]
          end ].

Lemma corner_nonzero (i : nat) : (i < 8)%nat -> 0 < norm2 (corner i).
Proof. intros Hi. cases_below i; away_from_origin. Qed.

Lemma on_edge_nonzero (e : nat) (p : Cartesian3.t) :
  (e < 12)%nat -> on_edge e p -> 0 < norm2 p.
Proof. intros He (t & Ht & ->). cases_below e; away_from_origin. Qed.

Lemma on_face_nonzero (f : nat) (p : Cartesian3.t) :
  (f < 6)%nat -> on_face f p -> 0 < norm2 p.
Proof. intros Hf (s & u & Hs & Hu & ->). cases_below f; away_from_origin. Qed.

Lemma mesh_positions_nonzero (P : Z) (p : Cartesian3.t) :
  In p (mesh_positions P) -> 0 < norm2 p.
Proof.
  intros H.
  destruct (mesh_position_kind P p H)
    as [(i & Hi & ->)|[(e & He & Hon)|(f & Hf & Hon)]].
  - now apply corner_nonzero.
  - now apply (on_edge_nonzero e).
  - now apply (on_face_nonzero f).
Qed.

(** ** Shapes of the attribute buffers *)

Lemma mesh_vertex_count (P : Z) :
  (1 <= P)%Z -> Z.of_nat (List.length (mesh_positions P)) = vertex_count P.
Proof.
  intros HP. rewrite mesh_positions_length by assumption.
  unfold vertex_count, interior. rewrite Z.pow_2_r. nia.
Qed.

Lemma flatten3_length {A : Type} (h : A -> Cartesian3.t) (l : list A) :
  List.length (flat_map (fun a => flatten3 (h a)) l) = (List.length l * 3)%nat.
Proof. apply flat_map_length_const. reflexivity. Qed.

Lemma passed_positions_length (e : Ellipsoid.t) (vf : VertexFormat.t)
    (cube : list Cartesian3.t) :
  List.length (passed_positions e vf cube) = List.length cube.
Proof.
  unfold passed_positions, expandPositions.
  destruct (VertexFormat.position vf); [|reflexivity].
  cbn [fst]. apply length_map.
Qed.

Lemma expandPositions_length (e : Ellipsoid.t) (cube : list Cartesian3.t) :
  List.length (snd (expandPositions e cube)) = (List.length cube * 3)%nat.
Proof.
  unfold expandPositions. cbn [snd].
  rewrite (flatten3_length (fun c => c)). now rewrite length_map.
Qed.

Lemma computeTexCoords_length (e : Ellipsoid.t) (ps : list Cartesian3.t) :
  List.length (computeTexCoords e ps) = (List.length ps * 2)%nat.
Proof. unfold computeTexCoords. apply flat_map_length_const. reflexivity. Qed.

Lemma computeFrames_length (e : Ellipsoid.t) (ps : list Cartesian3.t) :
  List.length (fst (fst (computeFrames e ps))) = (List.length ps * 3)%nat
  /\ List.length (snd (fst (computeFrames e ps))) = (List.length ps * 3)%nat
  /\ List.length (snd (computeFrames e ps)) = (List.length ps * 3)%nat.
Proof.
  unfold computeFrames. cbn [fst snd].
  rewrite (flatten3_length (fun f => fst (fst f))),
    (flatten3_length (fun f => snd (fst f))), (flatten3_length (fun f => snd f)).
  now rewrite length_map.
Qed.

(** X1: for every partition count [P >= 1] the constructed object carries an
    attribute exactly for each requested one, each a FLOAT buffer with 3
    numbers per vertex (2 for the texture coordinates) for the
    [8 + 12 (P - 1) + 6 (P - 1)^2] vertices. *)
Theorem attribute_buffers_shape (options : option Options.t) :
  let P := partitions_of options in
  let vf := format_of options in
  (1 <= P)%Z ->
  exists g : Geometry.t,
    EllipsoidGeometry options = Ok g
    /\ attribute_shape (VertexFormat.position vf)
         (Attributes.position (Geometry.attributes g)) 3 (vertex_count P)
    /\ attribute_shape (VertexFormat.st vf)
         (Attributes.st (Geometry.attributes g)) 2 (vertex_count P)
    /\ attribute_shape (VertexFormat.normal vf)
         (Attributes.normal (Geometry.attributes g)) 3 (vertex_count P)
    /\ attribute_shape (VertexFormat.tangent vf)
         (Attributes.tangent (Geometry.attributes g)) 3 (vertex_count P)
    /\ attribute_shape (VertexFormat.binormal vf)
         (Attributes.binormal (Geometry.attributes g)) 3 (vertex_count P).
Proof.
  intros P vf HP. eexists. split; [apply EllipsoidGeometry_eq; exact HP|].
  fold P. unfold geometry_of. cbn [Geometry.attributes].
  fold vf. rewrite buildAttributes_eq. cbn [snd].
  cbn [Attributes.position Attributes.st Attributes.normal Attributes.tangent
    Attributes.binormal].
  pose proof (mesh_vertex_count P HP) as HN.
  set (e := ellipsoid_of options).
  pose proof (passed_positions_length e vf (mesh_positions P)) as Hlen.
  destruct (computeFrames_length e (passed_positions e vf (mesh_positions P)))
    as (Hn & Ht & Hb).
  pose proof (computeTexCoords_length e (passed_positions e vf (mesh_positions P)))
    as Hst.
  pose proof (expandPositions_length e (mesh_positions P)) as Hpos.
  unfold attribute_shape.
  repeat split;
    match goal with
    | |- if ?b then _ else _ => destruct b; [eexists; split; [reflexivity | lia] | reflexivity]
    end.
Qed.

Lemma attribute_buffers_shape_witness :
  (1 <= 2)%Z
  /\ exists g : Geometry.t,
       EllipsoidGeometry (Some (Options.mk None (Some 2%Z) None None None)) = Ok g
       /\ Attributes.tangent (Geometry.attributes g) = None
       /\ exists values : list R,
            Attributes.st (Geometry.attributes g)
            = Some (GeometryAttribute.mk FLOAT 2 values)
            /\ List.length values = 52%nat.
Proof.
  split; [lia|].
  pose proof (attribute_buffers_shape
                (Some (Options.mk None (Some 2%Z) None None None))) as H.
  cbv zeta in H. change (partitions_of _) with 2%Z in H.
  destruct (H ltac:(lia)) as (g & Hrun & _ & Hst & _ & Htan & _).
  exists g. split; [exact Hrun|]. split; [exact Htan|].
  destruct Hst as (values & Hv & Hlen). exists values. split; [exact Hv|].
  change (vertex_count 2) with 26%Z in Hlen. lia.
Defined.

(** ** The emitted positions *)

Lemma nth_error_in_range {A : Type} (l : list A) (i : nat) :
  (i < List.length l)%nat -> exists a, nth_error l i = Some a /\ In a l.
Proof.
  intros H. destruct (nth_error l i) as [a|] eqn:Hnth.
  - exists a. split; [reflexivity|]. eapply nth_error_In, Hnth.
  - apply nth_error_None in Hnth. lia.
Qed.

Lemma expandPositions_vertex (e : Ellipsoid.t) (cube : list Cartesian3.t)
    (i : nat) (p : Cartesian3.t) :
  nth_error cube i = Some p ->
  vertex3 (snd (expandPositions e cube)) i
  = flatten3 (Cartesian3.multiplyComponents (Cartesian3.normalize p)
                (Ellipsoid.getRadii e)).
Proof.
  intros H. unfold expandPositions. cbn [snd].
  apply (vertex3_flat_map (fun c => c)).
  now rewrite nth_error_map, H.
Qed.

(** X2: for every partition count [P >= 1], when the position attribute is
    requested the three numbers emitted for vertex [i] are the coordinates
    of the [i]-th point of the subdivided surface, each divided by the
    length of the point, which is not zero, and multiplied by the radius of
    its axis. *)
Theorem positions_normalized_then_scaled (options : option Options.t) :
  let P := partitions_of options in
  let r := Ellipsoid.radii (ellipsoid_of options) in
  (1 <= P)%Z ->
  VertexFormat.position (format_of options) = true ->
  exists (cube : list Cartesian3.t) (indices : JsArray.t nat) (g : Geometry.t)
         (values : list R),
    cubeMesh P = Ok (cube, indices)
    /\ EllipsoidGeometry options = Ok g
    /\ Attributes.position (Geometry.attributes g)
       = Some (GeometryAttribute.mk FLOAT 3 values)
    /\ forall i : nat, (Z.of_nat i < vertex_count P)%Z ->
         exists x y z : R,
           nth_error cube i = Some (Cartesian3.mk x y z)
           /\ 0 < x * x + y * y + z * z
           /\ vertex3 values i
              = [x / sqrt (x * x + y * y + z * z) * Cartesian3.x r;
                 y / sqrt (x * x + y * y + z * z) * Cartesian3.y r;
                 z / sqrt (x * x + y * y + z * z) * Cartesian3.z r].
Proof.
  intros P r HP Hfmt.
  exists (mesh_positions P), (mesh_indices P),
    (geometry_of options (mesh_positions P) (mesh_indices P)),
    (snd (expandPositions (ellipsoid_of options) (mesh_positions P))).
  split; [now apply cubeMesh_eq|]. split; [now apply EllipsoidGeometry_eq|]. split.
  { unfold geometry_of. cbn [Geometry.attributes]. rewrite buildAttributes_eq.
    cbn [snd Attributes.position]. now rewrite Hfmt. }
  intros i Hi. rewrite <- mesh_vertex_count in Hi by assumption.
  destruct (nth_error_in_range (mesh_positions P) i ltac:(lia)) as (p & Hp & Hin).
  rewrite (expandPositions_vertex _ _ i p Hp).
  pose proof (mesh_positions_nonzero P p Hin) as Hnz.
  destruct p as [x y z]. exists x, y, z. split; [exact Hp|]. split; [exact Hnz|].
  reflexivity.
Qed.

Lemma positions_normalized_then_scaled_witness :
  (1 <= 1)%Z
  /\ exists (g : Geometry.t) (values : list R),
       EllipsoidGeometry
         (Some (Options.mk (Some (Ellipsoid.mk (Cartesian3.mk 2 1 1))) (Some 1%Z)
                           None None None))
       = Ok g
       /\ Attributes.position (Geometry.attributes g)
          = Some (GeometryAttribute.mk FLOAT 3 values)
       /\ vertex3 values 0
          = [-1 / sqrt (-1 * -1 + 0 * 0 + -1 * -1) * 2;
             0 / sqrt (-1 * -1 + 0 * 0 + -1 * -1) * 1;
             -1 / sqrt (-1 * -1 + 0 * 0 + -1 * -1) * 1].
Proof.
  split; [lia|].
  pose proof (positions_normalized_then_scaled
                (Some (Options.mk (Some (Ellipsoid.mk (Cartesian3.mk 2 1 1)))
                                  (Some 1%Z) None None None))) as H.
  cbv zeta in H. change (partitions_of _) with 1%Z in H.
  destruct (H ltac:(lia) eq_refl)
    as (cube & indices & g & values & Hmesh & Hrun & Hattr & Hall).
  exists g, values. split; [exact Hrun|]. split; [exact Hattr|].
  rewrite cubeMesh_eq in Hmesh by lia. injection Hmesh as <- <-.
  destruct (Hall 0%nat eq_refl) as (x & y & z & Hp & _ & Hv).
  rewrite mesh_positions_1 in Hp. injection Hp as <- <- <-. exact Hv.
Defined.

Lemma normalized_component_bound (p : Cartesian3.t) :
  0 < norm2 p ->
  let n := Cartesian3.normalize p in
  -1 <= Cartesian3.x n <= 1 /\ -1 <= Cartesian3.y n <= 1
  /\ -1 <= Cartesian3.z n <= 1.
Proof.
  intros Hp n. pose proof (norm2_normalize p Hp) as Hn. fold n in Hn.
  unfold norm2 in Hn. repeat split; nra.
Qed.

(** X3: for every partition count [P >= 1] and positive radii, every emitted
    position lies in the box of the ellipsoid: each coordinate is between
    minus the radius of its axis and that radius. *)
Theorem positions_within_radii (options : option Options.t) :
  let P := partitions_of options in
  let r := Ellipsoid.radii (ellipsoid_of options) in
  (1 <= P)%Z ->
  0 < Cartesian3.x r -> 0 < Cartesian3.y r -> 0 < Cartesian3.z r ->
  VertexFormat.position (format_of options) = true ->
  exists (g : Geometry.t) (values : list R),
    EllipsoidGeometry options = Ok g
    /\ Attributes.position (Geometry.attributes g)
       = Some (GeometryAttribute.mk FLOAT 3 values)
    /\ forall i : nat, (Z.of_nat i < vertex_count P)%Z ->
         exists x y z : R,
           vertex3 values i = [x; y; z]
           /\ - Cartesian3.x r <= x <= Cartesian3.x r
           /\ - Cartesian3.y r <= y <= Cartesian3.y r
           /\ - Cartesian3.z r <= z <= Cartesian3.z r.
Proof.
  intros P r HP Hx Hy Hz Hfmt.
  exists (geometry_of options (mesh_positions P) (mesh_indices P)),
    (snd (expandPositions (ellipsoid_of options) (mesh_positions P))).
  split; [now apply EllipsoidGeometry_eq|]. split.
  { unfold geometry_of. cbn [Geometry.attributes]. rewrite buildAttributes_eq.
    cbn [snd Attributes.position]. now rewrite Hfmt. }
  intros i Hi. rewrite <- mesh_vertex_count in Hi by assumption.
  destruct (nth_error_in_range (mesh_positions P) i ltac:(lia)) as (p & Hp & Hin).
  rewrite (expandPositions_vertex _ _ i p Hp).
  do 3 eexists. split; [reflexivity|].
  destruct (normalized_component_bound p (mesh_positions_nonzero P p Hin))
    as (Bx & By & Bz).
  unfold Cartesian3.multiplyComponents, Ellipsoid.getRadii. fold r.
  cbn [Cartesian3.x Cartesian3.y Cartesian3.z].
  repeat split; nra.
Qed.

Lemma positions_within_radii_witness :
  (1 <= 1)%Z /\ 0 < 2 /\ 0 < 1 /\ 0 < 1
  /\ exists (g : Geometry.t) (values : list R),
       EllipsoidGeometry
         (Some (Options.mk (Some (Ellipsoid.mk (Cartesian3.mk 2 1 1))) (Some 1%Z)
                           None None None))
       = Ok g
       /\ Attributes.position (Geometry.attributes g)
          = Some (GeometryAttribute.mk FLOAT 3 values)
       /\ exists x y z : R,
            vertex3 values 0 = [x; y; z]
            /\ - 2 <= x <= 2 /\ - 1 <= y <= 1 /\ - 1 <= z <= 1.
Proof.
  assert (H2 : 0 < 2) by lra. assert (H1 : 0 < 1) by lra.
  split; [lia|]. split; [exact H2|]. split; [exact H1|]. split; [exact H1|].
  pose proof (positions_within_radii
                (Some (Options.mk (Some (Ellipsoid.mk (Cartesian3.mk 2 1 1)))
                                  (Some 1%Z) None None None))) as H.
  cbv zeta in H. change (partitions_of _) with 1%Z in H.
  destruct (H ltac:(lia) H2 H1 H1 eq_refl) as (g & values & Hrun & Hattr & Hall).
  exists g, values. split; [exact Hrun|]. split; [exact Hattr|].
  exact (Hall 0%nat eq_refl).
Defined.

(** ** The frame at every vertex *)

Lemma scale_nonzero (p r : Cartesian3.t) :
  0 < norm2 p ->
  0 < Cartesian3.x r -> 0 < Cartesian3.y r -> 0 < Cartesian3.z r ->
  0 < norm2 (Cartesian3.multiplyComponents p r).
Proof.
  intros Hp Hx Hy Hz. apply norm2_pos.
  unfold Cartesian3.multiplyComponents. cbn [Cartesian3.x Cartesian3.y Cartesian3.z].
  destruct (norm2_pos_inv p Hp) as [H|[H|H]];
    [left | right; left | right; right]; apply Rmult_integral_contrapositive;
    split; lra.
Qed.

Lemma passed_positions_nonzero (P : Z) (e : Ellipsoid.t) (vf : VertexFormat.t)
    (i : nat) (p : Cartesian3.t) :
  0 < Cartesian3.x (Ellipsoid.radii e) -> 0 < Cartesian3.y (Ellipsoid.radii e) ->
  0 < Cartesian3.z (Ellipsoid.radii e) ->
  nth_error (passed_positions e vf (mesh_positions P)) i = Some p ->
  0 < norm2 p.
Proof.
  intros Hx Hy Hz H. unfold passed_positions, expandPositions in H.
  destruct (VertexFormat.position vf).
  - cbn [fst] in H. rewrite nth_error_map in H.
    destruct (nth_error (mesh_positions P) i) as [c|] eqn:Hc; [|discriminate].
    injection H as <-. apply scale_nonzero; try assumption.
    rewrite norm2_normalize; [lra|].
    eapply mesh_positions_nonzero, nth_error_In, Hc.
  - eapply mesh_positions_nonzero, nth_error_In, H.
Qed.

(** C4, as the constructor has it. For every partition count [P >= 1] and
    positive radii, for every vertex, with [normal] the geodetic surface
    normal the pass computes for it, the emitted tangent is
    [cross(UNIT_Z, normal)], not normalized, and the emitted binormal is
    [cross(normal, tangent)]; the three buffers are filled from the one
    normal, and each is emitted when its attribute is requested. *)
Theorem C4_normal_tangent_binormal (options : option Options.t) :
  let P := partitions_of options in
  let e := ellipsoid_of options in
  let vf := format_of options in
  (1 <= P)%Z ->
  0 < Cartesian3.x (Ellipsoid.radii e) ->
  0 < Cartesian3.y (Ellipsoid.radii e) ->
  0 < Cartesian3.z (Ellipsoid.radii e) ->
  exists (cube : list Cartesian3.t) (indices : JsArray.t nat) (g : Geometry.t),
    cubeMesh P = Ok (cube, indices)
    /\ EllipsoidGeometry options = Ok g
    /\ forall i : nat, (i < List.length cube)%nat ->
         exists p : Cartesian3.t,
           nth_error (passed_positions e vf cube) i = Some p
           /\ 0 < norm2 p
           /\ let normal := Ellipsoid.geodeticSurfaceNormal e p in
              let tangent := Cartesian3.cross Cartesian3.UNIT_Z normal in
              let binormal := Cartesian3.cross normal tangent in
              (VertexFormat.normal vf = true ->
               exists values,
                 Attributes.normal (Geometry.attributes g)
                 = Some (GeometryAttribute.mk FLOAT 3 values)
                 /\ vertex3 values i = flatten3 normal)
              /\ (VertexFormat.tangent vf = true ->
                  exists values,
                    Attributes.tangent (Geometry.attributes g)
                    = Some (GeometryAttribute.mk FLOAT 3 values)
                    /\ vertex3 values i = flatten3 tangent)
              /\ (VertexFormat.binormal vf = true ->
                  exists values,
                    Attributes.binormal (Geometry.attributes g)
                    = Some (GeometryAttribute.mk FLOAT 3 values)
                    /\ vertex3 values i = flatten3 binormal).
Proof.
  intros P e vf HP Hx Hy Hz.
  exists (mesh_positions P), (mesh_indices P),
    (geometry_of options (mesh_positions P) (mesh_indices P)).
  split; [now apply cubeMesh_eq|]. split; [now apply EllipsoidGeometry_eq|].
  intros i Hi.
  destruct (nth_error_in_range (passed_positions e vf (mesh_positions P)) i)
    as (p & Hp & _); [now rewrite passed_positions_length|].
  exists p. split; [exact Hp|].
  split; [exact (passed_positions_nonzero P e vf i p Hx Hy Hz Hp)|].
  cbv zeta.
  destruct (computeFrames_vertex e _ i p Hp) as (Hn & Ht & Hb).
  unfold geometry_of. cbn [Geometry.attributes].
  fold P e vf. rewrite buildAttributes_eq. cbn [snd].
  cbn [Attributes.normal Attributes.tangent Attributes.binormal].
  repeat split; intros ->; eexists; (split; [reflexivity | assumption]).
Qed.

Lemma C4_normal_tangent_binormal_witness :
  (1 <= 1)%Z /\ 0 < 1
  /\ exists (cube : list Cartesian3.t) (indices : JsArray.t nat) (g : Geometry.t)
            (values : list R),
       cubeMesh 1 = Ok (cube, indices)
       /\ EllipsoidGeometry
            (Some (Options.mk None (Some 1%Z)
                              (Some (VertexFormat.mk false false false false true))
                              None None))
          = Ok g
       /\ Attributes.tangent (Geometry.attributes g)
          = Some (GeometryAttribute.mk FLOAT 3 values)
       /\ exists p : Cartesian3.t,
            nth_error cube 0 = Some p
            /\ vertex3 values 0
               = flatten3 (Cartesian3.cross Cartesian3.UNIT_Z
                             (Ellipsoid.geodeticSurfaceNormal Ellipsoid.UNIT_SPHERE p)).
Proof.
  assert (H1 : 0 < 1) by lra. split; [lia|]. split; [exact H1|].
  pose proof (C4_normal_tangent_binormal
                (Some (Options.mk None (Some 1%Z)
                                  (Some (VertexFormat.mk false false false false true))
                                  None None))) as H.
  cbv zeta in H. change (partitions_of _) with 1%Z in H.
  destruct (H ltac:(lia) H1 H1 H1) as (cube & indices & g & Hmesh & Hrun & Hall).
  rewrite cubeMesh_eq in Hmesh by lia. injection Hmesh as <- <-.
  destruct (Hall 0%nat) as (p & Hp & _ & _ & Ht & _).
  { rewrite mesh_positions_1. cbn. lia. }
  destruct (Ht eq_refl) as (values & Hattr & Hv).
  exists (mesh_positions 1), (mesh_indices 1), g, values.
  split; [now apply cubeMesh_eq|]. split; [exact Hrun|]. split; [exact Hattr|].
  exists p. split; [exact Hp|exact Hv].
Defined.

Lemma frame_components (n : Cartesian3.t) :
  let t := Cartesian3.cross Cartesian3.UNIT_Z n in
  let b := Cartesian3.cross n t in
  flatten3 t = [- Cartesian3.y n; Cartesian3.x n; 0]
  /\ flatten3 b
     = [- (Cartesian3.z n * Cartesian3.x n); - (Cartesian3.z n * Cartesian3.y n);
        Cartesian3.x n * Cartesian3.x n + Cartesian3.y n * Cartesian3.y n].
Proof.
  cbv zeta. unfold flatten3, Cartesian3.cross, Cartesian3.UNIT_Z.
  cbn [Cartesian3.x Cartesian3.y Cartesian3.z].
  split; (f_equal; [ring | f_equal; [ring | f_equal; ring]]).
Qed.

(** X4: for every partition count [P >= 1] and positive radii, when normal,
    tangent and binormal are all requested, at every vertex, with
    [(nx, ny, nz)] the emitted normal, the emitted tangent is
    [(-ny, nx, 0)] and the emitted binormal is
    [(-nz nx, -nz ny, nx nx + ny ny)]: the tangent is horizontal and the
    binormal never points downward. *)
Theorem frames_from_normal (options : option Options.t) :
  let P := partitions_of options in
  let r := Ellipsoid.radii (ellipsoid_of options) in
  let vf := format_of options in
  (1 <= P)%Z ->
  0 < Cartesian3.x r -> 0 < Cartesian3.y r -> 0 < Cartesian3.z r ->
  VertexFormat.normal vf = true -> VertexFormat.tangent vf = true ->
  VertexFormat.binormal vf = true ->
  exists (g : Geometry.t) (normals tangents binormals : list R),
    EllipsoidGeometry options = Ok g
    /\ Attributes.normal (Geometry.attributes g)
       = Some (GeometryAttribute.mk FLOAT 3 normals)
    /\ Attributes.tangent (Geometry.attributes g)
       = Some (GeometryAttribute.mk FLOAT 3 tangents)
    /\ Attributes.binormal (Geometry.attributes g)
       = Some (GeometryAttribute.mk FLOAT 3 binormals)
    /\ forall i : nat, (Z.of_nat i < vertex_count P)%Z ->
         exists nx ny nz : R,
           vertex3 normals i = [nx; ny; nz]
           /\ vertex3 tangents i = [- ny; nx; 0]
           /\ vertex3 binormals i = [- (nz * nx); - (nz * ny); nx * nx + ny * ny]
           /\ 0 <= nx * nx + ny * ny.
Proof.
  intros P r vf HP Hx Hy Hz Hn Ht Hb.
  set (e := ellipsoid_of options).
  set (ps := passed_positions e vf (mesh_positions P)).
  exists (geometry_of options (mesh_positions P) (mesh_indices P)),
    (fst (fst (computeFrames e ps))), (snd (fst (computeFrames e ps))),
    (snd (computeFrames e ps)).
  split; [now apply EllipsoidGeometry_eq|].
  unfold geometry_of. cbn [Geometry.attributes]. fold e vf.
  rewrite buildAttributes_eq. cbn [snd Attributes.normal Attributes.tangent
    Attributes.binormal]. rewrite Hn, Ht, Hb. fold ps.
  do 3 (split; [reflexivity|]).
  intros i Hi. rewrite <- mesh_vertex_count in Hi by assumption.
  destruct (nth_error_in_range ps i) as (p & Hp & _).
  { unfold ps. rewrite passed_positions_length. lia. }
  destruct (computeFrames_vertex e ps i p Hp) as (H1 & H2 & H3).
  destruct (frame_components (Ellipsoid.geodeticSurfaceNormal e p)) as (A1 & A2).
  rewrite H1, H2, H3, A1, A2.
  do 3 eexists. split; [reflexivity|]. split; [reflexivity|].
  split; [reflexivity|]. nra.
Qed.

Lemma frames_from_normal_witness :
  (1 <= 1)%Z /\ 0 < 1
  /\ exists (g : Geometry.t) (normals tangents : list R) (nx ny nz : R),
       EllipsoidGeometry
         (Some (Options.mk None (Some 1%Z)
                           (Some (VertexFormat.mk true true true true true))
                           None None))
       = Ok g
       /\ Attributes.normal (Geometry.attributes g)
          = Some (GeometryAttribute.mk FLOAT 3 normals)
       /\ Attributes.tangent (Geometry.attributes g)
          = Some (GeometryAttribute.mk FLOAT 3 tangents)
       /\ vertex3 normals 0 = [nx; ny; nz]
       /\ vertex3 tangents 0 = [- ny; nx; 0].
Proof.
  assert (H1 : 0 < 1) by lra. split; [lia|]. split; [exact H1|].
  pose proof (frames_from_normal
                (Some (Options.mk None (Some 1%Z)
                                  (Some (VertexFormat.mk true true true true true))
                                  None None))) as H.
  cbv zeta in H. change (partitions_of _) with 1%Z in H.
  destruct (H ltac:(lia) H1 H1 H1 eq_refl eq_refl eq_refl)
    as (g & normals & tangents & binormals & Hrun & Hn & Ht & _ & Hall).
  destruct (Hall 0%nat eq_refl) as (nx & ny & nz & Hvn & Hvt & _).
  exists g, normals, tangents, nx, ny, nz. repeat (split; [assumption|]). exact Hvt.
Defined.

(** ** Texture coordinates *)

Lemma atan2_bound (y x : R) : - PI < atan2 y x <= PI.
Proof.
  pose proof PI_RGT_0 as Hpi. unfold atan2.
  destruct (Rlt_dec 0 x) as [Hx|Hx].
  - pose proof (atan_bound (y / x)). lra.
  - destruct (Rlt_dec x 0) as [Hx'|Hx'].
    + pose proof (atan_bound (y / x)) as Hb.
      assert (Hinv : / x < 0) by now apply Rinv_lt_0_compat.
      destruct (Rle_dec 0 y) as [Hy|Hy].
      * assert (Hq : y / x <= 0) by (unfold Rdiv; nra).
        assert (atan (y / x) <= 0).
        { destruct Hq as [Hq|Hq].
          - apply Rlt_le. rewrite <- atan_0. now apply atan_increasing.
          - rewrite Hq, atan_0. lra. }
        lra.
      * assert (Hq : 0 < y / x) by (unfold Rdiv; nra).
        assert (0 < atan (y / x))
          by (rewrite <- atan_0; now apply atan_increasing).
        lra.
    + destruct (Rlt_dec 0 y); [lra|]. destruct (Rlt_dec y 0); lra.
Qed.

Lemma texture_u_range (y x : R) : 0 < atan2 y x * ONE_OVER_TWO_PI + 0.5 <= 1.
Proof.
  pose proof PI_RGT_0 as Hpi. pose proof (atan2_bound y x) as Hb.
  unfold ONE_OVER_TWO_PI. set (a := atan2 y x) in *.
  assert (Hhalf : 0.5 = 1 / 2) by lra. rewrite Hhalf.
  replace (a * (1 / (2 * PI)) + 1 / 2) with ((a + PI) / (2 * PI)) by (field; lra).
  split.
  - apply Rdiv_lt_0_compat; lra.
  - apply Rmult_le_reg_r with (2 * PI); [lra|].
    replace ((a + PI) / (2 * PI) * (2 * PI)) with (a + PI) by (field; lra). lra.
Qed.

Lemma texture_v_range (z : R) : 0 <= asin z * ONE_OVER_PI + 0.5 <= 1.
Proof.
  pose proof PI_RGT_0 as Hpi. pose proof (asin_bound z) as Hb.
  unfold ONE_OVER_PI. set (a := asin z) in *.
  assert (Hhalf : 0.5 = 1 / 2) by lra. rewrite Hhalf.
  replace (a * (1 / PI) + 1 / 2) with ((a + PI / 2) / PI) by (field; lra).
  split.
  - apply Rmult_le_reg_r with PI; [lra|].
    replace ((a + PI / 2) / PI * PI) with (a + PI / 2) by (field; lra). lra.
  - apply Rmult_le_reg_r with PI; [lra|].
    replace ((a + PI / 2) / PI * PI) with (a + PI / 2) by (field; lra). lra.
Qed.

(** X5: for every partition count [P >= 1] and positive radii, every emitted
    texture coordinate lies in [[0, 1]]. *)
Theorem texture_coordinates_in_unit_square (options : option Options.t) :
  let P := partitions_of options in
  let r := Ellipsoid.radii (ellipsoid_of options) in
  (1 <= P)%Z ->
  0 < Cartesian3.x r -> 0 < Cartesian3.y r -> 0 < Cartesian3.z r ->
  VertexFormat.st (format_of options) = true ->
  exists (g : Geometry.t) (values : list R),
    EllipsoidGeometry options = Ok g
    /\ Attributes.st (Geometry.attributes g)
       = Some (GeometryAttribute.mk FLOAT 2 values)
    /\ Forall (fun c => 0 <= c <= 1) values.
Proof.
  intros P r HP _ _ _ Hfmt.
  eexists. eexists. split; [now apply EllipsoidGeometry_eq|].
  unfold geometry_of. cbn [Geometry.attributes]. rewrite buildAttributes_eq.
  cbn [snd Attributes.st]. rewrite Hfmt. split; [reflexivity|].
  unfold computeTexCoords. apply Forall_flat_map, Forall_forall. intros p _.
  apply Forall_cons.
  - destruct (texture_u_range
                (Cartesian3.y (Cartesian3.normalize
                   (Cartesian3.multiplyComponents p
                      (Ellipsoid.getOneOverRadii (ellipsoid_of options)))))
                (Cartesian3.x (Cartesian3.normalize
                   (Cartesian3.multiplyComponents p
                      (Ellipsoid.getOneOverRadii (ellipsoid_of options))))))
      as [Hlo Hhi].
    split; [apply Rlt_le; exact Hlo | exact Hhi].
  - apply Forall_cons; [apply texture_v_range | apply Forall_nil].
Qed.

Lemma texture_coordinates_in_unit_square_witness :
  (1 <= 1)%Z /\ 0 < 1
  /\ exists (g : Geometry.t) (values : list R),
       EllipsoidGeometry (Some (Options.mk None (Some 1%Z) None None None)) = Ok g
       /\ Attributes.st (Geometry.attributes g)
          = Some (GeometryAttribute.mk FLOAT 2 values)
       /\ Forall (fun c => 0 <= c <= 1) values.
Proof.
  assert (H1 : 0 < 1) by lra. split; [lia|]. split; [exact H1|].
  pose proof (texture_coordinates_in_unit_square
                (Some (Options.mk None (Some 1%Z) None None None))) as H.
  cbv zeta in H. change (partitions_of _) with 1%Z in H.
  exact (H ltac:(lia) H1 H1 H1 eq_refl).
Defined.

Lemma computeTexCoords_vertex (e : Ellipsoid.t) (ps : list Cartesian3.t)
    (i : nat) (p : Cartesian3.t) :
  nth_error ps i = Some p ->
  let s := Cartesian3.normalize
             (Cartesian3.multiplyComponents p (Ellipsoid.getOneOverRadii e)) in
  vertex2 (computeTexCoords e ps) i
  = [atan2 (Cartesian3.y s) (Cartesian3.x s) * ONE_OVER_TWO_PI + 0.5;
     asin (Cartesian3.z s) * ONE_OVER_PI + 0.5].
Proof.
  intros H s. unfold vertex2, computeTexCoords.
  replace (2 * i)%nat with (i * 2)%nat by lia.
  match goal with
  | |- firstn 2 (skipn _ (flat_map ?f ps)) = _ =>
      destruct (flat_map_block f ps i (c := 2%nat) (fun a => eq_refl) H)
        as [rest ->]
  end.
  reflexivity.
Qed.

Lemma atan2_origin : atan2 0 0 = 0.
Proof.
  unfold atan2. destruct (Rlt_dec 0 0); [lra|]. destruct (Rlt_dec 0 0); lra.
Qed.

Lemma asin_minus_1 : asin (-1) = - (PI / 2).
Proof. unfold asin. destruct (Rle_dec (-1) (-1)); [reflexivity | lra]. Qed.

Section TexturePoles.

Variable e : Ellipsoid.t.
Hypothesis Hrz : 0 < Cartesian3.z (Ellipsoid.radii e).

Lemma spherical_pole_up (vf : VertexFormat.t) :
  let p := if VertexFormat.position vf
           then Cartesian3.multiplyComponents
                  (Cartesian3.normalize (Cartesian3.mk 0 0 1)) (Ellipsoid.getRadii e)
           else Cartesian3.mk 0 0 1 in
  Cartesian3.normalize (Cartesian3.multiplyComponents p (Ellipsoid.getOneOverRadii e))
  = Cartesian3.mk 0 0 1.
Proof.
  cbv zeta. pose proof (Rinv_0_lt_compat _ Hrz) as Hinv.
  apply normalize_axis_up; destruct (VertexFormat.position vf);
    try rewrite normalize_axis_up by (cbn; lra);
    unfold Cartesian3.multiplyComponents, Ellipsoid.getRadii, Ellipsoid.getOneOverRadii;
    cbn [Cartesian3.x Cartesian3.y Cartesian3.z]; nra.
Qed.

Lemma spherical_pole_down (vf : VertexFormat.t) :
  let p := if VertexFormat.position vf
           then Cartesian3.multiplyComponents
                  (Cartesian3.normalize (Cartesian3.mk 0 0 (-1))) (Ellipsoid.getRadii e)
           else Cartesian3.mk 0 0 (-1) in
  Cartesian3.normalize (Cartesian3.multiplyComponents p (Ellipsoid.getOneOverRadii e))
  = Cartesian3.mk 0 0 (-1).
Proof.
  cbv zeta. pose proof (Rinv_0_lt_compat _ Hrz) as Hinv.
  apply normalize_axis_down; destruct (VertexFormat.position vf);
    try rewrite normalize_axis_down by (cbn; lra);
    unfold Cartesian3.multiplyComponents, Ellipsoid.getRadii, Ellipsoid.getOneOverRadii;
    cbn [Cartesian3.x Cartesian3.y Cartesian3.z]; nra.
Qed.

End TexturePoles.

(** X6: for every even partition count [P >= 2] and positive radii, the
    texture coordinates emitted for the centre of the top cap are
    [(0.5, 1)] and those for the centre of the bottom cap are [(0.5, 0)]. *)
Theorem texture_at_poles (options : option Options.t) :
  let P := partitions_of options in
  let e := ellipsoid_of options in
  let cell := Z.to_nat ((P / 2 - 1) * (P - 1) + (P / 2 - 1)) in
  let top := (face_base P 4 + cell)%nat in
  let bottom := (face_base P 5 + cell)%nat in
  Z.even P = true -> (2 <= P)%Z ->
  0 < Cartesian3.x (Ellipsoid.radii e) ->
  0 < Cartesian3.y (Ellipsoid.radii e) ->
  0 < Cartesian3.z (Ellipsoid.radii e) ->
  VertexFormat.st (format_of options) = true ->
  exists (cube : list Cartesian3.t) (indices : JsArray.t nat) (g : Geometry.t)
         (values : list R),
    cubeMesh P = Ok (cube, indices)
    /\ EllipsoidGeometry options = Ok g
    /\ nth_error cube top = Some (Cartesian3.mk 0 0 1)
    /\ nth_error cube bottom = Some (Cartesian3.mk 0 0 (-1))
    /\ Attributes.st (Geometry.attributes g)
       = Some (GeometryAttribute.mk FLOAT 2 values)
    /\ vertex2 values top = [0.5; 1]
    /\ vertex2 values bottom = [0.5; 0].
Proof.
  intros P e cell top bottom He HP _ _ Hrz Hfmt.
  set (vf := format_of options).
  assert (Htop : nth_error (mesh_positions P) top = Some (Cartesian3.mk 0 0 1)).
  { unfold top, cell. rewrite cap_centre_index by (assumption || lia).
    now rewrite top_centre. }
  assert (Hbot : nth_error (mesh_positions P) bottom = Some (Cartesian3.mk 0 0 (-1))).
  { unfold bottom, cell. rewrite cap_centre_index by (assumption || lia).
    now rewrite bottom_centre. }
  exists (mesh_positions P), (mesh_indices P),
    (geometry_of options (mesh_positions P) (mesh_indices P)),
    (computeTexCoords e (passed_positions e vf (mesh_positions P))).
  split; [apply cubeMesh_eq; lia|]. split; [apply EllipsoidGeometry_eq; lia|].
  split; [assumption|]. split; [assumption|].
  split.
  { unfold geometry_of. cbn [Geometry.attributes]. fold e vf.
    rewrite buildAttributes_eq. cbn [snd Attributes.st].
    unfold vf at 1. now rewrite Hfmt. }
  pose proof PI_RGT_0 as Hpi.
  apply (passed_positions_nth e vf) in Htop, Hbot.
  rewrite (computeTexCoords_vertex e _ top _ Htop).
  rewrite (computeTexCoords_vertex e _ bottom _ Hbot).
  rewrite (spherical_pole_up e Hrz vf), (spherical_pole_down e Hrz vf).
  cbn [Cartesian3.x Cartesian3.y Cartesian3.z].
  rewrite atan2_origin, asin_1, asin_minus_1. unfold ONE_OVER_PI.
  assert (Hhalf : 0.5 = 1 / 2) by lra. rewrite Hhalf.
  split; f_equal; try field; try lra; f_equal; field; lra.
Qed.

Lemma texture_at_poles_witness :
  Z.even 2 = true /\ (2 <= 2)%Z /\ 0 < 1
  /\ exists (g : Geometry.t) (values : list R),
       EllipsoidGeometry (Some (Options.mk None (Some 2%Z) None None None)) = Ok g
       /\ Attributes.st (Geometry.attributes g)
          = Some (GeometryAttribute.mk FLOAT 2 values)
       /\ vertex2 values 24 = [0.5; 1] /\ vertex2 values 25 = [0.5; 0].
Proof.
  assert (H1 : 0 < 1) by lra.
  split; [reflexivity|]. split; [lia|]. split; [exact H1|].
  pose proof (texture_at_poles (Some (Options.mk None (Some 2%Z) None None None)))
    as H.
  cbv zeta in H. change (partitions_of _) with 2%Z in H.
  destruct (H eq_refl ltac:(lia) H1 H1 H1 eq_refl)
    as (cube & indices & g & values & _ & Hrun & _ & _ & Hst & Htop & Hbot).
  exists g, values. repeat split; assumption.
Defined.

(** ** The index grid of a face and the positions it points at *)

Lemma segment_point_start (a b : Cartesian3.t) : segment_point a b 0 = a.
Proof.
  destruct a, b. unfold segment_point, Cartesian3.add, Cartesian3.multiplyByScalar,
    Cartesian3.subtract. cbn [Cartesian3.x Cartesian3.y Cartesian3.z]. f_equal; ring.
Qed.

Lemma segment_point_end (a b : Cartesian3.t) : segment_point a b 1 = b.
Proof.
  destruct a, b. unfold segment_point, Cartesian3.add, Cartesian3.multiplyByScalar,
    Cartesian3.subtract. cbn [Cartesian3.x Cartesian3.y Cartesian3.z]. f_equal; ring.
Qed.

Lemma segment_point_reverse (a b : Cartesian3.t) (t : R) :
  segment_point a b (1 - t) = segment_point b a t.
Proof.
  unfold segment_point, Cartesian3.add, Cartesian3.multiplyByScalar,
    Cartesian3.subtract. cbn [Cartesian3.x Cartesian3.y Cartesian3.z]. f_equal; ring.
Qed.

Lemma fraction_zero (P : Z) : IZR 0 / IZR P = 0.
Proof. unfold Rdiv. ring. Qed.

Lemma fraction_one (P : Z) : (1 <= P)%Z -> IZR P / IZR P = 1.
Proof. intros H. assert (0 < IZR P) by (apply IZR_lt; lia). field. lra. Qed.

Lemma fraction_complement (P k : Z) :
  (1 <= P)%Z -> IZR (P - k) / IZR P = 1 - IZR k / IZR P.
Proof.
  intros H. assert (0 < IZR P) by (apply IZR_lt; lia).
  rewrite minus_IZR. field. lra.
Qed.

Lemma fraction_succ (P k : Z) :
  (1 <= P)%Z -> IZR (k + 1) / IZR P = IZR k / IZR P + 1 / IZR P.
Proof.
  intros H. assert (0 < IZR P) by (apply IZR_lt; lia).
  rewrite plus_IZR. field. lra.
Qed.

Lemma nth_error_mesh_corner (P : Z) (i : nat) :
  (i < 8)%nat -> nth_error (mesh_positions P) i = Some (corner i).
Proof. intros H. unfold mesh_positions. now apply nth_error_corner. Qed.

Lemma nth_error_mesh_edge (P : Z) (e m : nat) :
  (e < 12)%nat -> (m < interior P)%nat ->
  nth_error (mesh_positions P) (edge_base P e + m)
  = nth_error (mesh_edge_points P e) m.
Proof.
  intros He Hm. unfold mesh_positions, edge_base.
  rewrite nth_error_app2 by (simpl; lia).
  change (List.length corners) with 8%nat.
  assert (Hedges : List.length (flat_map (mesh_edge_points P) (seq 0 12))
                   = (12 * interior P)%nat).
  { rewrite flat_map_length_const with (c := interior P)
      by (intros a; apply edge_points_length).
    now rewrite length_seq. }
  rewrite nth_error_app1 by (rewrite Hedges; nia).
  replace (8 + e * interior P + m - 8)%nat with (e * interior P + m)%nat by lia.
  apply nth_error_flat_map_const.
  - intros a. apply edge_points_length.
  - rewrite nth_error_seq. destruct (Nat.ltb_spec e 12); [reflexivity | lia].
  - assumption.
Qed.

Lemma mesh_edge_position (P : Z) (e : nat) (k : Z) :
  (1 <= P)%Z -> (e < 12)%nat -> (0 <= k <= P)%Z ->
  exists n : nat,
    JsArray.get (mesh_edge P e) k = Some n
    /\ nth_error (mesh_positions P) n
       = Some (segment_point (corner (fst (cube_edge e))) (corner (snd (cube_edge e)))
                 (IZR k / IZR P)).
Proof.
  intros HP He Hk. destruct (cube_edge_corners e) as [H0 H1]. unfold mesh_edge.
  destruct (Z.eq_dec k 0) as [->|Hk0]; [|destruct (Z.eq_dec k P) as [->|HkP]].
  - eexists. split; [reflexivity|].
    rewrite fraction_zero, segment_point_start. now apply nth_error_mesh_corner.
  - eexists. split; [now apply get_edge_list_end|].
    rewrite fraction_one, segment_point_end by assumption.
    now apply nth_error_mesh_corner.
  - eexists. split; [apply get_edge_list_interior; lia|].
    rewrite nth_error_mesh_edge by (unfold interior; lia).
    unfold mesh_edge_points. rewrite nth_error_edge_points by (unfold interior; lia).
    replace (1 + Z.of_nat (Z.to_nat (k - 1)))%Z with k by lia. reflexivity.
Qed.

Lemma get_rev {A : Type} (a : JsArray.t A) (k : Z) :
  (0 <= k < Z.of_nat (List.length a))%Z ->
  JsArray.get (rev a) k = JsArray.get a (Z.of_nat (List.length a) - 1 - k).
Proof.
  intros Hk. unfold JsArray.get.
  destruct (Z.ltb_spec k 0); [lia|].
  destruct (Z.ltb_spec (Z.of_nat (List.length a) - 1 - k) 0); [lia|].
  rewrite nth_error_rev.
  destruct (Nat.ltb_spec (Z.to_nat k) (List.length a)); [|lia].
  replace (Z.to_nat (Z.of_nat (List.length a) - 1 - k))
    with (List.length a - S (Z.to_nat k))%nat by lia.
  reflexivity.
Qed.

Lemma side_position (P : Z) (s : side) (k : Z) :
  (1 <= P)%Z -> (fst s < 12)%nat -> (0 <= k <= P)%Z ->
  exists n : nat,
    JsArray.get (side_list P s) k = Some n
    /\ nth_error (mesh_positions P) n
       = Some (segment_point (corner (side_first s)) (corner (side_last s))
                 (IZR k / IZR P)).
Proof.
  intros HP Hs Hk. unfold side_list, side_first, side_last.
  destruct (snd s).
  - unfold JsArray.reverse, JsArray.slice0.
    assert (Hlen : List.length (mesh_edge P (fst s)) = S (S (interior P)))
      by apply edge_list_length.
    rewrite get_rev by (rewrite Hlen; unfold interior; lia). rewrite Hlen.
    replace (Z.of_nat (S (S (interior P))) - 1 - k)%Z with (P - k)%Z
      by (unfold interior; lia).
    destruct (mesh_edge_position P (fst s) (P - k) HP Hs ltac:(lia)) as (n & Hn & Hp).
    exists n. split; [exact Hn|].
    rewrite Hp, fraction_complement, segment_point_reverse by assumption.
    reflexivity.
  - now apply mesh_edge_position.
Qed.

Lemma face_boundary (f : nat) (t : R) :
  (f < 6)%nat ->
  let o := face_origin f in
  let x := face_x f in
  let y := face_y f in
  segment_point (corner (side_first (face_left f))) (corner (side_last (face_left f))) t
  = frame_point o x y 0 t
  /\ segment_point (corner (side_first (face_bottom f)))
       (corner (side_last (face_bottom f))) t
     = frame_point o x y t 0
  /\ segment_point (corner (side_first (face_right f)))
       (corner (side_last (face_right f))) t
     = frame_point o x y 1 t
  /\ segment_point (corner (side_first (face_top f))) (corner (side_last (face_top f))) t
     = frame_point o x y t 1.
Proof.
  intros Hf. cbv zeta. unfold face_left, face_right.
  cases_below f; coordinates; repeat split; f_equal; ring.
Qed.

Lemma grid_position (P : Z) (f : nat) (j k : Z) :
  (1 <= P)%Z -> (f < 6)%nat -> (0 <= j <= P)%Z -> (0 <= k <= P)%Z ->
  exists n : nat,
    JsArray.get
      (grid_row (side_list P (face_left f)) (side_list P (face_bottom f))
                (side_list P (face_right f)) (side_list P (face_top f))
                P (face_base P f) j) k
    = Some n
    /\ nth_error (mesh_positions P) n
       = Some (frame_point (face_origin f) (face_x f) (face_y f)
                 (IZR k / IZR P) (IZR j / IZR P)).
Proof.
  intros HP Hf Hj Hk.
  destruct (cube_face_sides f) as (Hl & Hb & Hr & Ht).
  destruct (Z.eq_dec j 0) as [->|Hj0]; [|destruct (Z.eq_dec j P) as [->|HjP]].
  - rewrite grid_row_bottom.
    destruct (side_position P (face_bottom f) k HP Hb Hk) as (n & Hn & Hp).
    exists n. split; [exact Hn|]. rewrite Hp, fraction_zero.
    f_equal. apply (face_boundary f _ Hf).
  - rewrite grid_row_top by assumption.
    destruct (side_position P (face_top f) k HP Ht Hk) as (n & Hn & Hp).
    exists n. split; [exact Hn|]. rewrite Hp, (fraction_one P HP).
    f_equal. apply (face_boundary f _ Hf).
  - rewrite grid_row_interior by lia.
    destruct (Z.eq_dec k 0) as [->|Hk0]; [|destruct (Z.eq_dec k P) as [->|HkP]].
    + destruct (interior_row_ends (side_list P (face_left f))
                  (side_list P (face_right f)) P (face_base P f) j HP) as [-> _].
      destruct (side_position P (face_left f) j HP Hl Hj) as (n & Hn & Hp).
      exists n. split; [exact Hn|]. rewrite Hp, fraction_zero.
      f_equal. apply (face_boundary f _ Hf).
    + destruct (interior_row_ends (side_list P (face_left f))
                  (side_list P (face_right f)) P (face_base P f) j HP) as [_ ->].
      destruct (side_position P (face_right f) j HP Hr Hj) as (n & Hn & Hp).
      exists n. split; [exact Hn|]. rewrite Hp, (fraction_one P HP).
      f_equal. apply (face_boundary f _ Hf).
    + eexists. split; [apply interior_row_column; lia|].
      rewrite nth_error_mesh_face; [| assumption | assumption | unfold interior; nia].
      unfold mesh_face_points. rewrite nth_error_face_points by lia. reflexivity.
Qed.

(** ** Winding *)

Lemma chunk3_flat_map {A B : Type} (g : A -> list B) (g' : A -> list (B * B * B))
    (l : list A) (rest : list B) :
  (forall a rest, chunk3 (g a ++ rest) = g' a ++ chunk3 rest) ->
  chunk3 (flat_map g l ++ rest) = flat_map g' l ++ chunk3 rest.
Proof.
  intros H. induction l as [|a l IH]; [reflexivity|].
  cbn [flat_map]. now rewrite <- !app_assoc, H, IH.
Qed.

Lemma chunk3_mesh_indices (P : Z) :
  chunk3 (mesh_indices P)
  = flat_map
      (fun f =>
         let row := grid_row (side_list P (face_left f)) (side_list P (face_bottom f))
                             (side_list P (face_right f)) (side_list P (face_top f))
                             P (face_base P f) in
         flat_map (fun j => flat_map (quad_triples (row (j - 1)%Z) (row j)) (zrange 0 P))
                  (zrange 1 (P + 1)))
      (seq 0 6).
Proof.
  unfold mesh_indices. rewrite <- (app_nil_r (flat_map _ _)).
  rewrite chunk3_flat_map with
    (g' := fun f =>
         let row := grid_row (side_list P (face_left f)) (side_list P (face_bottom f))
                             (side_list P (face_right f)) (side_list P (face_top f))
                             P (face_base P f) in
         flat_map (fun j => flat_map (quad_triples (row (j - 1)%Z) (row j)) (zrange 0 P))
                  (zrange 1 (P + 1))).
  - cbn [chunk3]. now rewrite app_nil_r.
  - intros f rest. cbv zeta. unfold mesh_face_triangles, face_triangles.
    apply chunk3_flat_map. intros j rest'. unfold row_triangles.
    apply chunk3_flat_map. intros k rest''. reflexivity.
Qed.

Lemma triple_frame (o x y : Cartesian3.t) (s u d d' : R) :
  triple (frame_point o x y s u) (frame_point o x y (s + d) u)
         (frame_point o x y (s + d) (u + d'))
  = d * d' * triple o x y
  /\ triple (frame_point o x y s u) (frame_point o x y (s + d) (u + d'))
            (frame_point o x y s (u + d'))
     = d * d' * triple o x y.
Proof.
  unfold triple, dot, frame_point, Cartesian3.cross, Cartesian3.add,
    Cartesian3.multiplyByScalar.
  cbn [Cartesian3.x Cartesian3.y Cartesian3.z]. split; ring.
Qed.

Lemma face_triple (f : nat) :
  (f < 6)%nat -> triple (face_origin f) (face_x f) (face_y f) = 2.
Proof.
  intros Hf. unfold triple, dot, Cartesian3.cross.
  cases_below f; coordinates; ring.
Qed.

Lemma cell_triangles (P : Z) (f : nat) (j k : Z)
    (tri : option nat * option nat * option nat) :
  (1 <= P)%Z -> (f < 6)%nat -> (1 <= j <= P)%Z -> (0 <= k < P)%Z ->
  let row := grid_row (side_list P (face_left f)) (side_list P (face_bottom f))
                      (side_list P (face_right f)) (side_list P (face_top f))
                      P (face_base P f) in
  In tri (quad_triples (row (j - 1)%Z) (row j) k) ->
  triangle_volume (mesh_positions P) tri (2 / (IZR P * IZR P)).
Proof.
  intros HP Hf Hj Hk row Hin.
  assert (HPR : 0 < IZR P) by (apply IZR_lt; lia).
  destruct (grid_position P f (j - 1) k HP Hf ltac:(lia) ltac:(lia)) as (n00 & G00 & P00).
  destruct (grid_position P f (j - 1) (k + 1) HP Hf ltac:(lia) ltac:(lia))
    as (n01 & G01 & P01).
  destruct (grid_position P f j (k + 1) HP Hf ltac:(lia) ltac:(lia)) as (n11 & G11 & P11).
  destruct (grid_position P f j k HP Hf ltac:(lia) ltac:(lia)) as (n10 & G10 & P10).
  replace (IZR j / IZR P) with (IZR (j - 1) / IZR P + 1 / IZR P) in P11, P10
    by (rewrite <- fraction_succ by assumption; do 2 f_equal; lia).
  rewrite fraction_succ in P01, P11 by assumption.
  destruct (triple_frame (face_origin f) (face_x f) (face_y f)
              (IZR k / IZR P) (IZR (j - 1) / IZR P) (1 / IZR P) (1 / IZR P))
    as [T1 T2].
  rewrite (face_triple f Hf) in T1, T2.
  assert (Hv : 1 / IZR P * (1 / IZR P) * 2 = 2 / (IZR P * IZR P)) by (field; lra).
  rewrite Hv in T1, T2.
  unfold quad_triples in Hin. fold row in G00, G01, G11, G10.
  rewrite G00, G01, G11, G10 in Hin. cbn [In] in Hin.
  destruct Hin as [<-|[<-|[]]].
  - exists n00, n01, n11; do 3 eexists. repeat (split; [eassumption || reflexivity|]).
    exact T1.
  - exists n00, n11, n10; do 3 eexists. repeat (split; [eassumption || reflexivity|]).
    exact T2.
Qed.

Lemma mesh_triangles_volume (P : Z) :
  (1 <= P)%Z ->
  Forall (fun tri => triangle_volume (mesh_positions P) tri (2 / (IZR P * IZR P)))
         (chunk3 (mesh_indices P)).
Proof.
  intros HP. rewrite chunk3_mesh_indices.
  apply Forall_flat_map, Forall_forall. intros f Hf. apply in_seq in Hf. cbv zeta.
  apply Forall_flat_map, Forall_forall. intros j Hj. apply zrange_In in Hj.
  apply Forall_flat_map, Forall_forall. intros k Hk. apply zrange_In in Hk.
  apply Forall_forall. intros tri Hin.
  apply (cell_triangles P f j k tri); (assumption || lia).
Qed.

(** X8: for every partition count [P >= 1], every three consecutive entries
    of the index buffer are indices of positions [a], [b], [c] whose triple
    product [a . (b x c)] in cube space is positive: every triangle is
    non-degenerate and wound the same way, counter-clockwise seen from
    outside. *)
Theorem triangles_wound_outward (P : Z) :
  (1 <= P)%Z ->
  exists (positions : list Cartesian3.t) (indices : JsArray.t nat),
    cubeMesh P = Ok (positions, indices)
    /\ Forall
         (fun tri =>
            exists (a b c : nat) (pa pb pc : Cartesian3.t),
              tri = (Some a, Some b, Some c)
              /\ nth_error positions a = Some pa
              /\ nth_error positions b = Some pb
              /\ nth_error positions c = Some pc
              /\ 0 < dot pa (Cartesian3.cross pb pc))
         (chunk3 indices).
Proof.
  intros HP. exists (mesh_positions P), (mesh_indices P).
  split; [now apply cubeMesh_eq|].
  assert (HPR : 0 < IZR P) by (apply IZR_lt; lia).
  assert (Hpos : 0 < 2 / (IZR P * IZR P)) by (apply Rdiv_lt_0_compat; nra).
  eapply Forall_impl; [|exact (mesh_triangles_volume P HP)].
  intros tri (a & b & c & pa & pb & pc & Htri & Ha & Hb & Hc & Hv).
  exists a, b, c, pa, pb, pc. repeat (split; [assumption|]).
  unfold triple in Hv. now rewrite Hv.
Qed.

Lemma triangles_wound_outward_witness :
  (1 <= 1)%Z
  /\ exists (positions : list Cartesian3.t) (indices : JsArray.t nat),
       cubeMesh 1 = Ok (positions, indices)
       /\ exists pa pb pc : Cartesian3.t,
            nth_error positions 0 = Some pa /\ nth_error positions 1 = Some pb
            /\ nth_error positions 5 = Some pc
            /\ 0 < dot pa (Cartesian3.cross pb pc).
Proof.
  split; [lia|].
  destruct (triangles_wound_outward 1 ltac:(lia))
    as (positions & indices & Hmesh & Hall).
  exists positions, indices. split; [exact Hmesh|].
  rewrite cubeMesh_eq in Hmesh by lia. injection Hmesh as <- <-.
  apply Forall_inv in Hall.
  destruct Hall as (a & b & c & pa & pb & pc & Htri & Ha & Hb & Hc & Hv).
  injection Htri as <- <- <-.
  exists pa, pb, pc. repeat split; assumption.
Defined.

Lemma triple_scale (a b c r : Cartesian3.t) :
  triple (Cartesian3.multiplyComponents a r) (Cartesian3.multiplyComponents b r)
         (Cartesian3.multiplyComponents c r)
  = Cartesian3.x r * Cartesian3.y r * Cartesian3.z r * triple a b c.
Proof.
  unfold triple, dot, Cartesian3.cross, Cartesian3.multiplyComponents.
  cbn [Cartesian3.x Cartesian3.y Cartesian3.z]. ring.
Qed.

Lemma triple_normalize (a b c : Cartesian3.t) :
  0 < norm2 a -> 0 < norm2 b -> 0 < norm2 c ->
  triple (Cartesian3.normalize a) (Cartesian3.normalize b) (Cartesian3.normalize c)
  = triple a b c
    / (Cartesian3.magnitude a * Cartesian3.magnitude b * Cartesian3.magnitude c).
Proof.
  intros Ha Hb Hc.
  pose proof (magnitude_pos a Ha). pose proof (magnitude_pos b Hb).
  pose proof (magnitude_pos c Hc).
  unfold triple, dot, Cartesian3.cross, Cartesian3.normalize.
  cbn [Cartesian3.x Cartesian3.y Cartesian3.z]. field. repeat split; lra.
Qed.

Lemma triple_expanded_pos (a b c r : Cartesian3.t) :
  0 < norm2 a -> 0 < norm2 b -> 0 < norm2 c ->
  0 < Cartesian3.x r -> 0 < Cartesian3.y r -> 0 < Cartesian3.z r ->
  0 < triple a b c ->
  0 < triple (Cartesian3.multiplyComponents (Cartesian3.normalize a) r)
             (Cartesian3.multiplyComponents (Cartesian3.normalize b) r)
             (Cartesian3.multiplyComponents (Cartesian3.normalize c) r).
Proof.
  intros Ha Hb Hc Hx Hy Hz Ht.
  rewrite triple_scale, triple_normalize by assumption.
  pose proof (magnitude_pos a Ha). pose proof (magnitude_pos b Hb).
  pose proof (magnitude_pos c Hc).
  apply Rmult_lt_0_compat; [repeat apply Rmult_lt_0_compat; assumption|].
  apply Rdiv_lt_0_compat; [assumption|].
  repeat apply Rmult_lt_0_compat; assumption.
Qed.

(** X9: for every partition count [P >= 1] and positive radii, every triangle
    of the index buffer, taken on the emitted (ellipsoid) positions [a],
    [b], [c], has a positive triple product [a . (b x c)]: the mesh is wound
    outward everywhere and has no degenerate triangle. *)
Theorem emitted_triangles_wound_outward (options : option Options.t) :
  let P := partitions_of options in
  let r := Ellipsoid.radii (ellipsoid_of options) in
  (1 <= P)%Z ->
  0 < Cartesian3.x r -> 0 < Cartesian3.y r -> 0 < Cartesian3.z r ->
  VertexFormat.position (format_of options) = true ->
  exists (g : Geometry.t) (values : list R) (indices : JsArray.t nat),
    EllipsoidGeometry options = Ok g
    /\ Attributes.position (Geometry.attributes g)
       = Some (GeometryAttribute.mk FLOAT 3 values)
    /\ Geometry.indexLists g = [GeometryIndices.mk TRIANGLES indices]
    /\ Forall
         (fun tri =>
            exists (a b c : nat) (qa qb qc : Cartesian3.t),
              tri = (Some a, Some b, Some c)
              /\ vertex3 values a = flatten3 qa
              /\ vertex3 values b = flatten3 qb
              /\ vertex3 values c = flatten3 qc
              /\ 0 < dot qa (Cartesian3.cross qb qc))
         (chunk3 indices).
Proof.
  intros P r HP Hx Hy Hz Hfmt.
  exists (geometry_of options (mesh_positions P) (mesh_indices P)),
    (snd (expandPositions (ellipsoid_of options) (mesh_positions P))),
    (mesh_indices P).
  split; [now apply EllipsoidGeometry_eq|]. split.
  { unfold geometry_of. cbn [Geometry.attributes]. rewrite buildAttributes_eq.
    cbn [snd Attributes.position]. now rewrite Hfmt. }
  split; [reflexivity|].
  assert (HPR : 0 < IZR P) by (apply IZR_lt; lia).
  eapply Forall_impl; [|apply (mesh_triangles_volume P HP)].
  intros tri (a & b & c & pa & pb & pc & -> & Ha & Hb & Hc & Hv).
  exists a, b, c. do 3 eexists. split; [reflexivity|].
  rewrite (expandPositions_vertex _ _ a pa Ha), (expandPositions_vertex _ _ b pb Hb),
    (expandPositions_vertex _ _ c pc Hc).
  do 3 (split; [reflexivity|]).
  apply (triple_expanded_pos pa pb pc r); try assumption;
    try (eapply mesh_positions_nonzero, nth_error_In; eassumption).
  rewrite Hv. apply Rdiv_lt_0_compat; nra.
Qed.

Lemma emitted_triangles_wound_outward_witness :
  (1 <= 1)%Z /\ 0 < 1
  /\ exists (g : Geometry.t) (values : list R) (qa qb qc : Cartesian3.t),
       EllipsoidGeometry (Some (Options.mk None (Some 1%Z) None None None)) = Ok g
       /\ Attributes.position (Geometry.attributes g)
          = Some (GeometryAttribute.mk FLOAT 3 values)
       /\ vertex3 values 0 = flatten3 qa /\ vertex3 values 1 = flatten3 qb
       /\ vertex3 values 5 = flatten3 qc
       /\ 0 < dot qa (Cartesian3.cross qb qc).
Proof.
  assert (H1 : 0 < 1) by lra. split; [lia|]. split; [exact H1|].
  pose proof (emitted_triangles_wound_outward
                (Some (Options.mk None (Some 1%Z) None None None))) as H.
  cbv zeta in H. change (partitions_of _) with 1%Z in H.
  destruct (H ltac:(lia) H1 H1 H1 eq_refl)
    as (g & values & indices & Hrun & Hattr & Hidx & Hall).
  rewrite EllipsoidGeometry_eq in Hrun by (cbv; discriminate).
  injection Hrun as <-. cbn [Geometry.indexLists geometry_of] in Hidx.
  injection Hidx as <-.
  apply Forall_inv in Hall.
  destruct Hall as (a & b & c & qa & qb & qc & Htri & Ha & Hb & Hc & Hv).
  injection Htri as <- <- <-.
  exists (geometry_of (Some (Options.mk None (Some 1%Z) None None None))
            (mesh_positions 1) (mesh_indices 1)), values, qa, qb, qc.
  split; [apply EllipsoidGeometry_eq; cbv; discriminate|].
  repeat split; assumption.
Defined.

(** ** Every vertex is referenced *)

Lemma grid_entry_used (L B R T : JsArray.t nat) (P : Z) (base : nat) (j k : Z) :
  (1 <= P)%Z -> (0 <= j <= P)%Z -> (0 <= k <= P)%Z ->
  In (JsArray.get (grid_row L B R T P base j) k) (face_triangles L B R T P base).
Proof.
  intros HP Hj Hk. unfold face_triangles. apply in_flat_map.
  exists (Z.max j 1). split; [apply zrange_In; lia|].
  unfold row_triangles. apply in_flat_map.
  exists (Z.min k (P - 1)). split; [apply zrange_In; lia|].
  unfold quad. cbn [In].
  destruct (Z.eq_dec j 0) as [->|Hj0], (Z.eq_dec k P) as [->|HkP].
  - replace (Z.max 0 1 - 1)%Z with 0%Z by lia.
    replace (Z.min P (P - 1) + 1)%Z with P by lia. auto.
  - replace (Z.max 0 1 - 1)%Z with 0%Z by lia.
    replace (Z.min k (P - 1)) with k by lia. auto.
  - replace (Z.max j 1) with j by lia.
    replace (Z.min P (P - 1) + 1)%Z with P by lia. auto.
  - replace (Z.max j 1) with j by lia.
    replace (Z.min k (P - 1)) with k by lia. auto 7.
Qed.

Lemma corner_in_grid (P : Z) (i : nat) :
  (1 <= P)%Z -> (i < 8)%nat ->
  exists (f : nat) (j k : Z),
    (f < 6)%nat /\ (0 <= j <= P)%Z /\ (0 <= k <= P)%Z
    /\ JsArray.get
         (grid_row (side_list P (face_left f)) (side_list P (face_bottom f))
                   (side_list P (face_right f)) (side_list P (face_top f))
                   P (face_base P f) j) k
       = Some i.
Proof.
  intros HP Hi.
  destruct (Nat.lt_ge_cases i 4) as [Hlo|Hhi].
  - exists i, 0%Z, 0%Z. split; [lia|]. split; [lia|]. split; [lia|].
    rewrite grid_row_bottom, side_list_first. cases_below i; reflexivity.
  - exists (i - 4)%nat, P, 0%Z. split; [lia|]. split; [lia|]. split; [lia|].
    rewrite grid_row_top, side_list_first by assumption.
    cases_below i; reflexivity.
Qed.

Lemma edge_point_in_grid (P : Z) (e m : nat) :
  (1 <= P)%Z -> (e < 12)%nat -> (m < interior P)%nat ->
  exists (f : nat) (j k : Z),
    (f < 6)%nat /\ (0 <= j <= P)%Z /\ (0 <= k <= P)%Z
    /\ JsArray.get
         (grid_row (side_list P (face_left f)) (side_list P (face_bottom f))
                   (side_list P (face_right f)) (side_list P (face_top f))
                   P (face_base P f) j) k
       = Some (edge_base P e + m)%nat.
Proof.
  intros HP He Hm. unfold interior in Hm.
  assert (Hget : JsArray.get (mesh_edge P e) (Z.of_nat m + 1)
                 = Some (edge_base P e + m)%nat).
  { unfold mesh_edge. rewrite get_edge_list_interior by lia. do 2 f_equal. lia. }
  destruct (Nat.lt_ge_cases e 4) as [H4|H4]; [|destruct (Nat.lt_ge_cases e 8) as [H8|H8]].
  - exists e, 0%Z, (Z.of_nat m + 1)%Z.
    split; [lia|]. split; [lia|]. split; [lia|].
    rewrite grid_row_bottom. rewrite <- Hget. f_equal. cases_below e; reflexivity.
  - exists (e - 4)%nat, P, (Z.of_nat m + 1)%Z.
    split; [lia|]. split; [lia|]. split; [lia|].
    rewrite grid_row_top by assumption. rewrite <- Hget. f_equal.
    cases_below e; reflexivity.
  - exists (e - 8)%nat, (Z.of_nat m + 1)%Z, 0%Z.
    split; [lia|]. split; [lia|]. split; [lia|].
    rewrite grid_row_interior by lia.
    destruct (interior_row_ends (side_list P (face_left (e - 8)))
                (side_list P (face_right (e - 8))) P (face_base P (e - 8))
                (Z.of_nat m + 1) HP) as [-> _].
    rewrite <- Hget. f_equal. cases_below e; reflexivity.
Qed.

Lemma face_point_in_grid (P : Z) (f c : nat) :
  (1 <= P)%Z -> (f < 6)%nat -> (c < interior P * interior P)%nat ->
  exists (j k : Z),
    (0 <= j <= P)%Z /\ (0 <= k <= P)%Z
    /\ JsArray.get
         (grid_row (side_list P (face_left f)) (side_list P (face_bottom f))
                   (side_list P (face_right f)) (side_list P (face_top f))
                   P (face_base P f) j) k
       = Some (face_base P f + c)%nat.
Proof.
  intros HP Hf Hc. unfold interior in Hc.
  set (I := Z.to_nat (P - 1)) in *.
  assert (HI : (0 < I)%nat) by nia.
  pose proof (Nat.div_mod_eq c I) as Hdm.
  pose proof (Nat.mod_upper_bound c I ltac:(lia)) as Hmod.
  assert (Hdiv : (c / I < I)%nat) by (apply Nat.Div0.div_lt_upper_bound; lia).
  exists (Z.of_nat (c / I) + 1)%Z, (Z.of_nat (c mod I) + 1)%Z.
  split; [lia|]. split; [lia|].
  rewrite grid_row_interior by lia. rewrite interior_row_column by lia.
  do 2 f_equal. unfold I in *. nia.
Qed.

Lemma vertex_in_grid (P : Z) (n : nat) :
  (1 <= P)%Z -> (n < List.length (mesh_positions P))%nat ->
  exists (f : nat) (j k : Z),
    (f < 6)%nat /\ (0 <= j <= P)%Z /\ (0 <= k <= P)%Z
    /\ JsArray.get
         (grid_row (side_list P (face_left f)) (side_list P (face_bottom f))
                   (side_list P (face_right f)) (side_list P (face_top f))
                   P (face_base P f) j) k
       = Some n.
Proof.
  intros HP Hn. rewrite mesh_positions_length in Hn by assumption.
  set (I := interior P) in *.
  destruct (Nat.lt_ge_cases n 8) as [H8|H8]; [now apply corner_in_grid|].
  destruct (Nat.lt_ge_cases n (8 + 12 * I)) as [He|He].
  - assert (HI : (0 < I)%nat) by lia.
    pose proof (Nat.div_mod_eq (n - 8) I) as Hdm.
    pose proof (Nat.mod_upper_bound (n - 8) I ltac:(lia)) as Hmod.
    assert (Hdiv : ((n - 8) / I < 12)%nat)
      by (apply Nat.Div0.div_lt_upper_bound; lia).
    replace n with (edge_base P ((n - 8) / I) + (n - 8) mod I)%nat
      by (unfold edge_base; fold I; nia).
    now apply edge_point_in_grid.
  - assert (HI : (0 < I * I)%nat) by lia.
    pose proof (Nat.div_mod_eq (n - 8 - 12 * I) (I * I)) as Hdm.
    pose proof (Nat.mod_upper_bound (n - 8 - 12 * I) (I * I) ltac:(lia)) as Hmod.
    assert (Hdiv : ((n - 8 - 12 * I) / (I * I) < 6)%nat)
      by (apply Nat.Div0.div_lt_upper_bound; lia).
    set (f := ((n - 8 - 12 * I) / (I * I))%nat) in *.
    set (c := ((n - 8 - 12 * I) mod (I * I))%nat) in *.
    replace n with (face_base P f + c)%nat by (unfold face_base; fold I; nia).
    destruct (face_point_in_grid P f c HP Hdiv Hmod) as (j & k & Hj & Hk & Hget).
    exists f, j, k. repeat split; (assumption || lia).
Qed.

(** X10: for every partition count [P >= 1], every index of the position list
    occurs in the index buffer: no vertex is left unused. *)
Theorem every_vertex_referenced (P : Z) :
  (1 <= P)%Z ->
  exists (positions : list Cartesian3.t) (indices : JsArray.t nat),
    cubeMesh P = Ok (positions, indices)
    /\ forall n : nat, (n < List.length positions)%nat -> In (Some n) indices.
Proof.
  intros HP. exists (mesh_positions P), (mesh_indices P).
  split; [now apply cubeMesh_eq|]. intros n Hn.
  destruct (vertex_in_grid P n HP Hn) as (f & j & k & Hf & Hj & Hk & Hget).
  unfold mesh_indices. apply in_flat_map. exists f.
  split; [apply in_seq; lia|].
  unfold mesh_face_triangles. rewrite <- Hget. now apply grid_entry_used.
Qed.

Lemma every_vertex_referenced_witness :
  (1 <= 2)%Z
  /\ exists (positions : list Cartesian3.t) (indices : JsArray.t nat),
       cubeMesh 2 = Ok (positions, indices)
       /\ In (Some 25%nat) indices.
Proof.
  split; [lia|].
  destruct (every_vertex_referenced 2 ltac:(lia)) as (positions & indices & Hmesh & Hall).
  exists positions, indices. split; [exact Hmesh|].
  apply Hall. rewrite cubeMesh_eq in Hmesh by lia. injection Hmesh as <- _.
  rewrite mesh_positions_length by lia. cbn. lia.
Defined.

(** ** Edge behaviour of the two helpers *)

(** X11: the edge interpolator raises exactly when one of its two indices is
    not an index of [positions]; otherwise, for every partition count, it
    leaves the existing positions in place and appends [P - 1] of them (none
    when [P <= 1]). For [P = 0] the destination overwrites the origin in the
    returned list, and for [P < 0] the destination is not stored in it. *)
Theorem addEdgePositions_outcome (i0 i1 : nat) (P : Z)
    (positions : list Cartesian3.t) :
  ((i0 < List.length positions)%nat /\ (i1 < List.length positions)%nat
   /\ exists (indexList : JsArray.t nat) (added : list Cartesian3.t),
        addEdgePositions i0 i1 P positions = Ok (indexList, positions ++ added)
        /\ List.length added = Z.to_nat (P - 1)
        /\ (P = 0%Z -> indexList = [Some i1])
        /\ ((P < 0)%Z -> indexList = [Some i0]))
  \/ (((List.length positions <= i0)%nat \/ (List.length positions <= i1)%nat)
      /\ addEdgePositions i0 i1 P positions = Throw UndefinedOperand).
Proof.
  destruct (nth_error positions i1) as [b|] eqn:Hb.
  - destruct (nth_error positions i0) as [a|] eqn:Ha.
    + left.
      assert (H0 : (i0 < List.length positions)%nat)
        by (apply nth_error_Some; congruence).
      assert (H1 : (i1 < List.length positions)%nat)
        by (apply nth_error_Some; congruence).
      split; [exact H0|]. split; [exact H1|].
      destruct (Z_lt_le_dec P 1) as [Hlt|Hge].
      * unfold addEdgePositions. rewrite Ha, Hb. cbn [defined bind].
        rewrite for_range_nil by lia.
        eexists. exists []. rewrite app_nil_r. split; [reflexivity|].
        split; [cbn; lia|]. split.
        -- intros ->. reflexivity.
        -- intros Hneg. unfold JsArray.set at 1.
           destruct (Z.ltb_spec (2 + (P - 1) - 1) 0); [reflexivity | lia].
      * rewrite (addEdgePositions_eq i0 i1 P positions a b Hge Ha Hb).
        do 2 eexists. split; [reflexivity|].
        split; [apply edge_points_length|]. split; intros; lia.
    + right. split; [left; now apply nth_error_None|].
      unfold addEdgePositions. now rewrite Ha, Hb.
  - right. split; [right; now apply nth_error_None|].
    unfold addEdgePositions. now rewrite Hb.
Qed.

Lemma addFaceTriangles_no_rows (L B R T : JsArray.t nat) (P : Z)
    (positions : list Cartesian3.t) (indices : JsArray.t nat)
    (o bx ty : Cartesian3.t) :
  (P <= 0)%Z ->
  position_at positions (JsArray.get B 0) = Some o ->
  position_at positions (JsArray.get B (JsArray.length B - 1)) = Some bx ->
  position_at positions (JsArray.get T 0) = Some ty ->
  addFaceTriangles L B R T P positions indices = Ok (positions, indices).
Proof.
  intros HP Ho Hbx Hty. rewrite addFaceTriangles_unfold.
  rewrite Ho, Hbx, Hty. cbn [defined bind].
  rewrite for_range_nil by lia. reflexivity.
Qed.

(** X12: the face tessellator raises exactly when one of the three corners of
    its frame (the first and last entry of the bottom side, the first entry
    of the top side) is not an index of [positions], and then nothing has
    been appended. Otherwise, whatever the four sides hold besides, it
    leaves the existing positions and indices in place and appends
    [(P - 1)^2] positions and [6 P^2] index entries (nothing at all when
    [P <= 0]). *)
Theorem addFaceTriangles_outcome (L B R T : JsArray.t nat) (P : Z)
    (positions : list Cartesian3.t) (indices : JsArray.t nat) :
  let origin := position_at positions (JsArray.get B 0) in
  let bx := position_at positions (JsArray.get B (JsArray.length B - 1)) in
  let ty := position_at positions (JsArray.get T 0) in
  (origin <> None /\ bx <> None /\ ty <> None
   /\ exists (added : list Cartesian3.t) (triangles : JsArray.t nat),
        addFaceTriangles L B R T P positions indices
        = Ok (positions ++ added, indices ++ triangles)
        /\ List.length added = (Z.to_nat (P - 1) * Z.to_nat (P - 1))%nat
        /\ List.length triangles = (6 * (Z.to_nat P * Z.to_nat P))%nat)
  \/ ((origin = None \/ bx = None \/ ty = None)
      /\ addFaceTriangles L B R T P positions indices = Throw UndefinedOperand).
Proof.
  cbv zeta.
  destruct (position_at positions (JsArray.get B (JsArray.length B - 1)))
    as [bx|] eqn:Hbx;
    [destruct (position_at positions (JsArray.get B 0)) as [o|] eqn:Ho;
     [destruct (position_at positions (JsArray.get T 0)) as [ty|] eqn:Hty|]|].
  - left. repeat (split; [discriminate|]).
    destruct (Z_lt_le_dec P 1) as [Hlt|Hge].
    + rewrite (addFaceTriangles_no_rows L B R T P positions indices o bx ty)
        by (assumption || lia).
      exists [], []. rewrite !app_nil_r. split; [reflexivity|].
      replace (Z.to_nat P) with 0%nat by lia. split; cbn; lia.
    + rewrite (addFaceTriangles_eq L B R T P positions indices o bx ty)
        by assumption.
      do 2 eexists. split; [reflexivity|]. split.
      * rewrite face_points_interior by assumption. reflexivity.
      * rewrite face_triangles_length. lia.
  - right. split; [auto|]. rewrite addFaceTriangles_unfold.
    now rewrite Ho, Hbx, Hty.
  - right. split; [auto|]. rewrite addFaceTriangles_unfold. now rewrite Ho, Hbx.
  - right. split; [auto|]. rewrite addFaceTriangles_unfold. now rewrite Hbx.
Qed.

(** X13: a bottom side shorter than [P + 1] entries is not rejected: when the
    three corners of the frame resolve, the face tessellator returns
    normally and the index entries it appended contain an undefined entry. *)
Theorem addFaceTriangles_short_side (L B R T : JsArray.t nat) (P : Z)
    (positions : list Cartesian3.t) (indices : JsArray.t nat)
    (o bx ty : Cartesian3.t) :
  (1 <= P)%Z ->
  position_at positions (JsArray.get B 0) = Some o ->
  position_at positions (JsArray.get B (JsArray.length B - 1)) = Some bx ->
  position_at positions (JsArray.get T 0) = Some ty ->
  (JsArray.length B <= P)%Z ->
  exists (added : list Cartesian3.t) (triangles : JsArray.t nat),
    addFaceTriangles L B R T P positions indices
    = Ok (positions ++ added, indices ++ triangles)
    /\ In None triangles.
Proof.
  intros HP Ho Hbx Hty Hshort.
  rewrite (addFaceTriangles_eq L B R T P positions indices o bx ty) by assumption.
  do 2 eexists. split; [reflexivity|].
  assert (Hhole : JsArray.get B P = None).
  { unfold JsArray.get, JsArray.length in *. destruct (Z.ltb_spec P 0); [reflexivity|].
    destruct (nth_error B (Z.to_nat P)) eqn:Hnth; [|reflexivity].
    assert (Z.to_nat P < List.length B)%nat by (apply nth_error_Some; congruence).
    lia. }
  rewrite <- Hhole.
  rewrite <- (grid_row_bottom L B R T P (List.length positions)) at 1.
  apply grid_entry_used; lia.
Qed.

Lemma addFaceTriangles_short_side_witness :
  (1 <= 2)%Z
  /\ exists (added : list Cartesian3.t) (triangles : JsArray.t nat),
       addFaceTriangles square_left [Some 0%nat; Some 1%nat] square_right square_top 2
         square_positions []
       = Ok (square_positions ++ added, [] ++ triangles)
       /\ In None triangles.
Proof.
  split; [lia|].
  exact (addFaceTriangles_short_side square_left [Some 0%nat; Some 1%nat] square_right
           square_top 2 square_positions []
           (Cartesian3.mk 0 0 0) (Cartesian3.mk 2 0 0) (Cartesian3.mk 0 2 0)
           ltac:(lia) eq_refl eq_refl eq_refl ltac:(cbv; discriminate)).
Defined.

(** ** Projection keeps the vertices apart *)

Ltac on_surface :=
  unfold gauge; coordinates; unfold Rmax, Rabs;
  repeat destruct (Rcase_abs _); destruct (Rle_dec _ _); lra.

Lemma corner_gauge (i : nat) : (i < 8)%nat -> gauge (corner i) = 1.
Proof. intros Hi. cases_below i; on_surface. Qed.

Lemma on_edge_gauge (e : nat) (p : Cartesian3.t) :
  (e < 12)%nat -> on_edge e p -> gauge p = 1.
Proof. intros He (t & Ht & ->). cases_below e; on_surface. Qed.

Lemma on_face_gauge (f : nat) (p : Cartesian3.t) :
  (f < 6)%nat -> on_face f p -> gauge p = 1.
Proof. intros Hf (s & u & Hs & Hu & ->). cases_below f; on_surface. Qed.

Lemma mesh_positions_gauge (P : Z) (p : Cartesian3.t) :
  In p (mesh_positions P) -> gauge p = 1.
Proof.
  intros H.
  destruct (mesh_position_kind P p H)
    as [(i & Hi & ->)|[(e & He & Hon)|(f & Hf & Hon)]].
  - now apply corner_gauge.
  - now apply (on_edge_gauge e).
  - now apply (on_face_gauge f).
Qed.

Lemma gauge_ray (p q : Cartesian3.t) (k : R) :
  0 < k ->
  Cartesian3.x p = k * Cartesian3.x q ->
  Cartesian3.y p = k * Cartesian3.y q ->
  Cartesian3.z p = k * Cartesian3.z q ->
  gauge p = k * gauge q.
Proof.
  intros Hk Hx Hy Hz. unfold gauge. rewrite Hx, Hy, Hz.
  rewrite !Rabs_mult, (Rabs_pos_eq k) by lra.
  rewrite <- Rmult_plus_distr_l. apply RmaxRmult. lra.
Qed.

(** Two points of the surface with the same projection on the ellipsoid are
    the same point. *)
Lemma projection_injective (p q r : Cartesian3.t) :
  gauge p = 1 -> gauge q = 1 -> 0 < norm2 p -> 0 < norm2 q ->
  0 < Cartesian3.x r -> 0 < Cartesian3.y r -> 0 < Cartesian3.z r ->
  Cartesian3.multiplyComponents (Cartesian3.normalize p) r
  = Cartesian3.multiplyComponents (Cartesian3.normalize q) r ->
  p = q.
Proof.
  intros Hgp Hgq Hp Hq Hx Hy Hz H.
  pose proof (magnitude_pos p Hp) as Hmp. pose proof (magnitude_pos q Hq) as Hmq.
  unfold Cartesian3.multiplyComponents, Cartesian3.normalize in H.
  cbn [Cartesian3.x Cartesian3.y Cartesian3.z] in H.
  injection H as Ex Ey Ez.
  apply Rmult_eq_reg_r in Ex, Ey, Ez; try lra.
  set (k := Cartesian3.magnitude p / Cartesian3.magnitude q).
  assert (Hk : 0 < k) by (unfold k; now apply Rdiv_lt_0_compat).
  assert (Kx : Cartesian3.x p = k * Cartesian3.x q).
  { unfold k. apply (Rmult_eq_reg_r (/ Cartesian3.magnitude p)).
    - unfold Rdiv in Ex. rewrite Ex. field. lra.
    - apply Rinv_neq_0_compat. lra. }
  assert (Ky : Cartesian3.y p = k * Cartesian3.y q).
  { unfold k. apply (Rmult_eq_reg_r (/ Cartesian3.magnitude p)).
    - unfold Rdiv in Ey. rewrite Ey. field. lra.
    - apply Rinv_neq_0_compat. lra. }
  assert (Kz : Cartesian3.z p = k * Cartesian3.z q).
  { unfold k. apply (Rmult_eq_reg_r (/ Cartesian3.magnitude p)).
    - unfold Rdiv in Ez. rewrite Ez. field. lra.
    - apply Rinv_neq_0_compat. lra. }
  pose proof (gauge_ray p q k Hk Kx Ky Kz) as Hg.
  rewrite Hgp, Hgq in Hg. assert (k = 1) by lra.
  destruct p, q. cbn [Cartesian3.x Cartesian3.y Cartesian3.z] in *.
  f_equal; nra.
Qed.

(** X27: for every partition count [P >= 1] and positive radii, no two vertices
    of the position buffer coincide: the projection on the ellipsoid keeps
    the points of the subdivided surface apart. *)
Theorem projected_vertices_distinct (options : option Options.t) :
  let P := partitions_of options in
  let r := Ellipsoid.radii (ellipsoid_of options) in
  (1 <= P)%Z ->
  0 < Cartesian3.x r -> 0 < Cartesian3.y r -> 0 < Cartesian3.z r ->
  VertexFormat.position (format_of options) = true ->
  exists (g : Geometry.t) (values : list R),
    EllipsoidGeometry options = Ok g
    /\ Attributes.position (Geometry.attributes g)
       = Some (GeometryAttribute.mk FLOAT 3 values)
    /\ forall i j : nat,
         (Z.of_nat i < vertex_count P)%Z -> (Z.of_nat j < vertex_count P)%Z ->
         vertex3 values i = vertex3 values j -> i = j.
Proof.
  intros P r HP Hx Hy Hz Hfmt.
  exists (geometry_of options (mesh_positions P) (mesh_indices P)),
    (snd (expandPositions (ellipsoid_of options) (mesh_positions P))).
  split; [now apply EllipsoidGeometry_eq|]. split.
  { unfold geometry_of. cbn [Geometry.attributes]. rewrite buildAttributes_eq.
    cbn [snd Attributes.position]. now rewrite Hfmt. }
  intros i j Hi Hj E. rewrite <- mesh_vertex_count in Hi, Hj by assumption.
  destruct (nth_error_in_range (mesh_positions P) i ltac:(lia)) as (p & Hp & Hinp).
  destruct (nth_error_in_range (mesh_positions P) j ltac:(lia)) as (q & Hq & Hinq).
  rewrite (expandPositions_vertex _ _ i p Hp), (expandPositions_vertex _ _ j q Hq) in E.
  assert (Epq : p = q).
  { apply (projection_injective p q r); try assumption.
    - now apply (mesh_positions_gauge P).
    - now apply (mesh_positions_gauge P).
    - now apply (mesh_positions_nonzero P).
    - now apply (mesh_positions_nonzero P).
    - unfold flatten3, Ellipsoid.getRadii in E. fold r in E.
      injection E as Ex Ey Ez.
      unfold Cartesian3.multiplyComponents, Cartesian3.normalize.
      cbn [Cartesian3.x Cartesian3.y Cartesian3.z]. now f_equal. }
  subst q. pose proof (mesh_positions_NoDup P HP) as Hnd.
  rewrite NoDup_nth_error in Hnd. apply Hnd; [lia|]. now rewrite Hp, Hq.
Qed.

Lemma projected_vertices_distinct_witness :
  (1 <= 1)%Z /\ 0 < 2 /\ 0 < 1 /\ 0 < 1
  /\ exists (g : Geometry.t) (values : list R),
       EllipsoidGeometry
         (Some (Options.mk (Some (Ellipsoid.mk (Cartesian3.mk 2 1 1))) (Some 1%Z)
                           None None None))
       = Ok g
       /\ Attributes.position (Geometry.attributes g)
          = Some (GeometryAttribute.mk FLOAT 3 values)
       /\ vertex3 values 0 <> vertex3 values 7.
Proof.
  assert (H2 : 0 < 2) by lra. assert (H1 : 0 < 1) by lra.
  split; [lia|]. split; [exact H2|]. split; [exact H1|]. split; [exact H1|].
  pose proof (projected_vertices_distinct
                (Some (Options.mk (Some (Ellipsoid.mk (Cartesian3.mk 2 1 1)))
                                  (Some 1%Z) None None None))) as H.
  cbv zeta in H. change (partitions_of _) with 1%Z in H.
  destruct (H ltac:(lia) H2 H1 H1 eq_refl) as (g & values & Hrun & Hattr & Hall).
  exists g, values. split; [exact Hrun|]. split; [exact Hattr|].
  intros E. apply (Hall 0%nat 7%nat) in E; [discriminate | reflexivity ..].
Defined.

(** * Workers/decodeDraco.js: properties *)

(** ** The heap *)

Lemma filter_below (l : list (nat * Draco.Kind)) (n a : nat) :
  Forall (fun o => (fst o < n)%nat) l -> (n <= a)%nat ->
  filter (fun o => negb (Nat.eqb (fst o) a)) l = l.
Proof.
  intros H Ha. induction H as [|o l Ho _ IH]; [reflexivity|].
  cbn [filter]. destruct (Nat.eqb_spec (fst o) a); [lia|].
  cbn [negb]. now rewrite IH.
Qed.

Lemma well_formed_grow (n : nat) (h : Draco.Heap) :
  well_formed_heap h ->
  well_formed_heap (Draco.mkHeap (n + Draco.next h) (Draco.live h)).
Proof.
  unfold well_formed_heap. cbn [Draco.next Draco.live].
  apply Forall_impl. intros o Ho. lia.
Qed.

Lemma alloc_well_formed (k : Draco.Kind) (h : Draco.Heap) :
  well_formed_heap h -> well_formed_heap (snd (Draco.alloc k h)).
Proof.
  unfold well_formed_heap, Draco.alloc. cbn [snd Draco.next Draco.live].
  intros H. apply Forall_app. split.
  - revert H. apply Forall_impl. intros o Ho. lia.
  - repeat constructor.
Qed.

Lemma destroy_well_formed (a : nat) (h : Draco.Heap) :
  well_formed_heap h -> well_formed_heap (Draco.destroy a h).
Proof.
  unfold well_formed_heap, Draco.destroy. cbn [Draco.next Draco.live].
  intros H. apply Forall_forall. intros o Ho. apply filter_In in Ho.
  destruct Ho as [Ho _]. revert o Ho. now apply Forall_forall.
Qed.

(** An object destroyed right after it was made leaves the live objects as
    they were. *)
Lemma alloc_destroy (k : Draco.Kind) (h : Draco.Heap) :
  well_formed_heap h ->
  Draco.destroy (fst (Draco.alloc k h)) (snd (Draco.alloc k h))
  = Draco.mkHeap (1 + Draco.next h) (Draco.live h).
Proof.
  intros H. unfold Draco.destroy, Draco.alloc.
  cbn [fst snd Draco.next Draco.live]. f_equal.
  rewrite filter_app, (filter_below _ (Draco.next h)) by (assumption || lia).
  cbn [filter fst]. rewrite Nat.eqb_refl. cbn [negb]. apply app_nil_r.
Qed.

(** ** Stores into a typed array *)

Lemma replace_nth_mid {A : Type} (pre post : list A) (x v : A) :
  replace_nth (pre ++ x :: post) (List.length pre) v = pre ++ v :: post.
Proof. induction pre as [|p pre IH]; cbn; [reflexivity | now rewrite IH]. Qed.

Lemma set_element_prefix {A B : Type} (c : B -> A) (l : list A) (vs : list B) (v : B) :
  (List.length vs < List.length l)%nat ->
  set_element (map c vs ++ skipn (List.length vs) l) (Z.of_nat (List.length vs)) (c v)
  = map c (vs ++ [v]) ++ skipn (List.length (vs ++ [v])) l.
Proof.
  intros H. unfold set_element.
  destruct (Z.ltb_spec (Z.of_nat (List.length vs)) 0); [lia|].
  rewrite Nat2Z.id.
  destruct (skipn (List.length vs) l) as [|x rest] eqn:E.
  - apply (f_equal (@List.length A)) in E. rewrite length_skipn in E.
    cbn in E. lia.
  - rewrite <- (length_map c vs) at 1. rewrite replace_nth_mid.
    rewrite map_app, <- app_assoc. cbn [map app]. do 2 f_equal.
    rewrite length_app. cbn [List.length].
    replace (List.length vs + 1)%nat with (1 + List.length vs)%nat by lia.
    rewrite <- skipn_skipn, E. reflexivity.
Qed.

Lemma store_prefix_filled (a : TypedArray) (vs : list JsNumber) (v : JsNumber) :
  (List.length vs < typed_length a)%nat ->
  store (prefix_filled a vs) (Z.of_nat (List.length vs)) v = prefix_filled a (vs ++ [v]).
Proof.
  destruct a as [l|l|l]; cbn [typed_length prefix_filled store]; intros H;
    f_equal; now apply set_element_prefix.
Qed.

Lemma prefix_filled_nil (a : TypedArray) : prefix_filled a [] = a.
Proof. now destruct a. Qed.

Lemma prefix_filled_all (a : TypedArray) (vs : list JsNumber) :
  List.length vs = typed_length a -> prefix_filled a vs = filled a vs.
Proof.
  destruct a as [l|l|l]; cbn [typed_length prefix_filled filled]; intros H;
    rewrite H, skipn_all, app_nil_r; reflexivity.
Qed.

Lemma typed_length_filled (a : TypedArray) (vs : list JsNumber) :
  typed_length (filled a vs) = List.length vs.
Proof. destruct a; cbn [filled typed_length]; apply length_map. Qed.

(** ** decodeIndexArray *)

Lemma face_values_length (g : Draco.MeshData) (i : Z) :
  List.length (face_values g i) = 3%nat.
Proof. unfold face_values. now destruct (Draco.face g i) as [[v0 v1] v2]. Qed.

Lemma face_indices_length (g : Draco.MeshData) :
  List.length (face_indices g) = (Draco.num_faces g * 3)%nat.
Proof.
  unfold face_indices.
  rewrite (flat_map_length_const _ 3) by apply face_values_length.
  rewrite zrange_length. f_equal. lia.
Qed.

(** The loop over the faces, after [k] rounds. *)
Lemma index_loop (g : Draco.MeshData) (a0 : TypedArray) (k : nat) :
  (k * 3 <= typed_length a0)%nat ->
  for_range 0 (Z.of_nat k)
    (fun i '(indexArray, offset) =>
       let '(v0, v1, v2) := Draco.face g i in
       let indexArray := store indexArray (offset + 0) (IntValue v0) in
       let indexArray := store indexArray (offset + 1) (IntValue v1) in
       let indexArray := store indexArray (offset + 2) (IntValue v2) in
       (indexArray, (offset + 3)%Z))
    (a0, 0%Z)
  = (prefix_filled a0 (flat_map (face_values g) (zrange 0 (Z.of_nat k))),
     (3 * Z.of_nat k)%Z).
Proof.
  induction k as [|k IH]; intros Hk.
  - rewrite for_range_nil by (cbn; lia). rewrite zrange_nil by (cbn; lia).
    cbn [flat_map]. now rewrite prefix_filled_nil.
  - rewrite Nat2Z.inj_succ, <- Z.add_1_r.
    rewrite for_range_snoc, zrange_snoc by lia. rewrite IH by lia.
    rewrite flat_map_app. cbn [flat_map]. rewrite app_nil_r.
    set (vs := flat_map (face_values g) (zrange 0 (Z.of_nat k))).
    assert (Hvs : List.length vs = (k * 3)%nat).
    { unfold vs. rewrite (flat_map_length_const _ 3) by apply face_values_length.
      rewrite zrange_length. f_equal. lia. }
    unfold face_values. destruct (Draco.face g (Z.of_nat k)) as [[v0 v1] v2].
    f_equal; [|lia].
    replace (3 * Z.of_nat k + 0)%Z with (Z.of_nat (List.length vs)) by lia.
    rewrite store_prefix_filled by lia.
    replace (3 * Z.of_nat k + 1)%Z with (Z.of_nat (List.length (vs ++ [IntValue v0])))
      by (rewrite length_app; cbn [List.length]; lia).
    rewrite store_prefix_filled by (rewrite length_app; cbn [List.length]; lia).
    replace (3 * Z.of_nat k + 2)%Z
      with (Z.of_nat (List.length ((vs ++ [IntValue v0]) ++ [IntValue v1])))
      by (rewrite !length_app; cbn [List.length]; lia).
    rewrite store_prefix_filled by (rewrite !length_app; cbn [List.length]; lia).
    now rewrite <- !app_assoc.
Qed.

Lemma decodeIndexArray_heap (createTypedArray : nat -> nat -> TypedArray)
    (g : Draco.MeshData) (h : Draco.Heap) :
  well_formed_heap h ->
  fst (decodeIndexArray createTypedArray g h)
  = Draco.mkHeap (1 + Draco.next h) (Draco.live h).
Proof.
  intros H. unfold decodeIndexArray.
  rewrite (surjective_pairing (Draco.alloc Draco.DracoInt32Array h)).
  destruct (for_range _ _ _ _) as [a o]. cbn [fst]. now apply alloc_destroy.
Qed.

Lemma decodeIndexArray_value (createTypedArray : nat -> nat -> TypedArray)
    (g : Draco.MeshData) (h : Draco.Heap) :
  typed_length (createTypedArray (Draco.num_points g) (Draco.num_faces g * 3)%nat)
  = (Draco.num_faces g * 3)%nat ->
  snd (decodeIndexArray createTypedArray g h)
  = mkIndexArray
      (filled (createTypedArray (Draco.num_points g) (Draco.num_faces g * 3)%nat)
              (face_indices g))
      (Draco.num_faces g * 3)%nat.
Proof.
  intros H. unfold decodeIndexArray.
  rewrite (surjective_pairing (Draco.alloc Draco.DracoInt32Array h)).
  rewrite index_loop by lia. cbn [snd]. f_equal.
  apply prefix_filled_all. now rewrite face_indices_length.
Qed.

(** The index array does not depend on the heap. *)
Lemma decodeIndexArray_heap_irrelevant (createTypedArray : nat -> nat -> TypedArray)
    (g : Draco.MeshData) (h h' : Draco.Heap) :
  snd (decodeIndexArray createTypedArray g h)
  = snd (decodeIndexArray createTypedArray g h').
Proof.
  unfold decodeIndexArray.
  rewrite (surjective_pairing (Draco.alloc Draco.DracoInt32Array h)).
  rewrite (surjective_pairing (Draco.alloc Draco.DracoInt32Array h')).
  now destruct (for_range _ _ _ _) as [a o].
Qed.

(** ** decodeAttributeData *)

(** The loop that copies the decoded values, after [k] rounds. *)
Lemma vertex_loop (a0 : TypedArray) (GetValue : Z -> JsNumber) (k : nat) :
  (k <= typed_length a0)%nat ->
  for_range 0 (Z.of_nat k)
    (fun i vertexArray => store vertexArray i (GetValue i)) a0
  = prefix_filled a0 (map GetValue (zrange 0 (Z.of_nat k))).
Proof.
  induction k as [|k IH]; intros Hk.
  - rewrite for_range_nil by (cbn; lia). rewrite zrange_nil by (cbn; lia).
    cbn [map]. now rewrite prefix_filled_nil.
  - rewrite Nat2Z.inj_succ, <- Z.add_1_r.
    rewrite for_range_snoc, zrange_snoc by lia. rewrite IH by lia.
    rewrite map_app. cbn [map].
    set (vs := map GetValue (zrange 0 (Z.of_nat k))).
    assert (Hvs : List.length vs = k).
    { unfold vs. rewrite length_map, zrange_length. lia. }
    rewrite <- Hvs at 1. apply store_prefix_filled. lia.
Qed.

Lemma vertex_loop_all (a0 : TypedArray) (GetValue : Z -> JsNumber) :
  for_range 0 (Z.of_nat (typed_length a0))
    (fun i vertexArray => store vertexArray i (GetValue i)) a0
  = filled a0 (map GetValue (zrange 0 (Z.of_nat (typed_length a0)))).
Proof.
  rewrite vertex_loop by lia. apply prefix_filled_all.
  rewrite length_map, zrange_length. lia.
Qed.

(** The loop that fills [minValues], after [k] rounds. *)
Lemma min_values_loop (min_value : Z -> R) (n k : nat) :
  (k <= n)%nat ->
  for_range 0 (Z.of_nat k)
    (fun i minValues => JsArray.set minValues i (Some (min_value i)))
    (repeat None n)
  = map (fun i => Some (min_value i)) (zrange 0 (Z.of_nat k)) ++ repeat None (n - k).
Proof.
  induction k as [|k IH]; intros Hk.
  - rewrite for_range_nil by (cbn; lia). rewrite zrange_nil by (cbn; lia).
    cbn [map app]. now rewrite Nat.sub_0_r.
  - rewrite Nat2Z.inj_succ, <- Z.add_1_r.
    rewrite for_range_snoc, zrange_snoc by lia. rewrite IH by lia.
    rewrite map_app, <- app_assoc. cbn [map app].
    replace (n - k)%nat with (S (n - S k)) by lia. cbn [repeat].
    unfold JsArray.set. destruct (Z.ltb_spec (Z.of_nat k) 0); [lia|].
    apply set_nat_mid. rewrite length_map, zrange_length. lia.
Qed.

Lemma min_values_loop_all (min_value : Z -> R) (n : nat) :
  for_range 0 (Z.of_nat n)
    (fun i minValues => JsArray.set minValues i (Some (min_value i)))
    (repeat None n)
  = map (fun i => Some (min_value i)) (zrange 0 (Z.of_nat n)).
Proof.
  rewrite min_values_loop by lia. rewrite Nat.sub_diag. apply app_nil_r.
Qed.

Lemma decodeAttribute_heap {Datatype : Type} (fromTypedArray : TypedArray -> Datatype)
    (g : Draco.MeshData) (id : Z) (h : Draco.Heap) :
  well_formed_heap h ->
  fst (decodeAttribute fromTypedArray g id h)
  = Draco.mkHeap (3 + Draco.next h) (Draco.live h).
Proof.
  intros H. unfold decodeAttribute.
  set (a := Draco.attribute_by_unique_id g id).
  assert (H1 : forall k, well_formed_heap (Draco.mkHeap (k + Draco.next h) (Draco.live h)))
    by (intros k; now apply well_formed_grow).
  destruct (Draco.data_type a =? 4)%Z.
  - rewrite (surjective_pairing (Draco.alloc Draco.DracoInt32Array h)).
    rewrite alloc_destroy by assumption.
    rewrite (surjective_pairing (Draco.alloc Draco.AttributeQuantizationTransform _)).
    rewrite alloc_destroy by apply H1.
    rewrite (surjective_pairing (Draco.alloc Draco.AttributeOctahedronTransform _)).
    rewrite alloc_destroy by (cbn [Draco.next Draco.live]; apply (H1 (1 + 1)%nat)).
    reflexivity.
  - rewrite (surjective_pairing (Draco.alloc Draco.DracoFloat32Array h)).
    rewrite alloc_destroy by assumption.
    rewrite (surjective_pairing (Draco.alloc Draco.AttributeQuantizationTransform _)).
    rewrite alloc_destroy by apply H1.
    rewrite (surjective_pairing (Draco.alloc Draco.AttributeOctahedronTransform _)).
    rewrite alloc_destroy by (cbn [Draco.next Draco.live]; apply (H1 (1 + 1)%nat)).
    reflexivity.
Qed.

Lemma decodeAttribute_value {Datatype : Type} (fromTypedArray : TypedArray -> Datatype)
    (g : Draco.MeshData) (id : Z) (h : Draco.Heap) :
  snd (decodeAttribute fromTypedArray g id h)
  = let attribute := Draco.attribute_by_unique_id g id in
    let values := attribute_values (Draco.num_points g) attribute in
    mkDecoded values
      (mkMetadata (Draco.num_components attribute) (Draco.byte_offset attribute)
                  (Draco.byte_stride attribute) (Draco.normalized attribute)
                  (fromTypedArray values) (attribute_quantization attribute)).
Proof.
  unfold decodeAttribute, attribute_values, attribute_quantization.
  cbv zeta.
  set (a := Draco.attribute_by_unique_id g id).
  destruct (Draco.data_type a =? 4)%Z.
  - rewrite (surjective_pairing (Draco.alloc Draco.DracoInt32Array h)).
    rewrite (surjective_pairing (Draco.alloc Draco.AttributeQuantizationTransform _)).
    rewrite (surjective_pairing (Draco.alloc Draco.AttributeOctahedronTransform _)).
    cbn [snd]. rewrite vertex_loop_all.
    cbn [typed_length filled]. rewrite repeat_length, map_map.
    cbn [toUint].
    destruct (Draco.octahedron_transform a), (Draco.quantization_transform a);
      try rewrite min_values_loop_all; reflexivity.
  - rewrite (surjective_pairing (Draco.alloc Draco.DracoFloat32Array h)).
    rewrite (surjective_pairing (Draco.alloc Draco.AttributeQuantizationTransform _)).
    rewrite (surjective_pairing (Draco.alloc Draco.AttributeOctahedronTransform _)).
    cbn [snd]. rewrite vertex_loop_all.
    cbn [typed_length filled]. rewrite repeat_length, map_map.
    cbn [toFloat].
    destruct (Draco.octahedron_transform a), (Draco.quantization_transform a);
      try rewrite min_values_loop_all; reflexivity.
Qed.

Lemma decodeAttribute_heap_irrelevant {Datatype : Type}
    (fromTypedArray : TypedArray -> Datatype) (g : Draco.MeshData) (id : Z)
    (h h' : Draco.Heap) :
  snd (decodeAttribute fromTypedArray g id h)
  = snd (decodeAttribute fromTypedArray g id h').
Proof. now rewrite !decodeAttribute_value. Qed.

(** The loop over the properties, from any heap and any entries already
    set: the heap it leaves. *)
Lemma decodeAttributeData_loop_heap {Datatype : Type}
    (fromTypedArray : TypedArray -> Datatype) (g : Draco.MeshData)
    (attributes : list (string * Z)) (h : Draco.Heap)
    (done : list (string * DecodedAttribute Datatype)) :
  well_formed_heap h ->
  fst (fold_left
         (fun '(heap, decodedAttributeData) '(attributeName, compressedAttribute) =>
            let '(heap, decoded) :=
              decodeAttribute fromTypedArray g compressedAttribute heap in
            (heap, decodedAttributeData ++ [(attributeName, decoded)]))
         attributes (h, done))
  = Draco.mkHeap (3 * List.length attributes + Draco.next h) (Draco.live h).
Proof.
  revert h done. induction attributes as [|[name id] attributes IH]; intros h done H.
  - cbn [fold_left fst List.length]. now destruct h.
  - cbn [fold_left List.length].
    rewrite (surjective_pairing (decodeAttribute fromTypedArray g id h)).
    rewrite decodeAttribute_heap by assumption.
    rewrite IH by now apply well_formed_grow.
    cbn [Draco.next Draco.live]. f_equal. lia.
Qed.

(** The entries it sets. *)
Lemma decodeAttributeData_loop_value {Datatype : Type}
    (fromTypedArray : TypedArray -> Datatype) (g : Draco.MeshData)
    (attributes : list (string * Z)) (h h0 : Draco.Heap)
    (done : list (string * DecodedAttribute Datatype)) :
  snd (fold_left
         (fun '(heap, decodedAttributeData) '(attributeName, compressedAttribute) =>
            let '(heap, decoded) :=
              decodeAttribute fromTypedArray g compressedAttribute heap in
            (heap, decodedAttributeData ++ [(attributeName, decoded)]))
         attributes (h, done))
  = done ++ map (fun p => (fst p, snd (decodeAttribute fromTypedArray g (snd p) h0)))
                attributes.
Proof.
  revert h done. induction attributes as [|[name id] attributes IH]; intros h done.
  - cbn [fold_left map snd]. now rewrite app_nil_r.
  - cbn [fold_left map fst snd].
    rewrite (surjective_pairing (decodeAttribute fromTypedArray g id h)).
    rewrite IH, <- app_assoc. cbn [app].
    now rewrite (decodeAttribute_heap_irrelevant fromTypedArray g id h h0).
Qed.

Lemma decodeAttributeData_heap {Datatype : Type}
    (fromTypedArray : TypedArray -> Datatype) (g : Draco.MeshData)
    (attributes : list (string * Z)) (h : Draco.Heap) :
  well_formed_heap h ->
  fst (decodeAttributeData fromTypedArray g attributes h)
  = Draco.mkHeap (3 * List.length attributes + Draco.next h) (Draco.live h).
Proof. intros H. unfold decodeAttributeData. now apply decodeAttributeData_loop_heap. Qed.

Lemma decodeAttributeData_value {Datatype : Type}
    (fromTypedArray : TypedArray -> Datatype) (g : Draco.MeshData)
    (attributes : list (string * Z)) (h h0 : Draco.Heap) :
  snd (decodeAttributeData fromTypedArray g attributes h)
  = map (fun p => (fst p, snd (decodeAttribute fromTypedArray g (snd p) h0))) attributes.
Proof.
  unfold decodeAttributeData.
  now rewrite (decodeAttributeData_loop_value fromTypedArray g attributes h h0).
Qed.

(** ** decodeDracoPrimitive *)

Lemma skips_after_call (d : nat * list Draco.AttributeType) (parameters : Parameters) :
  (if dequantizeInShader parameters
   then fold_left (fun d t => (fst d, snd d ++ [t])) attributesToSkip d
   else d)
  = (fst d, snd d ++ requested_skips parameters).
Proof.
  unfold requested_skips. destruct (dequantizeInShader parameters).
  - cbn [fold_left attributesToSkip fst snd]. now rewrite <- !app_assoc.
  - rewrite app_nil_r. now destruct d.
Qed.

Section DecodeDracoPrimitive.

Context {Datatype : Type}.
Variable createTypedArray : nat -> nat -> TypedArray.
Variable fromTypedArray : TypedArray -> Datatype.
Variable draco : Draco.Codec.

(** The call, with the decoder it works with and the tuples taken apart. *)
Lemma decodeDracoPrimitive_unfold (parameters : Parameters) (w : Worker) :
  decodeDracoPrimitive createTypedArray fromTypedArray draco parameters w
  = let decoder := (decoder_address w, skipped w ++ requested_skips parameters) in
    let h1 :=
      Draco.mkHeap (Draco.next (heap w) + List.length (created_decoder w))
                   (Draco.live (heap w) ++ created_decoder w) in
    let buffer := Draco.alloc Draco.DecoderBuffer h1 in
    match Draco.GetEncodedGeometryType draco (parameters_array parameters)
            (bufferView_byteLength parameters) with
    | Draco.TRIANGULAR_MESH =>
        let mesh := Draco.alloc Draco.Mesh (snd buffer) in
        let decoded :=
          Draco.DecodeBufferToMesh draco (snd decoder) (parameters_array parameters)
            (bufferView_byteLength parameters) in
        if negb (Draco.ok (fst decoded)) || (Draco.ptr (snd decoded) =? 0)%Z then
          (mkWorker (Some decoder) (snd mesh),
           RuntimeError ("Error decoding draco mesh geometry: "
                         ++ Draco.error_msg (fst decoded)))
        else
          let indices :=
            decodeIndexArray createTypedArray (snd decoded)
              (Draco.destroy (fst buffer) (snd mesh)) in
          let attributes :=
            decodeAttributeData fromTypedArray (snd decoded)
              (compressedAttributes parameters) (fst indices) in
          (mkWorker (Some decoder) (Draco.destroy (fst mesh) (fst attributes)),
           Returned (mkResult (snd indices) (snd attributes)))
    | _ =>
        (mkWorker (Some decoder) (snd buffer),
         RuntimeError "Unsupported draco mesh geometry type.")
    end.
Proof.
  unfold decodeDracoPrimitive, decoder_address, skipped, created_decoder.
  cbv zeta. destruct (heap w) as [n l].
  destruct (dracoDecoder w) as [d|]; cbn [Draco.alloc Draco.next Draco.live];
    rewrite skips_after_call; cbn [List.length fst snd];
    rewrite ?Nat.add_0_r, ?app_nil_r, ?Nat.add_1_r;
    (destruct (Draco.GetEncodedGeometryType draco _ _); try reflexivity);
    destruct (Draco.DecodeBufferToMesh draco _ _ _) as [status g]; cbn [fst snd];
    (destruct (negb (Draco.ok status) || (Draco.ptr g =? 0)%Z); [reflexivity|]);
    destruct (decodeIndexArray _ _ _) as [h1 indices]; cbn [fst snd];
    now destruct (decodeAttributeData _ _ _ _) as [h2 attributes].
Qed.

Lemma decodeDracoPrimitive_decoder (parameters : Parameters) (w : Worker) :
  dracoDecoder (fst (decodeDracoPrimitive createTypedArray fromTypedArray draco parameters w))
  = Some (decoder_address w, skipped w ++ requested_skips parameters).
Proof.
  rewrite decodeDracoPrimitive_unfold. cbv zeta.
  destruct (Draco.GetEncodedGeometryType draco _ _); try reflexivity.
  now destruct (negb _ || _).
Qed.

(** The outcome of a call, whatever heap the two decoding functions are
    given. *)
Lemma decodeDracoPrimitive_outcome_eq (parameters : Parameters) (w : Worker)
    (h0 : Draco.Heap) :
  snd (decodeDracoPrimitive createTypedArray fromTypedArray draco parameters w)
  = match Draco.GetEncodedGeometryType draco (parameters_array parameters)
            (bufferView_byteLength parameters) with
    | Draco.TRIANGULAR_MESH =>
        let decoded :=
          Draco.DecodeBufferToMesh draco (skipped w ++ requested_skips parameters)
            (parameters_array parameters) (bufferView_byteLength parameters) in
        if negb (Draco.ok (fst decoded)) || (Draco.ptr (snd decoded) =? 0)%Z then
          RuntimeError ("Error decoding draco mesh geometry: "
                        ++ Draco.error_msg (fst decoded))
        else
          Returned
            (mkResult
               (snd (decodeIndexArray createTypedArray (snd decoded) h0))
               (snd (decodeAttributeData fromTypedArray (snd decoded)
                       (compressedAttributes parameters) h0)))
    | _ => RuntimeError "Unsupported draco mesh geometry type."
    end.
Proof.
  rewrite decodeDracoPrimitive_unfold. cbv zeta. cbn [snd].
  destruct (Draco.GetEncodedGeometryType draco _ _); try reflexivity.
  destruct (negb _ || _); [reflexivity|]. cbn [snd]. do 2 f_equal.
  - apply decodeIndexArray_heap_irrelevant.
  - now rewrite !(decodeAttributeData_value _ _ _ _ h0).
Qed.

Lemma filter_app_below (l rest : list (nat * Draco.Kind)) (n a : nat) :
  Forall (fun o => (fst o < n)%nat) l -> (n <= a)%nat ->
  filter (fun o => negb (Nat.eqb (fst o) a)) (l ++ rest)
  = l ++ filter (fun o => negb (Nat.eqb (fst o) a)) rest.
Proof. intros H Ha. now rewrite filter_app, (filter_below l n a). Qed.

Lemma created_decoder_well_formed (w : Worker) :
  well_formed_heap (heap w) ->
  well_formed_heap
    (Draco.mkHeap (Draco.next (heap w) + List.length (created_decoder w))
                  (Draco.live (heap w) ++ created_decoder w)).
Proof.
  unfold well_formed_heap, created_decoder. cbn [Draco.next Draco.live].
  intros H. apply Forall_app. split.
  - revert H. apply Forall_impl. intros o Ho. lia.
  - destruct (dracoDecoder w); repeat constructor. cbn. lia.
Qed.

(** The live objects after a call. *)
Lemma decodeDracoPrimitive_live (parameters : Parameters) (w : Worker) :
  well_formed_heap (heap w) ->
  Draco.live (heap (fst (decodeDracoPrimitive createTypedArray fromTypedArray draco
                           parameters w)))
  = Draco.live (heap w) ++ created_decoder w ++ left_allocated draco parameters w
  /\ well_formed_heap
       (heap (fst (decodeDracoPrimitive createTypedArray fromTypedArray draco
                     parameters w))).
Proof.
  intros H. apply created_decoder_well_formed in H.
  rewrite decodeDracoPrimitive_unfold. unfold left_allocated. cbv zeta.
  rewrite app_assoc.
  set (n1 := (Draco.next (heap w) + List.length (created_decoder w))%nat) in *.
  set (l1 := Draco.live (heap w) ++ created_decoder w) in *.
  cbn [Draco.alloc fst snd Draco.next Draco.live].
  assert (H2 : well_formed_heap (Draco.mkHeap (S (S n1)) (l1 ++ [(S n1, Draco.Mesh)]))).
  { unfold well_formed_heap in *. cbn [Draco.next Draco.live] in *.
    apply Forall_app. split.
    - revert H. apply Forall_impl. intros o Ho. lia.
    - repeat constructor. }
  destruct (Draco.GetEncodedGeometryType draco _ _).
  1, 2: cbn [fst heap Draco.live]; split; [reflexivity|];
    apply (alloc_well_formed Draco.DecoderBuffer _ H).
  destruct (Draco.DecodeBufferToMesh draco _ _ _) as [status g]. cbn [fst snd].
  destruct (negb (Draco.ok status) || (Draco.ptr g =? 0)%Z); cbn [fst heap].
  - cbn [Draco.live]. split; [now rewrite <- app_assoc|].
    apply (alloc_well_formed Draco.Mesh _
             (alloc_well_formed Draco.DecoderBuffer _ H)).
  - assert (E : Draco.destroy n1
                  (Draco.mkHeap (S (S n1))
                     ((l1 ++ [(n1, Draco.DecoderBuffer)]) ++ [(S n1, Draco.Mesh)]))
                = Draco.mkHeap (S (S n1)) (l1 ++ [(S n1, Draco.Mesh)])).
    { unfold Draco.destroy. cbn [Draco.next Draco.live]. f_equal.
      rewrite <- app_assoc, (filter_app_below l1 _ n1) by (assumption || lia).
      cbn [app filter fst]. rewrite Nat.eqb_refl.
      destruct (Nat.eqb_spec (S n1) n1); [lia|]. reflexivity. }
    rewrite E, decodeIndexArray_heap by assumption.
    rewrite decodeAttributeData_heap by now apply well_formed_grow.
    cbn [Draco.next Draco.live]. unfold Draco.destroy.
    cbn [Draco.next Draco.live].
    rewrite (filter_app_below l1 _ n1) by (assumption || lia).
    cbn [filter fst]. rewrite Nat.eqb_refl. cbn [negb].
    rewrite !app_nil_r. split; [reflexivity|].
    unfold well_formed_heap in *. cbn [Draco.next Draco.live] in *.
    revert H. apply Forall_impl. intros o Ho. lia.
Qed.

End DecodeDracoPrimitive.

(** ** What the worker returns *)

(** X14: when [IndexDatatype.createTypedArray] returns an array of the
    length it is asked for, [decodeIndexArray] returns that array holding
    the three indices of every face in the order of the faces, each
    converted to the element type of the array, and reports three indices
    per face. *)
Theorem index_array_holds_faces (createTypedArray : nat -> nat -> TypedArray)
    (g : Draco.MeshData) (h : Draco.Heap) :
  typed_length (createTypedArray (Draco.num_points g) (Draco.num_faces g * 3)%nat)
  = (Draco.num_faces g * 3)%nat ->
  let decoded := snd (decodeIndexArray createTypedArray g h) in
  typedArray decoded
  = filled (createTypedArray (Draco.num_points g) (Draco.num_faces g * 3)%nat)
           (face_indices g)
  /\ numberOfIndices decoded = (3 * Draco.num_faces g)%nat
  /\ typed_length (typedArray decoded) = numberOfIndices decoded.
Proof.
  intros H decoded. subst decoded. rewrite decodeIndexArray_value by assumption.
  cbn [typedArray numberOfIndices]. split; [reflexivity|]. split; [lia|].
  now rewrite typed_length_filled, face_indices_length.
Qed.

Lemma index_array_holds_faces_witness :
  typed_length (sample_createTypedArray (Draco.num_points sample_mesh)
                  (Draco.num_faces sample_mesh * 3)%nat)
  = (Draco.num_faces sample_mesh * 3)%nat
  /\ typedArray (snd (decodeIndexArray sample_createTypedArray sample_mesh
                        (heap new_worker)))
     = Uint16Array [0; 1; 2]%Z.
Proof.
  split; [reflexivity|].
  apply (index_array_holds_faces sample_createTypedArray sample_mesh (heap new_worker)).
  reflexivity.
Defined.

(** X15: on a heap whose live objects sit below the next fresh address,
    [decodeIndexArray] and [decodeAttributeData] destroy every object they
    make: the live objects are the same after as before. *)
Theorem decoding_destroys_temporaries {Datatype : Type}
    (createTypedArray : nat -> nat -> TypedArray)
    (fromTypedArray : TypedArray -> Datatype) (g : Draco.MeshData)
    (attributes : list (string * Z)) (h : Draco.Heap) :
  well_formed_heap h ->
  Draco.live (fst (decodeIndexArray createTypedArray g h)) = Draco.live h
  /\ Draco.live (fst (decodeAttributeData fromTypedArray g attributes h)) = Draco.live h
  /\ Draco.next (fst (decodeAttributeData fromTypedArray g attributes h))
     = (3 * List.length attributes + Draco.next h)%nat.
Proof.
  intros H. rewrite decodeIndexArray_heap, decodeAttributeData_heap by assumption.
  repeat split.
Qed.

Lemma decoding_destroys_temporaries_witness :
  well_formed_heap (heap used_worker)
  /\ Draco.live (fst (decodeIndexArray sample_createTypedArray sample_mesh
                        (heap used_worker)))
     = Draco.live (heap used_worker).
Proof.
  assert (H : well_formed_heap (heap used_worker))
    by (repeat constructor; cbn; lia).
  split; [exact H|].
  exact (proj1 (decoding_destroys_temporaries sample_createTypedArray
                  sample_fromTypedArray sample_mesh [] (heap used_worker) H)).
Defined.

(** X16: the array returned for an attribute has one element per point and
    component; for an attribute of data type 4 it is a [Uint16Array] of the
    decoded integers modulo 65536, for any other a [Float32Array] of the
    decoded numbers. The component datatype reported is the one of that
    array, and the other metadata are the attribute's own. *)
Theorem attribute_array_values {Datatype : Type}
    (fromTypedArray : TypedArray -> Datatype) (g : Draco.MeshData) (id : Z)
    (h : Draco.Heap) :
  let attribute := Draco.attribute_by_unique_id g id in
  let decoded := snd (decodeAttribute fromTypedArray g id h) in
  let indices :=
    zrange 0 (Z.of_nat (Draco.num_points g * Draco.num_components attribute)) in
  array decoded
  = (if (Draco.data_type attribute =? 4)%Z
     then Uint16Array (map (fun i => (Draco.int32_values attribute i mod 65536)%Z) indices)
     else Float32Array (map (Draco.float_values attribute) indices))
  /\ typed_length (array decoded)
     = (Draco.num_points g * Draco.num_components attribute)%nat
  /\ componentDatatype (data decoded) = fromTypedArray (array decoded)
  /\ componentsPerAttribute (data decoded) = Draco.num_components attribute
  /\ byteOffset (data decoded) = Draco.byte_offset attribute
  /\ byteStride (data decoded) = Draco.byte_stride attribute
  /\ normalized (data decoded) = Draco.normalized attribute.
Proof.
  cbv zeta. rewrite decodeAttribute_value. cbv zeta.
  cbn [array data componentDatatype componentsPerAttribute byteOffset byteStride
       normalized].
  unfold attribute_values. repeat split.
  destruct (Draco.data_type _ =? 4)%Z; cbn [typed_length];
    rewrite length_map, zrange_length; lia.
Qed.

(** X17: an integer attribute is stored in 16 bits whatever its values: an
    element of the returned array equals the decoded integer exactly when
    that integer lies between 0 and 65535. *)
Theorem int_attribute_wraps {Datatype : Type}
    (fromTypedArray : TypedArray -> Datatype) (g : Draco.MeshData) (id : Z)
    (h : Draco.Heap) (i : nat) :
  let attribute := Draco.attribute_by_unique_id g id in
  Draco.data_type attribute = 4%Z ->
  (i < Draco.num_points g * Draco.num_components attribute)%nat ->
  exists elements stored,
    array (snd (decodeAttribute fromTypedArray g id h)) = Uint16Array elements
    /\ nth_error elements i = Some stored
    /\ (0 <= stored < 65536)%Z
    /\ (stored = Draco.int32_values attribute (Z.of_nat i)
        <-> (0 <= Draco.int32_values attribute (Z.of_nat i) < 65536)%Z).
Proof.
  intros attribute Htype Hi. rewrite decodeAttribute_value. cbv zeta.
  cbn [array]. unfold attribute_values. fold attribute. rewrite Htype. cbn [Z.eqb Pos.eqb].
  eexists. exists (Draco.int32_values attribute (Z.of_nat i) mod 65536)%Z.
  split; [reflexivity|]. split.
  - rewrite nth_error_map, zrange_nth_error by lia. cbn [option_map]. reflexivity.
  - split; [apply Z.mod_pos_bound; lia|]. split.
    + intros E. rewrite <- E. apply Z.mod_pos_bound. lia.
    + intros Hv. now apply Z.mod_small.
Qed.

Lemma int_attribute_wraps_witness :
  Draco.data_type (Draco.attribute_by_unique_id sample_mesh 0) = 4%Z
  /\ (2 < Draco.num_points sample_mesh
          * Draco.num_components (Draco.attribute_by_unique_id sample_mesh 0))%nat
  /\ exists elements stored,
       array (snd (decodeAttribute sample_fromTypedArray sample_mesh 0
                     (heap new_worker)))
       = Uint16Array elements
       /\ nth_error elements 2 = Some stored
       /\ (0 <= stored < 65536)%Z
       /\ (stored = 70002%Z <-> (0 <= 70002 < 65536)%Z).
Proof.
  split; [reflexivity|]. split; [cbn; lia|].
  apply (int_attribute_wraps sample_fromTypedArray sample_mesh 0 (heap new_worker) 2);
    [reflexivity | cbn; lia].
Defined.

(** X18: when the octahedron transform initialises from an attribute, the
    quantization reported is the octahedron one (its bits, [octEncoded]
    true, no minimum values and no range), whether or not the quantization
    transform initialised too. *)
Theorem octahedron_overrides_quantization {Datatype : Type}
    (fromTypedArray : TypedArray -> Datatype) (g : Draco.MeshData) (id : Z)
    (h : Draco.Heap) (t : Draco.OctahedronTransform) :
  Draco.octahedron_transform (Draco.attribute_by_unique_id g id) = Some t ->
  quantization (data (snd (decodeAttribute fromTypedArray g id h)))
  = Some (mkQuantization (Draco.o_quantization_bits t) None None true).
Proof.
  intros H. rewrite decodeAttribute_value. cbv zeta. cbn [data quantization].
  unfold attribute_quantization. now rewrite H.
Qed.

Lemma octahedron_overrides_quantization_witness :
  Draco.octahedron_transform (Draco.attribute_by_unique_id sample_mesh 0)
  = Some (Draco.mkOctahedronTransform 10)
  /\ Draco.quantization_transform (Draco.attribute_by_unique_id sample_mesh 0) <> None
  /\ quantization (data (snd (decodeAttribute sample_fromTypedArray sample_mesh 0
                                (heap new_worker))))
     = Some (mkQuantization 10 None None true).
Proof.
  split; [reflexivity|]. split; [discriminate|].
  apply (octahedron_overrides_quantization sample_fromTypedArray sample_mesh 0
           (heap new_worker) (Draco.mkOctahedronTransform 10)).
  reflexivity.
Defined.

(** X19: when only the quantization transform initialises, the quantization
    reported carries its bits and range, [octEncoded] false, and one minimum
    value per component, in order and without a hole. *)
Theorem quantization_min_values {Datatype : Type}
    (fromTypedArray : TypedArray -> Datatype) (g : Draco.MeshData) (id : Z)
    (h : Draco.Heap) (t : Draco.QuantizationTransform) :
  let attribute := Draco.attribute_by_unique_id g id in
  Draco.octahedron_transform attribute = None ->
  Draco.quantization_transform attribute = Some t ->
  exists values,
    quantization (data (snd (decodeAttribute fromTypedArray g id h)))
    = Some (mkQuantization (Draco.q_quantization_bits t) (Some values)
                           (Some (Draco.q_range t)) false)
    /\ List.length values = Draco.num_components attribute
    /\ forall i, (i < Draco.num_components attribute)%nat ->
         nth_error values i = Some (Some (Draco.q_min_value t (Z.of_nat i))).
Proof.
  intros attribute Ho Hq. rewrite decodeAttribute_value. cbv zeta.
  cbn [data quantization]. unfold attribute_quantization. fold attribute.
  rewrite Ho, Hq. eexists. split; [reflexivity|]. split.
  - rewrite length_map, zrange_length. lia.
  - intros i Hi. rewrite nth_error_map, zrange_nth_error by lia. reflexivity.
Qed.

Lemma quantization_min_values_witness :
  Draco.octahedron_transform (Draco.attribute_by_unique_id sample_mesh 1) = None
  /\ Draco.quantization_transform (Draco.attribute_by_unique_id sample_mesh 1)
     = Some (Draco.mkQuantizationTransform 11 (fun i => IZR i) 2)
  /\ exists values,
       quantization (data (snd (decodeAttribute sample_fromTypedArray sample_mesh 1
                                  (heap new_worker))))
       = Some (mkQuantization 11 (Some values) (Some 2) false)
       /\ List.length values = 2%nat
       /\ forall i, (i < 2)%nat -> nth_error values i = Some (Some (IZR (Z.of_nat i))).
Proof.
  split; [reflexivity|]. split; [reflexivity|].
  apply (quantization_min_values sample_fromTypedArray sample_mesh 1 (heap new_worker)
           (Draco.mkQuantizationTransform 11 (fun i => IZR i) 2));
    reflexivity.
Defined.

(** X20: [decodeAttributeData] returns one entry per compressed attribute,
    under the same names and in the same order; the entry of an attribute
    is what decoding that attribute alone gives, whatever the heap and the
    other attributes. *)
Theorem attributes_decoded_in_order {Datatype : Type}
    (fromTypedArray : TypedArray -> Datatype) (g : Draco.MeshData)
    (attributes : list (string * Z)) (h h0 : Draco.Heap) :
  let decoded := snd (decodeAttributeData fromTypedArray g attributes h) in
  map fst decoded = map fst attributes
  /\ forall k name id,
       nth_error attributes k = Some (name, id) ->
       nth_error decoded k
       = Some (name, snd (decodeAttribute fromTypedArray g id h0)).
Proof.
  cbv zeta. rewrite (decodeAttributeData_value fromTypedArray g attributes h h0).
  split.
  - rewrite map_map. reflexivity.
  - intros k name id Hk. rewrite nth_error_map, Hk. reflexivity.
Qed.

(** ** What a call does *)

Lemma numberOfIndices_decoded (createTypedArray : nat -> nat -> TypedArray)
    (g : Draco.MeshData) (h : Draco.Heap) :
  numberOfIndices (snd (decodeIndexArray createTypedArray g h))
  = (Draco.num_faces g * 3)%nat.
Proof.
  unfold decodeIndexArray.
  rewrite (surjective_pairing (Draco.alloc Draco.DracoInt32Array h)).
  now destruct (for_range _ _ _ _) as [a o].
Qed.

(** X21: a call throws [RuntimeError] in two cases and only then: with the
    message of the unsupported type when the buffer does not hold a
    triangular mesh, and with the decoder's error message when decoding
    fails or the mesh has a null pointer. Otherwise it returns, with three
    indices per face and one attribute entry per compressed attribute. *)
Theorem decodeDracoPrimitive_outcome {Datatype : Type}
    (createTypedArray : nat -> nat -> TypedArray)
    (fromTypedArray : TypedArray -> Datatype) (draco : Draco.Codec)
    (parameters : Parameters) (w : Worker) :
  let geometryType :=
    Draco.GetEncodedGeometryType draco (parameters_array parameters)
      (bufferView_byteLength parameters) in
  let decoded :=
    Draco.DecodeBufferToMesh draco (skipped w ++ requested_skips parameters)
      (parameters_array parameters) (bufferView_byteLength parameters) in
  match snd (decodeDracoPrimitive createTypedArray fromTypedArray draco parameters w) with
  | RuntimeError message =>
      (geometryType <> Draco.TRIANGULAR_MESH
       /\ message = "Unsupported draco mesh geometry type."%string)
      \/ (geometryType = Draco.TRIANGULAR_MESH
          /\ (Draco.ok (fst decoded) = false \/ Draco.ptr (snd decoded) = 0%Z)
          /\ message = ("Error decoding draco mesh geometry: "
                        ++ Draco.error_msg (fst decoded))%string)
  | Returned result =>
      geometryType = Draco.TRIANGULAR_MESH
      /\ Draco.ok (fst decoded) = true
      /\ Draco.ptr (snd decoded) <> 0%Z
      /\ numberOfIndices (indexArray result) = (3 * Draco.num_faces (snd decoded))%nat
      /\ map fst (attributeData result) = map fst (compressedAttributes parameters)
  end.
Proof.
  cbv zeta.
  rewrite (decodeDracoPrimitive_outcome_eq createTypedArray fromTypedArray draco
             parameters w (heap w)).
  cbv zeta.
  destruct (Draco.GetEncodedGeometryType draco _ _).
  1, 2: left; split; [discriminate | reflexivity].
  destruct (Draco.DecodeBufferToMesh draco _ _ _) as [status g]. cbn [fst snd].
  destruct (Draco.ok status); cbn [negb orb].
  - destruct (Z.eqb_spec (Draco.ptr g) 0).
    + right. split; [reflexivity|]. split; [now right | reflexivity].
    + cbn [indexArray attributeData]. repeat split; try assumption.
      * rewrite numberOfIndices_decoded. lia.
      * rewrite (decodeAttributeData_value fromTypedArray g _ _ (heap w)).
        now rewrite map_map.
  - right. split; [reflexivity|]. split; [now left | reflexivity].
Qed.

(** X22: a call that returns destroys the buffer, the mesh and every array
    and transform it made: but for the decoder a first call creates, the
    live objects are the same after as before. *)
Theorem temporaries_destroyed_on_return {Datatype : Type}
    (createTypedArray : nat -> nat -> TypedArray)
    (fromTypedArray : TypedArray -> Datatype) (draco : Draco.Codec)
    (parameters : Parameters) (w : Worker) (status : Draco.Status)
    (g : Draco.MeshData) :
  well_formed_heap (heap w) ->
  Draco.GetEncodedGeometryType draco (parameters_array parameters)
    (bufferView_byteLength parameters) = Draco.TRIANGULAR_MESH ->
  Draco.DecodeBufferToMesh draco (skipped w ++ requested_skips parameters)
    (parameters_array parameters) (bufferView_byteLength parameters) = (status, g) ->
  Draco.ok status = true ->
  Draco.ptr g <> 0%Z ->
  Draco.live (heap (fst (decodeDracoPrimitive createTypedArray fromTypedArray draco
                           parameters w)))
  = Draco.live (heap w) ++ created_decoder w.
Proof.
  intros Hw Htype Hdecoded Hok Hptr.
  destruct (decodeDracoPrimitive_live createTypedArray fromTypedArray draco
              parameters w Hw) as [-> _].
  unfold left_allocated. cbv zeta. rewrite Htype, Hdecoded, Hok.
  destruct (Z.eqb_spec (Draco.ptr g) 0); [contradiction|].
  cbn [negb orb]. now rewrite app_nil_r.
Qed.

Lemma temporaries_destroyed_on_return_witness :
  well_formed_heap (heap new_worker)
  /\ Draco.GetEncodedGeometryType sample_codec (parameters_array sample_parameters)
       (bufferView_byteLength sample_parameters) = Draco.TRIANGULAR_MESH
  /\ Draco.DecodeBufferToMesh sample_codec
       (skipped new_worker ++ requested_skips sample_parameters)
       (parameters_array sample_parameters) (bufferView_byteLength sample_parameters)
     = (Draco.mkStatus true EmptyString, sample_mesh)
  /\ Draco.ok (Draco.mkStatus true EmptyString) = true
  /\ Draco.ptr sample_mesh <> 0%Z
  /\ Draco.live (heap (fst (decodeDracoPrimitive sample_createTypedArray
                              sample_fromTypedArray sample_codec sample_parameters
                              new_worker)))
     = [(1%nat, Draco.Decoder)].
Proof.
  assert (H : well_formed_heap (heap new_worker)) by constructor.
  split; [exact H|]. split; [reflexivity|]. split; [reflexivity|].
  split; [reflexivity|]. split; [discriminate|].
  apply (temporaries_destroyed_on_return sample_createTypedArray sample_fromTypedArray
           sample_codec sample_parameters new_worker
           (Draco.mkStatus true EmptyString) sample_mesh H);
    [reflexivity | reflexivity | reflexivity | discriminate].
Defined.

(** X23: a call that throws destroys nothing: the [DecoderBuffer] it made
    stays live, at an address that was not in use, and so does the [Mesh]
    when the error comes from decoding. *)
Theorem buffer_left_allocated_on_error {Datatype : Type}
    (createTypedArray : nat -> nat -> TypedArray)
    (fromTypedArray : TypedArray -> Datatype) (draco : Draco.Codec)
    (parameters : Parameters) (w : Worker) (message : string) :
  well_formed_heap (heap w) ->
  snd (decodeDracoPrimitive createTypedArray fromTypedArray draco parameters w)
  = RuntimeError message ->
  exists buffer rest,
    Draco.live (heap (fst (decodeDracoPrimitive createTypedArray fromTypedArray draco
                             parameters w)))
    = Draco.live (heap w) ++ created_decoder w
      ++ (buffer, Draco.DecoderBuffer) :: rest
    /\ (Draco.next (heap w) <= buffer)%nat
    /\ (rest = [] \/ rest = [(S buffer, Draco.Mesh)])
    /\ (rest = []
        <-> Draco.GetEncodedGeometryType draco (parameters_array parameters)
              (bufferView_byteLength parameters) <> Draco.TRIANGULAR_MESH).
Proof.
  intros Hw Hthrown.
  destruct (decodeDracoPrimitive_live createTypedArray fromTypedArray draco
              parameters w Hw) as [-> _].
  rewrite (decodeDracoPrimitive_outcome_eq createTypedArray fromTypedArray draco
             parameters w (heap w)) in Hthrown.
  unfold left_allocated. cbv zeta in *.
  exists (Draco.next (heap w) + List.length (created_decoder w))%nat.
  destruct (Draco.GetEncodedGeometryType draco _ _).
  1, 2: exists []; split; [reflexivity|]; split; [lia|]; split; [now left|];
    split; [discriminate | reflexivity].
  destruct (Draco.DecodeBufferToMesh draco _ _ _) as [status g].
  cbn [fst snd] in Hthrown.
  destruct (negb (Draco.ok status) || (Draco.ptr g =? 0)%Z); [|discriminate].
  eexists. split; [reflexivity|]. split; [lia|]. split; [now right|].
  split; [discriminate | intros H; now contradiction H].
Qed.

Lemma buffer_left_allocated_on_error_witness :
  well_formed_heap (heap used_worker)
  /\ snd (decodeDracoPrimitive sample_createTypedArray sample_fromTypedArray
            point_cloud_codec sample_parameters used_worker)
     = RuntimeError "Unsupported draco mesh geometry type."
  /\ exists buffer rest,
       Draco.live (heap (fst (decodeDracoPrimitive sample_createTypedArray
                                sample_fromTypedArray point_cloud_codec
                                sample_parameters used_worker)))
       = Draco.live (heap used_worker) ++ created_decoder used_worker
         ++ (buffer, Draco.DecoderBuffer) :: rest
       /\ (Draco.next (heap used_worker) <= buffer)%nat
       /\ (rest = [] \/ rest = [(S buffer, Draco.Mesh)])
       /\ (rest = []
           <-> Draco.GetEncodedGeometryType point_cloud_codec
                 (parameters_array sample_parameters)
                 (bufferView_byteLength sample_parameters) <> Draco.TRIANGULAR_MESH).
Proof.
  assert (H : well_formed_heap (heap used_worker))
    by (repeat constructor; cbn; lia).
  split; [exact H|]. split; [reflexivity|].
  apply (buffer_left_allocated_on_error sample_createTypedArray sample_fromTypedArray
           point_cloud_codec sample_parameters used_worker
           "Unsupported draco mesh geometry type." H).
  reflexivity.
Defined.

(** ** A sequence of tasks *)

Lemma after_tasks_decoder {Datatype : Type}
    (createTypedArray : nat -> nat -> TypedArray)
    (fromTypedArray : TypedArray -> Datatype) (draco : Draco.Codec)
    (tasks : list Parameters) (w : Worker) (d : nat * list Draco.AttributeType) :
  dracoDecoder w = Some d ->
  dracoDecoder (after_tasks createTypedArray fromTypedArray draco tasks w)
  = Some (fst d, snd d ++ flat_map requested_skips tasks).
Proof.
  unfold after_tasks. revert w d.
  induction tasks as [|p tasks IH]; intros w d Hd.
  - cbn [fold_left flat_map]. rewrite app_nil_r, Hd. now destruct d.
  - cbn [fold_left flat_map].
    rewrite (IH _ (decoder_address w, skipped w ++ requested_skips p))
      by apply decodeDracoPrimitive_decoder.
    unfold decoder_address, skipped. rewrite Hd. cbn [fst snd].
    now rewrite app_assoc.
Qed.

(** X25: the decoder is made by the first task and shared by all that
    follow, and it is never told to stop skipping: after a sequence of tasks
    it sits at the address the first one found or gave it, and has received
    the skip calls of every task that asked to dequantize in the shader, on
    top of those it had. *)
Theorem decoder_shared_across_tasks {Datatype : Type}
    (createTypedArray : nat -> nat -> TypedArray)
    (fromTypedArray : TypedArray -> Datatype) (draco : Draco.Codec)
    (first : Parameters) (tasks : list Parameters) (w : Worker) :
  dracoDecoder (after_tasks createTypedArray fromTypedArray draco (first :: tasks) w)
  = Some (decoder_address w, skipped w ++ flat_map requested_skips (first :: tasks)).
Proof.
  change (after_tasks createTypedArray fromTypedArray draco (first :: tasks) w)
    with (after_tasks createTypedArray fromTypedArray draco tasks
            (fst (decodeDracoPrimitive createTypedArray fromTypedArray draco first w))).
  rewrite (after_tasks_decoder _ _ _ _ _
             (decoder_address w, skipped w ++ requested_skips first))
    by apply decodeDracoPrimitive_decoder.
  cbn [fst snd flat_map]. now rewrite app_assoc.
Qed.

Lemma left_allocated_no_decoder (draco : Draco.Codec) (parameters : Parameters)
    (w : Worker) :
  filter is_decoder (left_allocated draco parameters w) = [].
Proof.
  unfold left_allocated. cbv zeta.
  destruct (Draco.GetEncodedGeometryType draco _ _); try reflexivity.
  destruct (Draco.DecodeBufferToMesh draco _ _ _) as [status g].
  now destruct (negb _ || _).
Qed.

Lemma created_decoder_is_decoder (w : Worker) :
  filter is_decoder (created_decoder w) = created_decoder w.
Proof. unfold created_decoder. now destruct (dracoDecoder w). Qed.

Lemma after_tasks_decoders {Datatype : Type}
    (createTypedArray : nat -> nat -> TypedArray)
    (fromTypedArray : TypedArray -> Datatype) (draco : Draco.Codec)
    (tasks : list Parameters) (w : Worker) :
  well_formed_heap (heap w) -> dracoDecoder w <> None ->
  filter is_decoder
    (Draco.live (heap (after_tasks createTypedArray fromTypedArray draco tasks w)))
  = filter is_decoder (Draco.live (heap w)).
Proof.
  unfold after_tasks. revert w.
  induction tasks as [|p tasks IH]; intros w Hw Hd; [reflexivity|].
  cbn [fold_left].
  destruct (decodeDracoPrimitive_live createTypedArray fromTypedArray draco p w Hw)
    as [Hlive Hw'].
  rewrite IH; [| assumption | now rewrite decodeDracoPrimitive_decoder].
  rewrite Hlive, !filter_app, left_allocated_no_decoder, app_nil_r.
  unfold created_decoder. destruct (dracoDecoder w); [|contradiction].
  apply app_nil_r.
Qed.

(** X26: however many tasks run and however they end, the worker makes one
    decoder at most: the decoders among the live objects are those there
    were, and the one the first task made if [dracoDecoder] was undefined. *)
Theorem one_decoder_for_all_tasks {Datatype : Type}
    (createTypedArray : nat -> nat -> TypedArray)
    (fromTypedArray : TypedArray -> Datatype) (draco : Draco.Codec)
    (first : Parameters) (tasks : list Parameters) (w : Worker) :
  well_formed_heap (heap w) ->
  filter is_decoder
    (Draco.live (heap (after_tasks createTypedArray fromTypedArray draco
                         (first :: tasks) w)))
  = filter is_decoder (Draco.live (heap w)) ++ created_decoder w.
Proof.
  intros Hw.
  change (after_tasks createTypedArray fromTypedArray draco (first :: tasks) w)
    with (after_tasks createTypedArray fromTypedArray draco tasks
            (fst (decodeDracoPrimitive createTypedArray fromTypedArray draco first w))).
  destruct (decodeDracoPrimitive_live createTypedArray fromTypedArray draco first w Hw)
    as [Hlive Hw'].
  rewrite after_tasks_decoders;
    [| assumption | now rewrite decodeDracoPrimitive_decoder].
  rewrite Hlive, !filter_app, left_allocated_no_decoder, app_nil_r.
  now rewrite created_decoder_is_decoder.
Qed.

Lemma one_decoder_for_all_tasks_witness :
  well_formed_heap (heap new_worker)
  /\ filter is_decoder
       (Draco.live (heap (after_tasks sample_createTypedArray sample_fromTypedArray
                            point_cloud_codec
                            [sample_parameters; sample_parameters; sample_parameters]
                            new_worker)))
     = [(1%nat, Draco.Decoder)].
Proof.
  assert (H : well_formed_heap (heap new_worker)) by constructor.
  split; [exact H|].
  exact (one_decoder_for_all_tasks sample_createTypedArray sample_fromTypedArray
           point_cloud_codec sample_parameters [sample_parameters; sample_parameters]
           new_worker H).
Defined.
